(** * Worktree lifecycle, publication pipeline and board projection

    A shallow embedding of the automaker worktree routes (list, create,
    create-pr), of the status route of the hosting CLI, of the board
    column hook and of the two board components that call the routes
    (the worktree selector and the pull-request dialog), with the
    properties the design document states about them and further
    properties read off the sources.

    Strings are sequences of ASCII code units; every string primitive of
    the host language that the sources call ([trim], [toLowerCase],
    [includes], [startsWith], [slice], [split], [replace]) is written out
    below on that representation. *)

From stdpp Require Import gmap strings list.
From Stdlib Require Import Ascii String ZArith Lia Sorted.

Local Open Scope string_scope.
Local Open Scope list_scope.

(** Appending to a literal is left to [simpl]. *)
#[local] Arguments String.append !_ _ / : simpl nomatch.

(** ** String primitives *)

Module Js.

(** A value used in a boolean position: [undefined] and the empty string
    are falsy, every other string is truthy. *)
Definition truthy (o : option string) : bool :=
  match o with
  | Some (String _ _) => true
  | _ => false
  end.

(** [a || b] on possibly-undefined strings. *)
Definition or_else (o : option string) (d : string) : string :=
  match o with
  | Some (String c s) => String c s
  | _ => d
  end.

Definition nonempty (s : string) : bool :=
  match s with
  | EmptyString => false
  | String _ _ => true
  end.

Definition code (c : ascii) : nat := nat_of_ascii c.

(** White space, as [trim] and the [\s] class see it. *)
Definition is_space (c : ascii) : bool :=
  let n := code c in
  (n =? 32)%nat || ((9 <=? n)%nat && (n <=? 13)%nat).

Definition is_upper (c : ascii) : bool :=
  let n := code c in (65 <=? n)%nat && (n <=? 90)%nat.

Definition is_lower (c : ascii) : bool :=
  let n := code c in (97 <=? n)%nat && (n <=? 122)%nat.

Definition is_digit (c : ascii) : bool :=
  let n := code c in (48 <=? n)%nat && (n <=? 57)%nat.

(** The [\w] class. *)
Definition is_word (c : ascii) : bool :=
  is_upper c || is_lower c || is_digit c || (code c =? 95)%nat.

Definition is_ascii (c : ascii) : bool := (code c <? 128)%nat.

(** [toLowerCase], one code unit at a time: the letters A to Z are
    folded.  On text whose code units are all below 128 this is the host
    function; what the host does with the letters above that range is
    not modelled. *)
Definition lower_char (c : ascii) : ascii :=
  if is_upper c then ascii_of_nat (code c + 32) else c.

Fixpoint toLowerCase (s : string) : string :=
  match s with
  | EmptyString => EmptyString
  | String c s' => String (lower_char c) (toLowerCase s')
  end.

Fixpoint trimStart (s : string) : string :=
  match s with
  | EmptyString => EmptyString
  | String c s' => if is_space c then trimStart s' else s
  end.

Fixpoint trimEnd (s : string) : string :=
  match s with
  | EmptyString => EmptyString
  | String c s' =>
      match trimEnd s' with
      | EmptyString => if is_space c then EmptyString else String c EmptyString
      | t => String c t
      end
  end.

Definition trim (s : string) : string := trimEnd (trimStart s).

Definition startsWith (s p : string) : bool := String.prefix p s.

(** [hay.includes(needle)] *)
Fixpoint includes (hay needle : string) : bool :=
  String.prefix needle hay ||
  match hay with
  | EmptyString => false
  | String _ hay' => includes hay' needle
  end.

(** [s.slice(n)] for [0 <= n]. *)
Fixpoint slice (n : nat) (s : string) : string :=
  match n, s with
  | O, _ => s
  | S n', String _ s' => slice n' s'
  | S _, EmptyString => EmptyString
  end.

(** [s.substring(0, n)] *)
Fixpoint take (n : nat) (s : string) : string :=
  match n, s with
  | S n', String c s' => String c (take n' s')
  | _, _ => EmptyString
  end.

(** [s.split(sep)] for a one-character separator: the result always has
    one more piece than [s] has separators. *)
Fixpoint split (sep : ascii) (s : string) : list string :=
  match s with
  | EmptyString => [EmptyString]
  | String c s' =>
      if Ascii.eqb c sep then EmptyString :: split sep s'
      else match split sep s' with
           | [] => [String c EmptyString]
           | piece :: rest => String c piece :: rest
           end
  end.

(** [s.replace(pat, rep)] with a string pattern: only the first
    occurrence is replaced. *)
Fixpoint replace_first (pat rep : string) (s : string) : string :=
  if String.prefix pat s then rep +:+ slice (String.length pat) s
  else match s with
       | EmptyString => EmptyString
       | String c s' => String c (replace_first pat rep s')
       end.

(** [s.replace(/[cls]/g, rep)] for a character class [cls]. *)
Fixpoint replace_class (cls : ascii -> bool) (rep : string) (s : string)
  : string :=
  match s with
  | EmptyString => EmptyString
  | String c s' =>
      if cls c then rep +:+ replace_class cls rep s'
      else String c (replace_class cls rep s')
  end.

Definition dquote : ascii := ascii_of_nat 34.
Definition backslash : ascii := ascii_of_nat 92.
Definition newline : ascii := ascii_of_nat 10.
Definition tab : ascii := ascii_of_nat 9.

(** A string of which [split] on newlines makes one line. *)
Fixpoint noNewline (s : string) : bool :=
  match s with
  | EmptyString => true
  | String c s' => negb (Ascii.eqb c newline) && noNewline s'
  end.

(** Every character of the string is in the class. *)
Fixpoint all (p : ascii → bool) (s : string) : bool :=
  match s with
  | EmptyString => true
  | String c s' => p c && all p s'
  end.

(** [s.replace(/"/g, '\\"')] *)
Definition escape_quotes (s : string) : string :=
  replace_class (Ascii.eqb dquote) (String backslash (String dquote "")) s.

Definition quoted (s : string) : string :=
  String dquote (s +:+ String dquote "").

End Js.

(** ** Board projector (the column hook of the board view) *)

Module Board.

Record Feature := mkFeature {
  id : string;
  description : string;
  category : option string;
  status : string;
  priority : option Z;
  worktreePath : option string
}.

#[global] Instance Feature_eq_dec : EqDecision Feature.
Proof. solve_decision. Defined.

(** The column object is a plain object used as a dictionary from
    column id to array; it is created with exactly these five own keys. *)
Definition emptyColumns : gmap string (list Feature) :=
  <["backlog" := []]> (<["in_progress" := []]> (<["waiting_approval" := []]>
  (<["verified" := []]> (<["completed" := []]> ∅)))).

Definition columnIds : list string :=
  ["backlog"; "in_progress"; "waiting_approval"; "verified"; "completed"].

(** The properties a plain object inherits from [Object.prototype].
    Read through the column object, each of them gives the inherited
    value (a function or, for [__proto__], the prototype itself): a
    truthy value that has no [push]. *)
Definition inheritedKeys : list string :=
  ["constructor"; "__defineGetter__"; "__defineSetter__"; "hasOwnProperty";
   "__lookupGetter__"; "__lookupSetter__"; "isPrototypeOf";
   "propertyIsEnumerable"; "toString"; "valueOf"; "__proto__";
   "toLocaleString"].

(** [map[k].push(f)] *)
Definition push (k : string) (f : Feature) (m : gmap string (list Feature))
  : gmap string (list Feature) :=
  alter (fun arr => arr ++ [f]) k m.

Definition normalizedQuery (searchQuery : string) : string :=
  Js.trim (Js.toLowerCase searchQuery).

Definition matchesQuery (q : string) (f : Feature) : bool :=
  Js.includes (Js.toLowerCase (description f)) q ||
  match category f with
  | Some c => Js.includes (Js.toLowerCase c) q
  | None => false
  end.

Definition textFilter (searchQuery : string) (features : list Feature)
  : list Feature :=
  let q := normalizedQuery searchQuery in
  if Js.nonempty q then List.filter (matchesQuery q) features else features.

(** [currentWorktree]: [None] is the main branch, [Some p] a worktree. *)
Definition inScope (currentWorktree : option string) (f : Feature) : bool :=
  if negb (Js.truthy (worktreePath f)) then true
  else match currentWorktree with
       | None => false
       | Some cw =>
           match worktreePath f with
           | Some p => String.eqb p cw
           | None => false
           end
       end.

Definition filteredFeatures (features : list Feature) (searchQuery : string)
    (currentWorktree : option string) : list Feature :=
  List.filter (inScope currentWorktree) (textFilter searchQuery features).

Definition isRunning (runningAutoTasks : list string) (f : Feature) : bool :=
  bool_decide (id f ∈ runningAutoTasks).

(** Body of the [forEach] that distributes the features.  The test
    [if (map[status])] succeeds on an own key and on an inherited one;
    on an inherited one [map[status].push] is not a function and the
    call throws a [TypeError], here [None]. *)
Definition place (runningAutoTasks : list string)
    (m : gmap string (list Feature)) (f : Feature)
  : option (gmap string (list Feature)) :=
  if isRunning runningAutoTasks f then Some (push "in_progress" f m)
  else match m !! status f with
       | Some _ => Some (push (status f) f m)
       | None =>
           if bool_decide (status f ∈ inheritedKeys) then None
           else Some (push "backlog" f m)
       end.

(** [features.forEach(body)] on the column object: an exception of the
    body ends the loop and leaves through the hook. *)
Fixpoint forEach (body : gmap string (list Feature) → Feature →
                         option (gmap string (list Feature)))
    (m : gmap string (list Feature)) (features : list Feature)
  : option (gmap string (list Feature)) :=
  match features with
  | [] => Some m
  | f :: rest =>
      match body m f with
      | Some m' => forEach body m' rest
      | None => None
      end
  end.

Definition sortKey (f : Feature) : Z :=
  match priority f with
  | Some p => p
  | None => 999%Z
  end.

(** [Array.prototype.sort] with the comparator [a - b] on the keys: a
    stable sort, here by insertion from the right. *)
Fixpoint insertByKey (x : Feature) (l : list Feature) : list Feature :=
  match l with
  | [] => [x]
  | y :: l' =>
      if (sortKey x <=? sortKey y)%Z then x :: y :: l'
      else y :: insertByKey x l'
  end.

Definition sortBacklog (l : list Feature) : list Feature :=
  foldr insertByKey [] l.

(** The value of the hook's [useMemo]; [None] when it throws. *)
Definition columnFeaturesMap (features : list Feature)
    (runningAutoTasks : list string) (searchQuery : string)
    (currentWorktree : option string)
  : option (gmap string (list Feature)) :=
  let filtered := filteredFeatures features searchQuery currentWorktree in
  match forEach (place runningAutoTasks) emptyColumns filtered with
  | Some m => Some (alter sortBacklog "backlog" m)
  | None => None
  end.

Definition getColumnFeatures (m : gmap string (list Feature))
    (columnId : string) : list Feature :=
  default [] (m !! columnId).

(** The column a retained feature is put in, when its status is not a
    name the column object inherits. *)
Definition columnOf (runningAutoTasks : list string) (f : Feature) : string :=
  if isRunning runningAutoTasks f then "in_progress"
  else if bool_decide (status f ∈ columnIds) then status f
  else "backlog".

(** The text filter seen from one feature. *)
Definition passesText (searchQuery : string) (f : Feature) : bool :=
  let q := normalizedQuery searchQuery in
  if Js.nonempty q then matchesQuery q f else true.

(** The map keeps exactly the five column keys. *)
Definition fiveKeys (m : gmap string (list Feature)) : Prop :=
  ∀ c, is_Some (m !! c) ↔ c ∈ columnIds.

(** A feature is on the board when some column holds it. *)
Definition shown (m : gmap string (list Feature)) (f : Feature) : Prop :=
  ∃ c, f ∈ getColumnFeatures m c.


(** *** Order and archive *)

(** The status of every feature that is not running is one the column
    object can be asked for: no name of [inheritedKeys]. *)
Definition plainStatuses (features : list Feature) (running : list string)
  : Prop :=
  ∀ f, f ∈ features → isRunning running f = false →
       status f ∉ inheritedKeys.

(** The text the search reads is in the range the string primitives are
    modelled on. *)
Definition plainText (s : string) : Prop := Js.all Js.is_ascii s = true.

Definition plainFeature (f : Feature) : Prop :=
  plainText (description f) ∧ ∀ c, category f = Some c → plainText c.

(** The features of the array that pass both filters and belong to the
    column, in the order of the array. *)
Definition destined (running : list string) (searchQuery : string)
    (currentWorktree : option string) (c : string)
    (features : list Feature) : list Feature :=
  filter (λ f, passesText searchQuery f = true ∧
               inScope currentWorktree f = true ∧
               columnOf running f = c) features.

(** The order the comparator of the backlog sorts by. *)
Definition byPriority (a b : Feature) : Prop := (sortKey a ≤ sortKey b)%Z.

(** [completedFeatures], the features of the archive modal. *)
Definition completedFeatures (features : list Feature) : list Feature :=
  List.filter (λ f, String.eqb (status f) "completed") features.

End Board.

(** ** The host the route handlers run on

    The handlers talk to the outside world through child processes and the
    file system.  Every such call either resolves with a value or rejects
    with an error object; what it does is up to the host, so the handlers
    are written against an interface and the theorems hold for every host. *)

Module Host.

(** The fields of a rejection the handlers read. *)
Record JsError := mkError {
  stderr : option string;
  message : option string
}.

Inductive Result (A : Type) :=
| Ok (a : A)
| Throw (e : JsError).
Arguments Ok {A} a.
Arguments Throw {A} e.

Inductive Call :=
| Exec (command : string) (cwd : option string) (extendedPath : bool)
| FsMkdir (path : string)
| FsAccess (path : string)
| FsSymlink (target path kind : string).

#[global] Instance Call_eq_dec : EqDecision Call.
Proof. solve_decision. Defined.

(** What lies outside the sources shown: the operating system behind
    [execAsync] and [fs], the helpers [isGitRepo] and [getErrorMessage]
    of [common.js], and the built-ins [path.join], [process.platform]
    and [Number]. [Number] is [None] on a string that is not a number. *)
Class Env (World : Type) := {
  perform : Call → World → Result string * World;
  isGitRepo : string → World → Result bool * World;
  getErrorMessage : JsError → string;
  path_join : string → string → string;
  win32 : bool;
  Number : string → option Z
}.

(** An event of the log: a call and how it ended. *)
Definition Event : Type := Call * Result string.

Definition State (World : Type) : Type := World * list Event.

(** An asynchronous computation that has been awaited. *)
Definition Async (World A : Type) : Type :=
  State World → Result A * State World.

Section Monad.
Context {World : Type} {env : Env World}.

Definition ret {A} (a : A) : Async World A := λ st, (Ok a, st).

Definition throw {A} (e : JsError) : Async World A := λ st, (Throw e, st).

Definition bind {A B} (m : Async World A) (k : A → Async World B)
  : Async World B :=
  λ st, match m st with
        | (Ok a, st') => k a st'
        | (Throw e, st') => (Throw e, st')
        end.

(** [try { body } catch (e) { handler e }] *)
Definition try_catch {A} (body : Async World A)
    (handler : JsError → Async World A) : Async World A :=
  λ st, match body st with
        | (Ok a, st') => (Ok a, st')
        | (Throw e, st') => handler e st'
        end.

Definition call (c : Call) : Async World string :=
  λ '(w, log),
    let '(r, w') := perform c w in (r, (w', log ++ [(c, r)])).

(** [await execAsync(command, { cwd, env })] *)
Definition execAsync (command : string) (cwd : option string)
    (extendedPath : bool) : Async World string :=
  call (Exec command cwd extendedPath).

Definition isGitRepoM (path : string) : Async World bool :=
  λ '(w, log), let '(r, w') := isGitRepo path w in (r, (w', log)).

Fixpoint forEach {A B} (f : A → Async World B) (l : list A)
  : Async World (list B) :=
  match l with
  | [] => ret []
  | x :: l' => bind (f x) (λ y, bind (forEach f l') (λ ys, ret (y :: ys)))
  end.

(** One request served on a world, with the log of what it did. *)
Definition invoke {A} (m : Async World A) (w : World)
  : Result A * list Event :=
  let '(r, (_, log)) := m (w, []) in (r, log).

End Monad.

(** A host that plays back a script: every call takes the next outcome
    of the list, whatever the call is. *)
Definition scripted : Env (list (Result string)) := {|
  perform _ w :=
    match w with
    | r :: w' => (r, w')
    | [] => (Throw (mkError None (Some "script exhausted")), [])
    end;
  isGitRepo _ w := (Ok true, w);
  getErrorMessage e := Js.or_else (message e) "Unknown error";
  path_join a b := a +:+ "/" +:+ b;
  win32 := false;
  Number _ := None
|}.

(** A handler's answer: [res.json({success: true, ...})] or
    [res.status(code).json({success: false, error})]. *)
Inductive Response (R : Type) :=
| Success (result : R)
| Failure (status : nat) (error : string).
Arguments Success {R} result.
Arguments Failure {R} status error.

(** [a || b || c] on the fields of an error. *)
Definition errorText (e : JsError) (fallback : string) : string :=
  Js.or_else (stderr e) (Js.or_else (message e) fallback).

End Host.

Notation "'let*' x ':=' m 'in' k" := (Host.bind m (λ x, k))
  (at level 10, x name, m at level 100, k at level 200, only parsing).
Notation "'let*' '_' ':=' m 'in' k" := (Host.bind m (λ _, k))
  (at level 10, m at level 100, k at level 200, only parsing).
Notation "'let*' ' pat ':=' m 'in' k" :=
  (Host.bind m (λ x, match x with pat => k end))
  (at level 10, pat pattern, m at level 100, k at level 200, only parsing).

(** ** Isolation registry: the list and create handlers *)

Module Worktree.
Import Host.

Record AheadBehind := mkAheadBehind { ahead : Z; behind : Z }.

Record WorktreeInfo := mkWorktreeInfo {
  path : string;
  branch : string;
  isMain : bool;
  hasChanges : option bool;
  changedFilesCount : option nat;
  aheadBehind : option AheadBehind
}.

(** *** Parsing of [git worktree list --porcelain] *)

Record ParseState := mkParseState {
  worktrees : list WorktreeInfo;
  currentPath : option string;
  currentBranch : option string;
  isFirst : bool
}.

Definition initialParseState : ParseState := mkParseState [] None None true.

(** Body of the loop over the lines of the listing. *)
Definition parseLine (st : ParseState) (line : string) : ParseState :=
  if Js.startsWith line "worktree " then
    mkParseState (worktrees st) (Some (Js.slice 9 line)) (currentBranch st)
      (isFirst st)
  else if Js.startsWith line "branch " then
    mkParseState (worktrees st) (currentPath st)
      (Some (Js.replace_first "refs/heads/" "" (Js.slice 7 line)))
      (isFirst st)
  else if String.eqb line "" then
    match currentPath st, currentBranch st with
    | Some (String a p), Some (String b r) =>
        mkParseState
          (worktrees st ++
             [mkWorktreeInfo (String a p) (String b r) (isFirst st)
                None None None])
          None None false
    | _, _ => mkParseState (worktrees st) None None (isFirst st)
    end
  else st.

Definition parseWorktreeList (stdout : string) : list WorktreeInfo :=
  worktrees (foldl parseLine initialParseState (Js.split Js.newline stdout)).

Definition numberOrZero (o : option Z) : Z := default 0%Z o.

Record ListBody := mkListBody {
  list_projectPath : option string;
  includeDetails : option bool
}.

Record CreateBody := mkCreateBody {
  projectPath : option string;
  branchName : option string;
  baseBranch : option string
}.

Record Created := mkCreated {
  created_path : string;
  created_branch : string;
  isNew : bool
}.

(** The class [[a-zA-Z0-9_-]]. *)
Definition dirChar (c : ascii) : bool :=
  Js.is_lower c || Js.is_upper c || Js.is_digit c ||
  (Js.code c =? 95)%nat || (Js.code c =? 45)%nat.

(** [branchName.replace(/[^a-zA-Z0-9_-]/g, "-")] *)
Definition sanitizedName (branchName : string) : string :=
  Js.replace_class (λ c, negb (dirChar c)) "-" branchName.

(** The calls of the list handler, by name. *)
Definition listCall (projectPath : string) : Call :=
  Exec "git worktree list --porcelain" (Some projectPath) false.

Definition statusCall (wt : WorktreeInfo) : Call :=
  Exec "git status --porcelain" (Some (path wt)) false.

Definition revListCall (wt : WorktreeInfo) : Call :=
  Exec ("git rev-list --left-right --count origin/" +:+ branch wt +:+
        "...HEAD") (Some (path wt)) false.

(** [status.split("\n").filter(Boolean).length] *)
Definition changedFiles (status : string) : nat :=
  List.length (List.filter Js.nonempty (Js.split Js.newline status)).

Section Handlers.
Context {World : Type} {env : Env World}.

(** [revList.trim().split("\t").map(Number)], read as behind and ahead,
    each with [|| 0]. *)
Definition parseAheadBehind (revList : string) : AheadBehind :=
  let nums := Number <$> Js.split Js.tab (Js.trim revList) in
  let behind := numberOrZero (mjoin (nums !! 0%nat)) in
  let ahead := numberOrZero (mjoin (nums !! 1%nat)) in
  mkAheadBehind ahead behind.

(** The details of one entry. The entry is only written to after the
    status query has resolved, and everything after that sits in the
    inner [try]; so the outer [catch] finds the entry as it was. *)
Definition addDetails (wt : WorktreeInfo) : Async World WorktreeInfo :=
  try_catch
    (let* status := call (statusCall wt) in
     let wt1 :=
       mkWorktreeInfo (path wt) (branch wt) (isMain wt)
         (Some (0 <? changedFiles status)%nat)
         (Some (changedFiles status)) (aheadBehind wt) in
     try_catch
       (let* revList := call (revListCall wt1) in
        ret (mkWorktreeInfo (path wt1) (branch wt1) (isMain wt1)
               (hasChanges wt1) (changedFilesCount wt1)
               (Some (parseAheadBehind revList))))
       (λ _,
        ret (mkWorktreeInfo (path wt1) (branch wt1) (isMain wt1)
               (hasChanges wt1) (changedFilesCount wt1)
               (Some (mkAheadBehind 0 0)))))
    (λ _, ret wt).

Definition createListHandler (body : ListBody)
  : Async World (Response (list WorktreeInfo)) :=
  try_catch
    (match list_projectPath body with
     | Some (String c p) =>
         let projectPath := String c p in
         let* isRepo := isGitRepoM projectPath in
         if negb isRepo then ret (Success [])
         else
           let* stdout := call (listCall projectPath) in
           let worktrees := parseWorktreeList stdout in
           let* detailed := (if default false (includeDetails body)
                       then forEach addDetails worktrees
                       else ret worktrees) in
           ret (Success detailed)
     | _ => ret (Failure 400 "projectPath required")
     end)
    (λ e, ret (Failure 500 (getErrorMessage e))).

Definition createCreateHandler (body : CreateBody)
  : Async World (Response Created) :=
  try_catch
    (match projectPath body, branchName body with
     | Some (String c p), Some (String d b) =>
         let projectPath := String c p in
         let branchName := String d b in
         let* isRepo := isGitRepoM projectPath in
         if negb isRepo then ret (Failure 400 "Not a git repository")
         else
           let worktreesDir := path_join projectPath ".worktrees" in
           let worktreePath :=
             path_join worktreesDir (sanitizedName branchName) in
           let* _ := call (FsMkdir worktreesDir) in
           let* present := try_catch
                       (let* _ := call (FsAccess worktreePath) in ret true)
                       (λ _, ret false) in
           if (present : bool) then
             ret (Failure 400
                    ("Worktree for branch '" +:+ branchName +:+
                     "' already exists"))
           else
             let* branchExists := try_catch
               (let* _ := execAsync ("git rev-parse --verify " +:+ branchName)
                      (Some projectPath) false in
                ret true)
               (λ _, ret false) in
             let createCmd :=
               if (branchExists : bool) then
                 "git worktree add " +:+ Js.quoted worktreePath +:+ " " +:+
                 branchName
               else
                 "git worktree add -b " +:+ branchName +:+ " " +:+
                 Js.quoted worktreePath +:+ " " +:+
                 Js.or_else (baseBranch body) "HEAD" in
             let* _ := execAsync createCmd (Some projectPath) false in
             let mainAutomaker := path_join projectPath ".automaker" in
             let worktreeAutomaker := path_join worktreePath ".automaker" in
             let* _ := try_catch
                   (let* _ := call (FsAccess mainAutomaker) in
                    call (FsSymlink mainAutomaker worktreeAutomaker
                            (if win32 then "junction" else "dir")))
                   (λ _, ret "") in
             ret (Success (mkCreated worktreePath branchName
                             (negb branchExists)))
     | _, _ => ret (Failure 400 "projectPath and branchName required")
     end)
    (λ e, ret (Failure 500 (getErrorMessage e))).

(** What the details loop does to one entry, with the events it leaves:
    a rejected status query leaves the entry as it was; otherwise the
    change count is taken from the status and the divergence from the
    second query, or zero when that one is rejected. *)
Inductive detailsOf (wt : WorktreeInfo) : list Event → WorktreeInfo → Prop :=
| details_skipped e :
    detailsOf wt [(statusCall wt, Throw e)] wt
| details_added status revList :
    detailsOf wt
      [(statusCall wt, Ok status); (revListCall wt, revList)]
      (mkWorktreeInfo (path wt) (branch wt) (isMain wt)
         (Some (0 <? changedFiles status)%nat)
         (Some (changedFiles status))
         (Some match revList with
               | Ok out => parseAheadBehind out
               | Throw _ => mkAheadBehind 0 0
               end)).

End Handlers.

(** *** Well-formed listings *)

Definition isWorktreeLine (line : string) : bool :=
  Js.startsWith line "worktree ".

Definition isBranchLine (line : string) : bool :=
  negb (isWorktreeLine line) && Js.startsWith line "branch ".

(** A line of a record block: not blank, and when it is the worktree or
    the branch line, it names a path or a branch. *)
Definition recordLine (line : string) : bool :=
  Js.nonempty line && Js.noNewline line &&
  implb (isWorktreeLine line) (Js.nonempty (Js.slice 9 line)) &&
  implb (isBranchLine line)
    (Js.nonempty (Js.replace_first "refs/heads/" "" (Js.slice 7 line))).

(** A well-formed record block: record lines, among them a worktree line
    and a branch line. *)
Definition recordBlock (block : list string) : bool :=
  forallb recordLine block && existsb isWorktreeLine block &&
  existsb isBranchLine block.

(** The lines of a listing: every block is followed by a blank line. *)
Definition listingLines (blocks : list (list string)) : list string :=
  flat_map (λ block, block ++ [""]) blocks.

(** The text of a listing, its lines joined by newlines; [extra] counts
    the blank lines after the one that ends the last block. The lines of
    every block end in a newline when [extra] is 0, and the last block is
    followed by a blank line as well, as the tool prints it, when it
    is 1. *)
Definition listing (blocks : list (list string)) (extra : nat) : string :=
  String.concat (String Js.newline "")
    (listingLines blocks ++ replicate extra "").

(** The flags of a listing of [n] entries: the first is the main one. *)
Definition mainFlags (first : bool) (n : nat) : list bool :=
  match n with
  | O => []
  | S n' => first :: replicate n' false
  end.

(** An entry without details, as the parser leaves it. *)
Definition bare (wt : WorktreeInfo) : Prop :=
  hasChanges wt = None ∧ changedFilesCount wt = None ∧ aheadBehind wt = None.


(** *** Checkouts and their listing *)

(** A string that can stand for a path or a name on a line of its own. *)
Definition named (s : string) : bool := Js.nonempty s && Js.noNewline s.

(** A checkout as the listing reports it: directory, commit, branch. *)
Definition Checkout : Type := string * string * string.

Definition checkout (e : Checkout) : bool :=
  let '(p, sha, n) := e in named p && Js.noNewline sha && named n.

(** The record that [git worktree list --porcelain] prints for it. *)
Definition porcelainBlock (e : Checkout) : list string :=
  let '(p, sha, n) := e in
  ["worktree " +:+ p; "HEAD " +:+ sha; "branch refs/heads/" +:+ n].

(** The entries expected for checkouts, the first being the main one
    when [first] is set. *)
Fixpoint entriesOf (first : bool) (es : list Checkout) : list WorktreeInfo :=
  match es with
  | [] => []
  | (p, _, n) :: es' =>
      mkWorktreeInfo p n first None None None :: entriesOf false es'
  end.

(** What the parser gives an entry: everything but the details. *)
Definition identity (wt : WorktreeInfo) : string * string * bool :=
  (path wt, branch wt, isMain wt).

(** An entry with a path and a branch. *)
Definition complete (wt : WorktreeInfo) : Prop :=
  Js.nonempty (path wt) = true ∧ Js.nonempty (branch wt) = true.

(** What [git status --porcelain] prints for the given entries. *)
Definition statusOutput (entries : list string) : string :=
  String.concat "" ((λ l, l +:+ String Js.newline "") <$> entries).

(** *** The calls of the create handler *)

(** A call that adds a worktree. *)
Definition isAddCall (c : Call) : bool :=
  match c with
  | Exec command _ _ => Js.startsWith command "git worktree add "
  | _ => false
  end.

(** A call that links the metadata directory. *)
Definition isLinkCall (c : Call) : bool :=
  match c with
  | FsSymlink _ _ _ => true
  | _ => false
  end.

Section Calls.
Context {World : Type} {env : Env World}.

(** The directory of the worktree of a branch. *)
Definition worktreeDir (projectPath branchName : string) : string :=
  path_join (path_join projectPath ".worktrees") (sanitizedName branchName).

(** The branch lookup. *)
Definition verifyCall (projectPath branchName : string) : Call :=
  Exec ("git rev-parse --verify " +:+ branchName) (Some projectPath) false.

(** The call that runs [createCmd], given how the lookup ended. *)
Definition addCall (body : CreateBody) (projectPath branchName : string)
    (verify : Result string) : Call :=
  Exec (match verify with
        | Ok _ =>
            "git worktree add " +:+
            Js.quoted (worktreeDir projectPath branchName) +:+ " " +:+
            branchName
        | Throw _ =>
            "git worktree add -b " +:+ branchName +:+ " " +:+
            Js.quoted (worktreeDir projectPath branchName) +:+ " " +:+
            Js.or_else (baseBranch body) "HEAD"
        end) (Some projectPath) false.

(** The events of the link of the metadata directory: the link is only
    tried when the directory of the project can be accessed. *)
Inductive linkOf (projectPath branchName : string) : list Event → Prop :=
| link_absent e :
    linkOf projectPath branchName
      [(FsAccess (path_join projectPath ".automaker"), Throw e)]
| link_tried out r :
    linkOf projectPath branchName
      [(FsAccess (path_join projectPath ".automaker"), Ok out);
       (FsSymlink (path_join projectPath ".automaker")
          (path_join (worktreeDir projectPath branchName) ".automaker")
          (if win32 then "junction" else "dir"), r)].

End Calls.

End Worktree.

(** ** Regular expressions

    The two patterns of the fork detection are built from backtracking
    combinators in continuation-passing style: a matcher takes what to do
    with the rest of the input, and a quantifier tries its candidates in
    the order the regular-expression engine does (longest first when
    greedy, shortest first when lazy). *)

Module Re.

Section Combinators.
Context {R : Type}.

(** One character of a class. *)
Definition cls (p : ascii → bool) (k : string → option R) (s : string)
  : option R :=
  match s with
  | String c s' => if p c then k s' else None
  | EmptyString => None
  end.

(** A literal. *)
Definition lit (l : string) (k : string → option R) (s : string)
  : option R :=
  if String.prefix l s then k (Js.slice (String.length l) s) else None.

(** [[p]*], capturing. *)
Fixpoint star_greedy (p : ascii → bool) (k : string → string → option R)
    (s : string) : option R :=
  match s with
  | String c s' =>
      if p c then
        match star_greedy p (λ m, k (String c m)) s' with
        | Some r => Some r
        | None => k EmptyString s
        end
      else k EmptyString s
  | EmptyString => k EmptyString s
  end.

(** [[p]+], capturing. *)
Definition plus_greedy (p : ascii → bool)
    (k : string → string → option R) (s : string) : option R :=
  match s with
  | String c s' => if p c then star_greedy p (λ m, k (String c m)) s'
                   else None
  | EmptyString => None
  end.

(** [[p]*?], capturing. *)
Fixpoint star_lazy (p : ascii → bool) (k : string → string → option R)
    (s : string) : option R :=
  match k EmptyString s with
  | Some r => Some r
  | None =>
      match s with
      | String c s' =>
          if p c then star_lazy p (λ m, k (String c m)) s' else None
      | EmptyString => None
      end
  end.

(** [[p]+?], capturing. *)
Definition plus_lazy (p : ascii → bool)
    (k : string → string → option R) (s : string) : option R :=
  match s with
  | String c s' => if p c then star_lazy p (λ m, k (String c m)) s'
                   else None
  | EmptyString => None
  end.

(** [(?:m)?] *)
Definition opt (m : (string → option R) → string → option R)
    (k : string → option R) (s : string) : option R :=
  match m k s with
  | Some r => Some r
  | None => k s
  end.

(** An unanchored pattern: the leftmost position where it matches. *)
Fixpoint search (m : string → option R) (s : string) : option R :=
  match m s with
  | Some r => Some r
  | None =>
      match s with
      | String _ s' => search m s'
      | EmptyString => None
      end
  end.

End Combinators.

Definition colon : ascii := ascii_of_nat 58.
Definition slash : ascii := ascii_of_nat 47.

(** [.] : anything but a line terminator. *)
Definition dot (c : ascii) : bool :=
  negb ((Js.code c =? 10)%nat || (Js.code c =? 13)%nat).

(** [[:/]] *)
Definition colon_or_slash (c : ascii) : bool :=
  Ascii.eqb c colon || Ascii.eqb c slash.

(** [[^/]] *)
Definition not_slash (c : ascii) : bool := negb (Ascii.eqb c slash).

(** [[^/\s]] *)
Definition not_slash_space (c : ascii) : bool :=
  negb (Ascii.eqb c slash || Js.is_space c).

(** [(?:\.git)?\s+\(fetch\)], the common end of both patterns. *)
Definition fetchTail {R} (k : option R) : string → option R :=
  opt (lit ".git") (plus_greedy Js.is_space (λ _, lit "(fetch)" (λ _, k))).

(** [[:/]([^/]+)\/([^/\s]+?)(?:\.git)?\s+\(fetch\)], which both patterns
    end with; [k] is given the two groups. *)
Definition repoPath {R} (k : string → string → option R)
  : string → option R :=
  cls colon_or_slash (
  plus_greedy not_slash (λ owner,
  lit "/" (
  plus_lazy not_slash_space (λ repo,
  fetchTail (k owner repo))))).

(** [/^(\w+)\s+.*[:/]([^/]+)\/([^/\s]+?)(?:\.git)?\s+\(fetch\)/] with its
    three groups. *)
Definition remoteLine (line : string) : option (string * string * string) :=
  plus_greedy Js.is_word (λ remoteName,
  plus_greedy Js.is_space (λ _,
  star_greedy dot (λ _,
  repoPath (λ owner repo, Some (remoteName, owner, repo))))) line.

(** [/[:/]([^/]+\/[^/\s]+?)(?:\.git)?\s+\(fetch\)/] with its group, which
    spans the owner, the slash and the repository. *)
Definition repoOfLine (line : string) : option string :=
  search (repoPath (λ owner repo, Some (owner +:+ "/" +:+ repo))) line.

(** The class stops here: the string is over or goes on outside it. *)
Definition stops (p : ascii → bool) (s : string) : bool :=
  match s with
  | EmptyString => true
  | String c _ => negb (p c)
  end.

(** *** What a match needs

    Three tests that a string must pass for the patterns to match on it;
    they are what rules a line, or a position in a line, out. *)

(** Some white space is followed by [(fetch)]. *)
Fixpoint fetchMark (s : string) : bool :=
  match s with
  | EmptyString => false
  | String c s' =>
      (Js.is_space c && String.prefix "(fetch)" s') || fetchMark s'
  end.

(** What follows the first slash. *)
Fixpoint afterFirstSlash (s : string) : option string :=
  match s with
  | EmptyString => None
  | String c s' => if Ascii.eqb c slash then Some s' else afterFirstSlash s'
  end.

(** White space comes before any slash. *)
Fixpoint spaceBeforeSlash (s : string) : bool :=
  match s with
  | EmptyString => false
  | String c s' =>
      if Js.is_space c then true
      else if Ascii.eqb c slash then false
      else spaceBeforeSlash s'
  end.

(** [repoPath] can only match on a colon or slash, then something else
    than a slash, and after the next slash a segment that runs up to
    white space. *)
Definition repoPathPossible (s : string) : bool :=
  match s with
  | String c (String d s') =>
      colon_or_slash c && not_slash d &&
      match afterFirstSlash s' with
      | Some rest => spaceBeforeSlash rest
      | None => false
      end
  | _ => false
  end.

End Re.

(** ** Publication pipeline: the create-pr handler *)

Module CreatePR.
Import Host.

Record Body := mkBody {
  worktreePath : option string;
  commitMessage : option string;
  prTitle : option string;
  prBody : option string;
  baseBranch : option string;
  draft : option bool
}.

Record PublicationResult := mkResult {
  branch : string;
  committed : bool;
  commitHash : option string;
  pushed : bool;
  prUrl : option string;
  prCreated : bool;
  prError : option string
}.

(** *** Fork detection *)

(** [upstreamRepo] and [originOwner], both [null] at first. *)
Definition Fork : Type := option string * option string.

Definition falsyToNull (o : option string) : option string :=
  if Js.truthy o then o else None.

(** Body of the loop over the lines of [git remote -v]. *)
Definition scanRemote (acc : Fork) (line : string) : Fork :=
  match Re.remoteLine line with
  | Some (remoteName, owner, _) =>
      if String.eqb remoteName "upstream" then
        (falsyToNull (Re.repoOfLine line), acc.2)
      else if String.eqb remoteName "origin" then
        (acc.1, Some owner)
      else acc
  | None => acc
  end.

Definition detectFork (remotes : string) : Fork :=
  foldl scanRemote (None, None) (Js.split Js.newline remotes).

(** *** Configured remotes

    A remote of a hosting service: a name and a URL that ends with an
    owner, a slash, a repository and perhaps [.git], after a colon
    (scp-like) or a slash. *)

Record Remote := mkRemote {
  remoteName : string;
  urlBase : string;
  urlSep : ascii;
  owner : string;
  repo : string;
  dotGit : bool
}.

#[global] Instance Remote_eq_dec : EqDecision Remote.
Proof. solve_decision. Defined.

Definition url (r : Remote) : string :=
  urlBase r +:+
  String (urlSep r)
    (owner r +:+ "/" +:+ repo r +:+ (if dotGit r then ".git" else "")).

Definition fetchLine (r : Remote) : string :=
  remoteName r +:+ String Js.tab (url r +:+ " (fetch)").

Definition pushLine (r : Remote) : string :=
  remoteName r +:+ String Js.tab (url r +:+ " (push)").

(** What [git remote -v] prints: a fetch line and a push line per remote,
    each ended by a newline. *)
Fixpoint remotesOutput (config : list Remote) : string :=
  match config with
  | [] => ""
  | r :: config' =>
      fetchLine r +:+ String Js.newline
        (pushLine r +:+ String Js.newline (remotesOutput config'))
  end.

Fixpoint endsWith (s suffix : string) : bool :=
  String.eqb s suffix ||
  match s with
  | EmptyString => false
  | String _ s' => endsWith s' suffix
  end.

Definition urlChar (c : ascii) : bool := negb (Js.is_space c).

Definition nameChar (c : ascii) : bool :=
  negb (Js.is_space c) && negb (Re.colon_or_slash c).

(** The names and URLs the fork detection is meant for: no white space
    anywhere; owner and repository are single path segments; the
    repository is written without [.git]; the host part of an scp-like
    URL has no colon or slash of its own. *)
Definition wellFormed (r : Remote) : bool :=
  Js.nonempty (remoteName r) && Js.all nameChar (remoteName r) &&
  Js.all urlChar (urlBase r) &&
  Re.colon_or_slash (urlSep r) &&
  implb (Ascii.eqb (urlSep r) Re.colon) (Js.all nameChar (urlBase r)) &&
  Js.nonempty (owner r) && Js.all nameChar (owner r) &&
  Js.nonempty (repo r) && Js.all Re.not_slash_space (repo r) &&
  negb (endsWith (repo r) ".git").

(** A line that begins with the word [upstream] and white space. *)
Definition namesUpstream (line : string) : bool :=
  Js.startsWith line "upstream" &&
  match Js.slice 8 line with
  | String w _ => Js.is_space w
  | EmptyString => false
  end.

(** The end of a fetch line, from the separator on. *)
Definition pathTail (owner repo : string) (dotGit : bool) : string :=
  owner +:+ String Re.slash (repo +:+ (if dotGit then ".git" else "") +:+
                             " (fetch)").

(** What a configured remote means to the fork detection. *)
Definition applyRemote (acc : Fork) (r : Remote) : Fork :=
  if String.eqb (remoteName r) "upstream" then
    (Some (owner r +:+ "/" +:+ repo r), acc.2)
  else if String.eqb (remoteName r) "origin" then (acc.1, Some (owner r))
  else acc.

(** *** The command line of the review request *)

Definition prCommand (base : string) (fork : Fork) (branchName : string)
    (title body draftFlag : string) : string :=
  let prCmd := "gh pr create --base " +:+ Js.quoted base in
  let prCmd :=
    match fork with
    | (Some (String a u), Some (String b o)) =>
        prCmd +:+ " --repo " +:+ Js.quoted (String a u) +:+ " --head " +:+
        Js.quoted (String b o +:+ ":" +:+ branchName)
    | _ => prCmd +:+ " --head " +:+ Js.quoted branchName
    end in
  let prCmd :=
    prCmd +:+ " --title " +:+ Js.quoted (Js.escape_quotes title) +:+
    " --body " +:+ Js.quoted (Js.escape_quotes body) +:+ " " +:+ draftFlag in
  Js.trim prCmd.

(** The calls the handler makes, by name. *)
Definition plainPush (cwd : option string) (branchName : string) : Call :=
  Exec ("git push -u origin " +:+ branchName) cwd true.

Definition upstreamPush (cwd : option string) (branchName : string) : Call :=
  Exec ("git push --set-upstream origin " +:+ branchName) cwd true.

Definition ghProbe : Call := Exec "command -v gh" None true.

Definition listRemotes (cwd : option string) : Call :=
  Exec "git remote -v" cwd true.

Section Handler.
Context {World : Type} {env : Env World}.

(** The push with its retry: [null] when one of the two went through,
    else the text of the second error. *)
Definition pushBranch (cwd : option string) (branchName : string)
  : Async World (option string) :=
  try_catch
    (let* _ := call (plainPush cwd branchName) in ret None)
    (λ _,
     try_catch
       (let* _ := call (upstreamPush cwd branchName) in ret None)
       (λ error2, ret (Some (errorText error2 "Push failed")))).

(** The [try] around the hosting CLI: the pair of [prUrl] and
    [prError] it leaves behind. *)
Definition createPR (cwd : option string) (base branchName title body
    draftFlag : string) : Async World (option string * option string) :=
  try_catch
    (let* _ := call ghProbe in
     let* fork :=
       try_catch
         (let* remotes := call (listRemotes cwd) in
          ret (detectFork remotes))
         (λ _, ret (None, None)) in
     let prCmd := prCommand base fork branchName title body draftFlag in
     let* prOutput := execAsync prCmd cwd true in
     ret (Some (Js.trim prOutput), None))
    (λ ghError, ret (None, Some (errorText ghError "PR creation failed"))).

(** Branch name, uncommitted changes and, when there are some, the
    commit: what the handler does before it pushes. *)
Definition commitChanges (cwd : option string) (req : Body)
  : Async World (string * bool * option string) :=
  let* branchOutput :=
    execAsync "git rev-parse --abbrev-ref HEAD" cwd true in
  let branchName := Js.trim branchOutput in
  let* status := execAsync "git status --porcelain" cwd true in
  let hasChanges := Js.nonempty (Js.trim status) in
  let* commitHash :=
    (if hasChanges then
       let message :=
         Js.or_else (commitMessage req) ("Changes from " +:+ branchName) in
       let* _ := execAsync "git add -A" cwd true in
       let* _ := execAsync
                   ("git commit -m " +:+
                    Js.quoted (Js.escape_quotes message))
                   cwd true in
       let* hashOutput := execAsync "git rev-parse HEAD" cwd true in
       ret (Some (Js.take 8 (Js.trim hashOutput)))
     else ret None) in
  ret (branchName, hasChanges, commitHash).

Definition createCreatePRHandler (req : Body)
  : Async World (Response PublicationResult) :=
  try_catch
    (match worktreePath req with
     | Some (String c p) =>
         let cwd := Some (String c p) in
         let* '(branchName, hasChanges, commitHash) :=
           commitChanges cwd req in
         let* pushError := pushBranch cwd branchName in
         match pushError with
         | Some (String e1 e) =>
             ret (Failure 500
                    ("Failed to push branch: " +:+ String e1 e))
         | _ =>
             let base := Js.or_else (baseBranch req) "main" in
             let title := Js.or_else (prTitle req) branchName in
             let body :=
               Js.or_else (prBody req)
                 ("Changes from branch " +:+ branchName) in
             let draftFlag :=
               if default false (draft req) then "--draft" else "" in
             let* '(prUrl, prError) :=
               createPR cwd base branchName title body draftFlag in
             ret (Success
                    (mkResult branchName hasChanges commitHash true prUrl
                       (Js.truthy prUrl) (falsyToNull prError)))
         end
     | _ => ret (Failure 400 "worktreePath required")
     end)
    (λ e, ret (Failure 500 (getErrorMessage e))).

End Handler.

(** A call that runs the review-request command of the hosting CLI. *)
Definition isPRCall (c : Call) : bool :=
  match c with
  | Exec command _ _ => Js.startsWith command "gh pr create"
  | _ => false
  end.

(** A call that pushes the branch. *)
Definition isPushCall (c : Call) : bool :=
  match c with
  | Exec command _ _ => Js.startsWith command "git push "
  | _ => false
  end.

(** The fork the handler works with, given how [git remote -v] ended. *)
Definition forkOf (remotes : Result string) : Fork :=
  match remotes with
  | Ok out => detectFork out
  | Throw _ => (None, None)
  end.

(** A call of the commit step. *)
Definition isCommitStepCall (c : Call) : bool :=
  match c with
  | Exec command _ _ =>
      Js.startsWith command "git rev-parse " ||
      Js.startsWith command "git status " ||
      Js.startsWith command "git add " ||
      Js.startsWith command "git commit "
  | _ => false
  end.

(** An event of the commit step: neither a push nor a probe nor a
    review request. *)
Definition quiet (ev : Event) : Prop := isCommitStepCall ev.1 = true.

(** The log of a commit step that went through, with what it found:
    the branch, whether there were changes, and the hash of the commit
    it made for them. *)
Definition committedBy (cwd : option string) (req : Body) (b : string)
    (hc : bool) (h : option string) (evs : list Event) : Prop :=
  ∃ o1 o2 rest,
    evs = (Exec "git rev-parse --abbrev-ref HEAD" cwd true, Ok o1) ::
          (Exec "git status --porcelain" cwd true, Ok o2) :: rest ∧
    b = Js.trim o1 ∧ hc = Js.nonempty (Js.trim o2) ∧
    if hc then
      ∃ o3 o4 o5,
        rest = [(Exec "git add -A" cwd true, Ok o3);
                (Exec ("git commit -m " +:+
                       Js.quoted (Js.escape_quotes
                         (Js.or_else (commitMessage req)
                            ("Changes from " +:+ b)))) cwd true, Ok o4);
                (Exec "git rev-parse HEAD" cwd true, Ok o5)] ∧
        h = Some (Js.take 8 (Js.trim o5))
    else rest = [] ∧ h = None.

(** The log of a push step that went through: at once, or on the retry. *)
Definition pushedBy (cwd : option string) (b : string) (evs : list Event)
  : Prop :=
  (∃ out, evs = [(plainPush cwd b, Ok out)]) ∨
  (∃ e1 out, evs = [(plainPush cwd b, Throw e1);
                    (upstreamPush cwd b, Ok out)]).

(** The review-request call of a request, once branch and fork are known. *)
Definition prCall (cwd : option string) (req : Body) (b : string)
    (fork : Fork) : Call :=
  Exec (prCommand (Js.or_else (baseBranch req) "main") fork b
          (Js.or_else (prTitle req) b)
          (Js.or_else (prBody req) ("Changes from branch " +:+ b))
          (if default false (draft req) then "--draft" else ""))
       cwd true.


(** *** The steps of a publication *)

(** A line that begins with the word [origin] and white space. *)
Definition namesOrigin (line : string) : bool :=
  Js.startsWith line "origin" &&
  match Js.slice 6 line with
  | String w _ => Js.is_space w
  | EmptyString => false
  end.

(** A call that stages or commits. *)
Definition isStagingCall (c : Call) : bool :=
  match c with
  | Exec command _ _ =>
      Js.startsWith command "git add " || Js.startsWith command "git commit "
  | _ => false
  end.

(** The commit command of a request on a branch. *)
Definition commitCall (cwd : option string) (req : Body) (b : string) : Call :=
  Exec ("git commit -m " +:+
        Js.quoted (Js.escape_quotes
                     (Js.or_else (commitMessage req) ("Changes from " +:+ b))))
    cwd true.

(** Every way the commit step can go: its log and what it returns or
    throws.  The first rejected command ends it. *)
Inductive commitStep (cwd : option string) (req : Body)
  : list Event → Result (string * bool * option string) → Prop :=
| commit_no_branch e :
    commitStep cwd req
      [(Exec "git rev-parse --abbrev-ref HEAD" cwd true, Throw e)] (Throw e)
| commit_no_status o1 e :
    commitStep cwd req
      [(Exec "git rev-parse --abbrev-ref HEAD" cwd true, Ok o1);
       (Exec "git status --porcelain" cwd true, Throw e)] (Throw e)
| commit_clean o1 o2 :
    Js.nonempty (Js.trim o2) = false →
    commitStep cwd req
      [(Exec "git rev-parse --abbrev-ref HEAD" cwd true, Ok o1);
       (Exec "git status --porcelain" cwd true, Ok o2)]
      (Ok (Js.trim o1, false, None))
| commit_add_rejected o1 o2 e :
    Js.nonempty (Js.trim o2) = true →
    commitStep cwd req
      [(Exec "git rev-parse --abbrev-ref HEAD" cwd true, Ok o1);
       (Exec "git status --porcelain" cwd true, Ok o2);
       (Exec "git add -A" cwd true, Throw e)] (Throw e)
| commit_rejected o1 o2 o3 e :
    Js.nonempty (Js.trim o2) = true →
    commitStep cwd req
      [(Exec "git rev-parse --abbrev-ref HEAD" cwd true, Ok o1);
       (Exec "git status --porcelain" cwd true, Ok o2);
       (Exec "git add -A" cwd true, Ok o3);
       (commitCall cwd req (Js.trim o1), Throw e)] (Throw e)
| commit_no_hash o1 o2 o3 o4 e :
    Js.nonempty (Js.trim o2) = true →
    commitStep cwd req
      [(Exec "git rev-parse --abbrev-ref HEAD" cwd true, Ok o1);
       (Exec "git status --porcelain" cwd true, Ok o2);
       (Exec "git add -A" cwd true, Ok o3);
       (commitCall cwd req (Js.trim o1), Ok o4);
       (Exec "git rev-parse HEAD" cwd true, Throw e)] (Throw e)
| commit_made o1 o2 o3 o4 o5 :
    Js.nonempty (Js.trim o2) = true →
    commitStep cwd req
      [(Exec "git rev-parse --abbrev-ref HEAD" cwd true, Ok o1);
       (Exec "git status --porcelain" cwd true, Ok o2);
       (Exec "git add -A" cwd true, Ok o3);
       (commitCall cwd req (Js.trim o1), Ok o4);
       (Exec "git rev-parse HEAD" cwd true, Ok o5)]
      (Ok (Js.trim o1, true, Some (Js.take 8 (Js.trim o5)))).

(** A call made in the directory [cwd] with the extended path. *)
Definition ranIn (cwd : option string) (c : Call) : Prop :=
  ∃ command, c = Exec command cwd true.

(** What follows a commit step that went through: pushes, the probe,
    the remotes and the review request, none of them a call of the
    commit step, all but the probe made in the worktree. *)
Definition afterCommit (cwd : option string) (ev : Event) : Prop :=
  isCommitStepCall ev.1 = false ∧ (ev.1 = ghProbe ∨ ranIn cwd ev.1).

End CreatePR.

(** ** The status route of the hosting CLI *)

Module GhStatus.
Import Host.

(** [{ success: true, installed, version }] *)
Record Status := mkStatus {
  success : bool;
  installed : bool;
  version : option string
}.

(** [[^\s]] *)
Definition not_space (c : ascii) : bool := negb (Js.is_space c).

(** [stdout.match(/gh version ([^\s]+)/)], with its group. *)
Definition versionMatch (stdout : string) : option string :=
  Re.search (Re.lit "gh version " (Re.plus_greedy not_space (λ v _, Some v)))
    stdout.

Definition versionCall : Call := Exec "gh --version" None true.

Section Handler.
Context {World : Type} {env : Env World}.

Definition createGhStatusHandler : Async World Status :=
  try_catch
    (let* stdout := call versionCall in
     ret (mkStatus true true (versionMatch stdout)))
    (λ _, ret (mkStatus true false None)).

End Handler.
End GhStatus.

(** ** The dialog that asks for a pull request *)

Module PRDialog.
Import Host CreatePR.

(** A toast by kind, with its title and description; the action button
    and the duration some of them carry are left out. *)
Inductive Toast :=
| ToastSuccess (title description : string)
| ToastError (title description : string)
| ToastInfo (title description : string).

(** What [handleCreate] leaves behind once the call has returned: the
    [error] and [prUrl] of the dialog's state, the toasts shown, and
    whether [onCreated] and [onOpenChange(false)] were called. *)
Record Outcome := mkOutcome {
  error : option string;
  shownUrl : option string;
  toasts : list Toast;
  notified : bool;
  closed : bool
}.

(** The friendlier text for the common errors of the hosting CLI. *)
Definition errorMessage (prError : string) : string :=
  if Js.includes prError "No commits between" then
    "No new commits to create PR. Make sure your branch has changes compared to the base branch."
  else if Js.includes prError "already exists" then
    "A pull request already exists for this branch."
  else if Js.includes prError "not logged in" || Js.includes prError "auth"
  then "GitHub CLI not authenticated. Run 'gh auth login' in terminal."
  else prError.

(** A template literal prints [null] for a missing hash. *)
Definition shown (o : option string) : string :=
  match o with
  | Some s => s
  | None => "null"
  end.

(** The part of [handleCreate] that deals with the answer [result] of
    the call, taken to be the body the route sent: a [Success] is
    [{success: true, result}], a [Failure] is [{success: false, error}]. *)
Definition handleCreate (result : Response PublicationResult) : Outcome :=
  match result with
  | Success res =>
      if prCreated res && Js.truthy (prUrl res) then
        mkOutcome None (prUrl res)
          [ToastSuccess "Pull request created!"
             ("PR created from " +:+ branch res)]
          true false
      else
        mkOutcome None None
          (ToastSuccess "Branch pushed"
             (if committed res then
                "Commit " +:+ shown (commitHash res) +:+ " pushed to " +:+
                branch res
              else "Branch " +:+ branch res +:+ " pushed") ::
           (if negb (prCreated res) then
              match prError res with
              | Some (String c e) =>
                  [ToastError "PR creation failed"
                     (errorMessage (String c e))]
              | _ =>
                  [ToastInfo "PR not created"
                     "GitHub CLI (gh) may not be installed or authenticated"]
              end
            else []))
          true true
  | Failure _ err =>
      mkOutcome (Some (Js.or_else (Some err) "Failed to create pull request"))
        None [] false false
  end.

Definition isInfo (t : Toast) : bool :=
  match t with
  | ToastInfo _ _ => true
  | _ => false
  end.

End PRDialog.

(** ** The worktree selector of the board *)

Module Selector.
Import Worktree.

(** What [handleSelectWorktree] passes to [setCurrentWorktree]: [null]
    for the main copy, the path for any other. *)
Definition handleSelectWorktree (worktree : WorktreeInfo) : option string :=
  if isMain worktree then None else Some (path worktree).

(** [selectedWorktree], given the current selection. *)
Definition selectedWorktree (worktrees : list WorktreeInfo)
    (currentWorktree : option string) : option WorktreeInfo :=
  match
    find (λ w, if Js.truthy currentWorktree
               then bool_decide (Some (path w) = currentWorktree)
               else isMain w) worktrees
  with
  | Some w => Some w
  | None => find isMain worktrees
  end.

End Selector.

(** ** Scenarios: concrete requests and scripted hosts *)

Module Scenarios.
Import Host.

Definition nl : string := String Js.newline "".
Definition tab : string := String Js.tab "".

Definition rejected (stderr message : string) : Result string :=
  Throw (mkError (Some stderr) (Some message)).

Definition request : CreatePR.Body :=
  CreatePR.mkBody (Some "/repo/.worktrees/feat") None None None None None.

(** Nothing to commit; the push and its retry are both rejected. *)
Definition pushRejected : list (Result string) :=
  [Ok ("feat" +:+ nl); Ok "";
   rejected "fatal: 'origin' does not appear to be a git repository"
            "Command failed: git push -u origin feat";
   rejected "remote: Permission denied"
            "Command failed: git push --set-upstream origin feat"].

(** Nothing to commit; the push resolves; there is no [gh] on the path. *)
Definition ghAbsent : list (Result string) :=
  [Ok ("feat" +:+ nl); Ok ""; Ok "";
   rejected "" "Command failed: command -v gh"].

(** A fork: [origin] is alice's, [upstream] is the organisation's. *)
Definition forkConfig : list CreatePR.Remote :=
  [CreatePR.mkRemote "origin" "https://github.com" "/" "alice" "repo" true;
   CreatePR.mkRemote "upstream" "git@github.com" ":" "org" "repo" true].

Definition forkRemotes : string := CreatePR.remotesOutput forkConfig.

(** One file changed; commit, push and review request all resolve. *)
Definition published : list (Result string) :=
  [Ok ("feat" +:+ nl); Ok (" M a.txt" +:+ nl); Ok ""; Ok "";
   Ok ("0123456789abcdef" +:+ nl); Ok ""; Ok ("/usr/bin/gh" +:+ nl);
   Ok forkRemotes; Ok ("https://github.com/org/repo/pull/7" +:+ nl)].

(** The same fork, the URL of [upstream] written with a slash at its
    end, as [git remote add upstream https://github.com/org/repo/] leaves
    it. *)
Definition slashLine : string :=
  "upstream" +:+ tab +:+ "https://github.com/org/repo/ (fetch)".

Definition slashRemotes : string :=
  "origin" +:+ tab +:+ "https://github.com/alice/repo.git (fetch)" +:+ nl +:+
  "origin" +:+ tab +:+ "https://github.com/alice/repo.git (push)" +:+ nl +:+
  slashLine +:+ nl +:+
  "upstream" +:+ tab +:+ "https://github.com/org/repo/ (push)" +:+ nl.

Definition publishedSlash : list (Result string) :=
  [Ok ("feat" +:+ nl); Ok (" M a.txt" +:+ nl); Ok ""; Ok "";
   Ok ("0123456789abcdef" +:+ nl); Ok ""; Ok ("/usr/bin/gh" +:+ nl);
   Ok slashRemotes; Ok ("https://github.com/alice/repo/pull/7" +:+ nl)].

(** One file changed; commit and push resolve; the review request is
    rejected. *)
Definition prRejected : list (Result string) :=
  [Ok ("feat" +:+ nl); Ok (" M a.txt" +:+ nl); Ok ""; Ok "";
   Ok ("0123456789abcdef" +:+ nl); Ok ""; Ok ("/usr/bin/gh" +:+ nl);
   Ok forkRemotes;
   rejected "pull request create failed: No commits between main and feat"
            "Command failed: gh pr create"].

(** The listing of a repository with its main copy and one worktree. *)
Definition twoBlocks : list (list string) :=
  [["worktree /repo"; "HEAD 1111111"; "branch refs/heads/main"];
   ["worktree /repo/.worktrees/feat"; "HEAD 2222222";
    "branch refs/heads/feat"]].

Definition listRequest (details : bool) : Worktree.ListBody :=
  Worktree.mkListBody (Some "/repo") (Some details).

(** The listing resolves; no details are asked for. *)
Definition listed : list (Result string) :=
  [Ok (Worktree.listing twoBlocks 1)].

(** The listing resolves; the status query of the main copy is rejected;
    for the worktree the status resolves with one changed file and the
    divergence query is rejected. *)
Definition detailsRejected : list (Result string) :=
  [Ok (Worktree.listing twoBlocks 1);
   rejected "fatal: not a git repository" "Command failed: git status";
   Ok (" M a.txt" +:+ nl);
   rejected "fatal: ambiguous argument 'origin/feat...HEAD'"
            "Command failed: git rev-list"].

Definition createRequest : Worktree.CreateBody :=
  Worktree.mkCreateBody (Some "/repo") (Some "feature/login v2") None.

(** The directory is created, nothing is in the way, the branch does not
    exist yet, the worktree is added, and there is no metadata directory
    to link. *)
Definition created : list (Result string) :=
  [Ok ""; rejected "" "ENOENT: no such file or directory";
   rejected "fatal: Needed a single revision" "Command failed: git rev-parse";
   Ok "Preparing worktree"; rejected "" "ENOENT: no such file or directory"].


(** *** More hosts and scripts *)

(** Decimal digits read as a number; [None] stands for [NaN]. *)
Fixpoint decimalFrom (acc : Z) (s : string) : option Z :=
  match s with
  | EmptyString => Some acc
  | String c s' =>
      if Js.is_digit c
      then decimalFrom (10 * acc + Z.of_nat (Js.code c - 48)) s'
      else None
  end.

Definition decimal (s : string) : option Z :=
  match s with
  | EmptyString => None
  | _ => decimalFrom 0 s
  end.

(** A scripted host that is inside a repository or not, and reads
    numbers. *)
Definition host (repo : bool) : Env (list (Result string)) := {|
  perform := perform (Env := scripted);
  isGitRepo _ w := (Ok repo, w);
  getErrorMessage := getErrorMessage (Env := scripted);
  path_join := path_join (Env := scripted);
  win32 := false;
  Number := decimal
|}.

(** Three features: one without worktree, two on worktrees. *)
Definition board : list Board.Feature :=
  [Board.mkFeature "f-1" "Login form" (Some "UI") "verified" (Some 2%Z) None;
   Board.mkFeature "f-2" "Export data" (Some "API") "backlog" None
     (Some "/repo/.worktrees/feat");
   Board.mkFeature "f-3" "Audit log" None "verified" (Some 1%Z) None].

(** The checkouts of [twoBlocks]. *)
Definition checkouts : list Worktree.Checkout :=
  [("/repo", "1111111", "main");
   ("/repo/.worktrees/feat", "2222222", "feat")].

(** A listing whose main copy is on a detached commit. *)
Definition detachedMain : list (list string) :=
  [["worktree /repo"; "HEAD 1111111"; "detached"];
   ["worktree /repo/.worktrees/feat"; "HEAD 2222222";
    "branch refs/heads/feat"]].

(** The listing command is rejected. *)
Definition listRejected : list (Result string) :=
  [rejected "fatal: not a git repository" "Command failed: git worktree list"].

(** The entry of the worktree of [twoBlocks]. *)
Definition featEntry : Worktree.WorktreeInfo :=
  Worktree.mkWorktreeInfo "/repo/.worktrees/feat" "feat" false None None None.

(** Two changed files; the branch is two behind and three ahead. *)
Definition detailed : list (Result string) :=
  [Ok (Worktree.statusOutput [" M a.txt"; "?? b.txt"]);
   Ok ("2" +:+ tab +:+ "3" +:+ nl)].

(** The directory of the branch is already there. *)
Definition occupied : list (Result string) := [Ok ""; Ok ""].

(** Nothing is in the way and the branch does not exist, but adding the
    worktree is rejected. *)
Definition addRejected : list (Result string) :=
  [Ok ""; rejected "" "ENOENT: no such file or directory";
   rejected "fatal: Needed a single revision" "Command failed: git rev-parse";
   rejected "fatal: invalid reference: base" "Command failed: git worktree add"].

(** The branch is read, the status query is rejected. *)
Definition statusRejected : list (Result string) :=
  [Ok ("feat" +:+ nl);
   rejected "fatal: not a git repository" "Command failed: git status"].

(** Nothing to commit; the push resolves; listing the remotes is
    rejected; the review request resolves. *)
Definition remotesRejected : list (Result string) :=
  [Ok ("feat" +:+ nl); Ok ""; Ok ""; Ok ("/usr/bin/gh" +:+ nl);
   rejected "fatal: not a git repository" "Command failed: git remote -v";
   Ok ("https://github.com/alice/repo/pull/3" +:+ nl)].

(** Nothing to commit; the plain push is rejected and the retry
    resolves; no remotes; the review request resolves. *)
Definition retried : list (Result string) :=
  [Ok ("feat" +:+ nl); Ok "";
   rejected "fatal: The current branch feat has no upstream branch"
            "Command failed: git push -u origin feat";
   Ok ""; Ok ("/usr/bin/gh" +:+ nl); Ok "";
   Ok ("https://github.com/alice/repo/pull/4" +:+ nl)].

End Scenarios.

(** Finds an element in a list that is written out. *)
Ltac here :=
  repeat first [apply list_elem_of_here | apply list_elem_of_further].

(** ** Facts about the string primitives *)

Module JsFacts.
Import Js.

Lemma app_nil_r (s : string) : s +:+ "" = s.
Proof. induction s as [|c s IH]; simpl; [done|by rewrite IH]. Qed.

Lemma app_assoc (a b c : string) : a +:+ (b +:+ c) = (a +:+ b) +:+ c.
Proof. induction a as [|x a IH]; simpl; [done|by rewrite IH]. Qed.

Lemma app_length (a b : string) :
  String.length (a +:+ b) = (String.length a + String.length b)%nat.
Proof. induction a as [|x a IH]; simpl; [done|by rewrite IH]. Qed.

Lemma prefix_app (p s : string) : String.prefix p (p +:+ s) = true.
Proof.
  induction p as [|c p IH]; simpl; [by destruct s|].
  destruct (ascii_dec c c); [done|congruence].
Qed.

Lemma prefix_inv (p s : string) :
  String.prefix p s = true → ∃ r, s = p +:+ r.
Proof.
  revert s. induction p as [|c p IH]; intros s Hp; simpl in *.
  - by exists s.
  - destruct s as [|d s]; [done|]. simpl in Hp.
    destruct (ascii_dec c d) as [->|]; [|done].
    destruct (IH _ Hp) as [r ->]. by exists r.
Qed.

Lemma slice_app (p s : string) : slice (String.length p) (p +:+ s) = s.
Proof. induction p as [|c p IH]; simpl; [done|apply IH]. Qed.

(** [trimEnd] drops the spaces at the end and nothing else. *)
Lemma trimEnd_app (p s : string) :
  trimEnd (p +:+ s) =
  if nonempty (trimEnd s) then p +:+ trimEnd s else trimEnd p.
Proof.
  induction p as [|c p IH]; simpl.
  - by destruct (trimEnd s).
  - rewrite IH. destruct (trimEnd s) as [|d t]; simpl; [done|].
    by destruct (p +:+ String d t) eqn:E; [destruct p; discriminate|].
Qed.

Lemma trimEnd_snoc_nonspace (p : string) (c : ascii) :
  is_space c = false → trimEnd (p +:+ String c "") = p +:+ String c "".
Proof.
  intros Hc. rewrite trimEnd_app. simpl. by rewrite Hc.
Qed.

Lemma split_line (l s : string) :
  noNewline l = true →
  split newline (l +:+ String newline s) =
  l :: split newline s.
Proof.
  induction l as [|c l IH]; intros Hl; simpl in *.
  - done.
  - apply andb_true_iff in Hl as [Hc Hl]. apply negb_true_iff in Hc.
    rewrite Hc. by rewrite IH.
Qed.

Lemma split_last_line (l : string) :
  noNewline l = true → split newline l = [l].
Proof.
  induction l as [|c l IH]; intros Hl; simpl in *; [done|].
  apply andb_true_iff in Hl as [Hc Hl]. apply negb_true_iff in Hc.
  rewrite Hc. by rewrite IH.
Qed.

Lemma split_concat (ls : list string) :
  ls ≠ [] → Forall (λ l, noNewline l = true) ls →
  split newline (String.concat (String newline "") ls) = ls.
Proof.
  induction ls as [|l ls IH]; intros Hne Hls; [done|].
  apply Forall_cons in Hls as [Hl Hls].
  destruct ls as [|l' ls]; simpl.
  - by apply split_last_line.
  - change (l +:+ String newline ?x) with (l +:+ String newline x).
    rewrite split_line by done. f_equal. by apply IH.
Qed.

(** A string that begins and ends with something else than a space
    loses to [trim] only the spaces of what is appended to it. *)
Lemma trim_app_tail (c d : ascii) (m tail : string) :
  is_space c = false → is_space d = false →
  trim (String c (m +:+ String d "") +:+ tail) =
  if nonempty (trimEnd tail)
  then String c (m +:+ String d "") +:+ trimEnd tail
  else String c (m +:+ String d "").
Proof.
  intros Hc Hd. unfold trim. simpl. rewrite Hc.
  change (String c ((m +:+ String d "") +:+ tail))
    with (String c (m +:+ String d "") +:+ tail).
  rewrite trimEnd_app.
  destruct (nonempty (trimEnd tail)); [done|].
  change (String c (m +:+ String d ""))
    with (String c m +:+ String d "").
  by apply trimEnd_snoc_nonspace.
Qed.

End JsFacts.

(** Brings nested appends to one shape. *)
Ltac normalize_app :=
  repeat (progress (rewrite <- ?JsFacts.app_assoc; simpl)).

(** ** Facts about the regular expressions *)

Module ReFacts.
Import Re.

Lemma all_app p (a b : string) :
  Js.all p (a +:+ b) = Js.all p a && Js.all p b.
Proof.
  induction a as [|c a IH]; simpl; [done|].
  by rewrite IH, andb_assoc.
Qed.

Lemma all_impl (p q : ascii → bool) (s : string) :
  (∀ c, p c = true → q c = true) → Js.all p s = true → Js.all q s = true.
Proof.
  intros Hpq. induction s as [|c s IH]; simpl; [done|].
  rewrite !andb_true_iff. intros [Hc Hs]. split; [by apply Hpq|by apply IH].
Qed.

Section Combinators.
Context {R : Type}.
Implicit Types (p : ascii → bool) (v : R).

Lemma lit_app l (k : string → option R) s : lit l k (l +:+ s) = k s.
Proof.
  unfold lit. by rewrite JsFacts.prefix_app, JsFacts.slice_app.
Qed.

Lemma lit_Some l (k : string → option R) s v :
  lit l k s = Some v → ∃ s', s = l +:+ s' ∧ k s' = Some v.
Proof.
  unfold lit. destruct (String.prefix l s) eqn:Hp; [|done].
  apply JsFacts.prefix_inv in Hp as [s' ->].
  rewrite JsFacts.slice_app. by exists s'.
Qed.

(** Whatever a quantifier returns comes from one of its candidates. *)
Lemma star_greedy_sound p s : ∀ (k : string → string → option R) v,
  star_greedy p k s = Some v →
  ∃ m rest, s = m +:+ rest ∧ Js.all p m = true ∧ k m rest = Some v.
Proof.
  induction s as [|c s IH]; intros k v Hs; simpl in Hs.
  - by exists "", "".
  - destruct (p c) eqn:Hc; [|by exists "", (String c s)].
    destruct (star_greedy p (λ m, k (String c m)) s) as [v'|] eqn:Hg.
    + injection Hs as ->. apply IH in Hg as (m & rest & -> & Hm & Hk).
      exists (String c m), rest. simpl. by rewrite Hc.
    + by exists "", (String c s).
Qed.

Lemma plus_greedy_sound p s (k : string → string → option R) v :
  plus_greedy p k s = Some v →
  ∃ c m rest, s = String c m +:+ rest ∧ p c = true ∧ Js.all p m = true ∧
    k (String c m) rest = Some v.
Proof.
  destruct s as [|c s]; [done|]. simpl.
  destruct (p c) eqn:Hc; [|done].
  intros (m & rest & -> & Hm & Hk)%star_greedy_sound. by exists c, m, rest.
Qed.

Lemma star_lazy_sound p s : ∀ (k : string → string → option R) v,
  star_lazy p k s = Some v →
  ∃ m rest, s = m +:+ rest ∧ Js.all p m = true ∧ k m rest = Some v.
Proof.
  induction s as [|c s IH]; intros k v Hs; simpl in Hs.
  - destruct (k "" "") eqn:Hk; [|done]. injection Hs as ->. by exists "", "".
  - destruct (k "" (String c s)) eqn:Hk.
    { injection Hs as ->. by exists "", (String c s). }
    destruct (p c) eqn:Hc; [|done].
    apply IH in Hs as (m & rest & -> & Hm & Hk').
    exists (String c m), rest. simpl. by rewrite Hc.
Qed.

Lemma plus_lazy_sound p s (k : string → string → option R) v :
  plus_lazy p k s = Some v →
  ∃ c m rest, s = String c m +:+ rest ∧ p c = true ∧ Js.all p m = true ∧
    k (String c m) rest = Some v.
Proof.
  destruct s as [|c s]; [done|]. simpl.
  destruct (p c) eqn:Hc; [|done].
  intros (m & rest & -> & Hm & Hk)%star_lazy_sound. by exists c, m, rest.
Qed.

(** A greedy quantifier returns what its longest good candidate gives. *)
Lemma star_greedy_last p m : ∀ (k : string → string → option R) rest v,
  Js.all p m = true →
  k m rest = Some v →
  (∀ m' rest', rest = m' +:+ rest' → m' ≠ "" → Js.all p m' = true →
     k (m +:+ m') rest' = None) →
  star_greedy p k (m +:+ rest) = Some v.
Proof.
  induction m as [|c m IH]; intros k rest v Hm Hk Hlater.
  - simpl in *. clear Hm.
    revert k v Hk Hlater. induction rest as [|c rest IHr]; intros k v Hk Hlater.
    + done.
    + simpl. destruct (p c) eqn:Hc; [|done].
      destruct (star_greedy p (λ m, k (String c m)) rest) as [v'|] eqn:Hg;
        [|done].
      exfalso. apply star_greedy_sound in Hg as (m' & rest' & -> & Hm' & Hk').
      rewrite (Hlater (String c m') rest') in Hk'; [done|done|done|].
      simpl. by rewrite Hc.
  - simpl in Hm. apply andb_true_iff in Hm as [Hc Hm].
    simpl. rewrite Hc.
    rewrite (IH (λ m, k (String c m)) rest v); [done|done|done|].
    intros m' rest' -> Hne Hm'. by apply (Hlater m' rest').
Qed.

Lemma star_greedy_max p m (k : string → string → option R) rest v :
  Js.all p m = true → stops p rest = true →
  k m rest = Some v →
  star_greedy p k (m +:+ rest) = Some v.
Proof.
  intros Hm Hstop Hk. apply star_greedy_last; [done..|].
  intros [|c m'] rest' -> Hne Hm'; [done|].
  simpl in *. apply andb_true_iff in Hm' as [Hc _]. by rewrite Hc in Hstop.
Qed.

Lemma plus_greedy_max p c m (k : string → string → option R) rest v :
  p c = true → Js.all p m = true → stops p rest = true →
  k (String c m) rest = Some v →
  plus_greedy p k (String c m +:+ rest) = Some v.
Proof.
  intros Hc Hm Hstop Hk. simpl. rewrite Hc.
  by apply (star_greedy_max p m (λ m, k (String c m))).
Qed.

(** A lazy quantifier returns what its shortest good candidate gives. *)
Lemma star_lazy_first p m : ∀ (k : string → string → option R) rest v,
  Js.all p m = true →
  k m rest = Some v →
  (∀ m1 m2, m = m1 +:+ m2 → m2 ≠ "" → k m1 (m2 +:+ rest) = None) →
  star_lazy p k (m +:+ rest) = Some v.
Proof.
  induction m as [|c m IH]; intros k rest v Hm Hk Hshorter.
  - simpl. destruct rest; simpl; by rewrite Hk.
  - simpl in Hm. apply andb_true_iff in Hm as [Hc Hm]. simpl.
    pose proof (Hshorter "" (String c m) eq_refl) as Hnow. simpl in Hnow.
    rewrite Hnow by done. rewrite Hc.
    apply IH; [done..|].
    intros m1 m2 -> Hne. by apply (Hshorter (String c m1) m2).
Qed.

Lemma plus_lazy_first p c m (k : string → string → option R) rest v :
  p c = true → Js.all p m = true →
  k (String c m) rest = Some v →
  (∀ m1 m2, m = m1 +:+ m2 → m2 ≠ "" → k (String c m1) (m2 +:+ rest) = None) →
  plus_lazy p k (String c m +:+ rest) = Some v.
Proof.
  intros Hc Hm Hk Hshorter. simpl. rewrite Hc.
  by apply (star_lazy_first p m (λ m, k (String c m))).
Qed.

(** An unanchored pattern returns what its leftmost match gives. *)
Lemma search_first (M : string → option R) pre : ∀ post v,
  M post = Some v →
  (∀ u1 u2, pre = u1 +:+ u2 → u2 ≠ "" → M (u2 +:+ post) = None) →
  search M (pre +:+ post) = Some v.
Proof.
  induction pre as [|c pre IH]; intros post v HM Hearlier.
  - simpl. destruct post; simpl; by rewrite HM.
  - simpl.
    pose proof (Hearlier "" (String c pre) eq_refl) as Hnow. simpl in Hnow.
    rewrite Hnow by done.
    apply IH; [done|]. intros u1 u2 -> Hne.
    by apply (Hearlier (String c u1) u2).
Qed.

End Combinators.

(** *** The end of both patterns *)

Lemma first_space_unique (a b : string) w w' x y :
  Js.all CreatePR.urlChar a = true → Js.all CreatePR.urlChar b = true →
  Js.is_space w = true → Js.is_space w' = true →
  a +:+ String w x = b +:+ String w' y → a = b ∧ x = y.
Proof.
  unfold CreatePR.urlChar.
  revert b. induction a as [|c a IH]; intros [|d b] Ha Hb Hw Hw' Heq;
    simpl in *.
  - by injection Heq as _ ->.
  - injection Heq as -> _. rewrite Hw in Hb. done.
  - injection Heq as -> _. rewrite Hw' in Ha. done.
  - injection Heq as -> Heq.
    apply andb_true_iff in Ha as [_ Ha]. apply andb_true_iff in Hb as [_ Hb].
    destruct (IH b Ha Hb Hw Hw' Heq) as [-> ->]. done.
Qed.

Lemma mark_app_r (a s : string) :
  fetchMark s = true → fetchMark (a +:+ s) = true.
Proof.
  intros Hs. induction a as [|c a IH]; simpl; [done|].
  by rewrite IH, orb_true_r.
Qed.

Lemma mark_nospace (a s : string) :
  Js.all CreatePR.urlChar a = true → fetchMark (a +:+ s) = fetchMark s.
Proof.
  unfold CreatePR.urlChar. induction a as [|c a IH]; simpl; [done|].
  intros [Hc Ha]%andb_true_iff. apply negb_true_iff in Hc.
  rewrite Hc. simpl. by apply IH.
Qed.

Lemma mark_spaces (m r : string) :
  m ≠ "" → Js.all Js.is_space m = true →
  fetchMark (m +:+ "(fetch)" +:+ r) = true.
Proof.
  induction m as [|c m IH]; intros Hne Hm; [done|].
  simpl in Hm. apply andb_true_iff in Hm as [Hc Hm].
  destruct m as [|d m].
  - simpl. rewrite Hc. simpl. by destruct r.
  - change (fetchMark (String c (String d m +:+ "(fetch)" +:+ r)) = true).
    cbn [fetchMark]. rewrite IH by done. by rewrite orb_true_r.
Qed.

Section Tail.
Context {R : Type}.

(** The white space and [(fetch)] behind a match of the tail. *)
Lemma spaces_fetch_sound (k : option R) t v :
  plus_greedy Js.is_space (λ _, lit "(fetch)" (λ _, k)) t = Some v →
  k = Some v ∧ fetchMark t = true ∧
  ∃ w t', t = String w t' ∧ Js.is_space w = true.
Proof.
  intros (c & m & rest & -> & Hc & Hm & Hk)%plus_greedy_sound.
  apply lit_Some in Hk as (r & -> & Hk). split; [done|]. split.
  - apply (mark_spaces (String c m)); [done|]. simpl. by rewrite Hc.
  - by eexists _, _.
Qed.

Lemma fetchTail_sound (k : option R) t v :
  fetchTail k t = Some v →
  k = Some v ∧ fetchMark t = true ∧
  ∃ g w t', t = g +:+ String w t' ∧ (g = "" ∨ g = ".git") ∧
    Js.is_space w = true.
Proof.
  unfold fetchTail, opt.
  destruct (lit ".git" _ t) as [v'|] eqn:Hgit.
  - intros [= ->]. apply lit_Some in Hgit as (t' & -> & Hk).
    apply spaces_fetch_sound in Hk as (Hk & Hmark & w & t'' & -> & Hw).
    split; [done|]. split; [by apply (mark_app_r ".git")|].
    exists ".git", w, t''. auto.
  - intros Hk.
    apply spaces_fetch_sound in Hk as (Hk & Hmark & w & t'' & -> & Hw).
    split; [done|]. split; [done|]. exists "", w, t''. auto.
Qed.

Lemma fetchTail_eval (k : option R) (dotGit : bool) v :
  k = Some v →
  fetchTail k ((if dotGit then ".git" else "") +:+ " (fetch)") = Some v.
Proof. intros ->. by destruct dotGit. Qed.

End Tail.

(** *** The path part of both patterns *)

Lemma afterFirstSlash_app (o rest : string) :
  Js.all not_slash o = true →
  afterFirstSlash (o +:+ String slash rest) = Some rest.
Proof.
  induction o as [|c o IH]; simpl; [done|].
  intros [Hc Ho]%andb_true_iff. unfold not_slash in Hc.
  apply negb_true_iff in Hc. rewrite Hc. by apply IH.
Qed.

Lemma afterFirstSlash_none (s : string) :
  Js.all not_slash s = true → afterFirstSlash s = None.
Proof.
  induction s as [|c s IH]; simpl; [done|].
  intros [Hc Hs]%andb_true_iff. unfold not_slash in Hc.
  apply negb_true_iff in Hc. rewrite Hc. by apply IH.
Qed.

(** After the first slash of a URL without white space comes more of it. *)
Lemma afterFirstSlash_url (x z : string) :
  Js.all CreatePR.urlChar x = true →
  ∃ a, afterFirstSlash (x +:+ String slash z) = Some (a +:+ z) ∧
       Js.all CreatePR.urlChar a = true.
Proof.
  induction x as [|c x IH]; simpl.
  - intros _. by exists "".
  - intros [Hc Hx]%andb_true_iff. destruct (Ascii.eqb c slash) eqn:Hs.
    + exists (x +:+ String slash ""). rewrite <- JsFacts.app_assoc.
      split; [done|]. rewrite all_app, Hx. done.
    + by apply IH.
Qed.

Lemma spaceBeforeSlash_app (a s : string) :
  Js.all not_slash_space a = true →
  spaceBeforeSlash (a +:+ s) = spaceBeforeSlash s.
Proof.
  induction a as [|c a IH]; simpl; [done|].
  intros [Hc Ha]%andb_true_iff. unfold not_slash_space in Hc.
  apply negb_true_iff, orb_false_iff in Hc as [Hs Hw].
  rewrite Hw, Hs. by apply IH.
Qed.

Lemma spaceBeforeSlash_url (b z : string) :
  Js.all CreatePR.urlChar b = true →
  spaceBeforeSlash (b +:+ String slash z) = false.
Proof.
  induction b as [|c b IH]; simpl; [done|].
  intros [Hc Hb]%andb_true_iff. unfold CreatePR.urlChar in Hc.
  apply negb_true_iff in Hc. rewrite Hc.
  destruct (Ascii.eqb c slash); [done|by apply IH].
Qed.

Lemma possible_no_slash c (x : string) :
  Js.all not_slash x = true → repoPathPossible (String c x) = false.
Proof.
  destruct x as [|d x]; [done|]. simpl.
  intros [_ Hx]%andb_true_iff. rewrite (afterFirstSlash_none x Hx).
  by rewrite andb_false_r.
Qed.

Section Path.
Context {R : Type}.

Lemma repoPath_sound (k : string → string → option R) s v :
  repoPath k s = Some v →
  fetchMark s = true ∧ repoPathPossible s = true ∧
  ∃ owner repo, k owner repo = Some v.
Proof.
  unfold repoPath. destruct s as [|c s]; [done|]. simpl.
  destruct (colon_or_slash c) eqn:Hc; [|done].
  intros (d & o & rest & -> & Hd & Ho & Hk)%plus_greedy_sound.
  apply lit_Some in Hk as (rest' & -> & Hk).
  apply plus_lazy_sound in Hk as (e & r & t & -> & He & Hr & Hk).
  apply fetchTail_sound in Hk as (Hk & Hmark & g & w & t' & -> & Hg & Hw).
  split; [|split; [|by eexists _, _]].
  - rewrite orb_true_iff. right.
    apply (mark_app_r (String d o)), (mark_app_r "/"),
      (mark_app_r (String e r)). done.
  - cbn [String.append]. rewrite Hd. cbn [andb].
    change ("/" +:+ ?x) with (String slash x).
    rewrite afterFirstSlash_app by done.
    change (String e (r +:+ g +:+ String w t'))
      with (String e r +:+ g +:+ String w t').
    rewrite JsFacts.app_assoc.
    rewrite spaceBeforeSlash_app.
    + simpl. by rewrite Hw.
    + rewrite all_app. simpl. rewrite He, Hr. simpl.
      by destruct Hg as [->| ->].
Qed.

Lemma repoPath_impossible (k : string → string → option R) s :
  repoPathPossible s = false → repoPath k s = None.
Proof.
  intros Hs. destruct (repoPath k s) as [v|] eqn:Hk; [|done].
  apply repoPath_sound in Hk as (_ & Hk & _). congruence.
Qed.

Lemma repoPath_no_mark (k : string → string → option R) s :
  fetchMark s = false → repoPath k s = None.
Proof.
  intros Hs. destruct (repoPath k s) as [v|] eqn:Hk; [|done].
  apply repoPath_sound in Hk as (Hk & _). congruence.
Qed.

End Path.

(** *** The patterns on the lines of a well-formed remote *)

Lemma endsWith_app (a b : string) : CreatePR.endsWith (a +:+ b) b = true.
Proof.
  induction a as [|c a IH]; simpl.
  - destruct b; cbn [CreatePR.endsWith]; by rewrite String.eqb_refl.
  - by rewrite IH, orb_true_r.
Qed.

Lemma nameChar_urlChar s :
  Js.all CreatePR.nameChar s = true → Js.all CreatePR.urlChar s = true.
Proof.
  apply all_impl. unfold CreatePR.nameChar, CreatePR.urlChar.
  by intros c [? _]%andb_true_iff.
Qed.

Lemma nameChar_not_slash s :
  Js.all CreatePR.nameChar s = true → Js.all not_slash s = true.
Proof.
  apply all_impl. unfold CreatePR.nameChar, not_slash, colon_or_slash.
  intros c [_ H]%andb_true_iff.
  apply negb_true_iff, orb_false_iff in H as [_ H]. by rewrite H.
Qed.

Lemma not_slash_space_urlChar s :
  Js.all not_slash_space s = true → Js.all CreatePR.urlChar s = true.
Proof.
  apply all_impl. unfold not_slash_space, CreatePR.urlChar.
  intros c H. apply negb_true_iff, orb_false_iff in H as [_ H].
  by rewrite H.
Qed.

Lemma not_slash_space_not_slash s :
  Js.all not_slash_space s = true → Js.all not_slash s = true.
Proof.
  apply all_impl. unfold not_slash_space, not_slash.
  intros c H. apply negb_true_iff, orb_false_iff in H as [H _].
  by rewrite H.
Qed.

Lemma word_urlChar s :
  Js.all Js.is_word s = true → Js.all CreatePR.urlChar s = true.
Proof.
  apply all_impl. intros c Hc. unfold CreatePR.urlChar.
  destruct (Js.is_space c) eqn:Hs; [|done].
  unfold Js.is_word, Js.is_space, Js.is_upper, Js.is_lower, Js.is_digit in *.
  destruct (Nat.eqb_spec (Js.code c) 32), (Nat.leb_spec 9 (Js.code c)),
    (Nat.leb_spec (Js.code c) 13), (Nat.leb_spec 65 (Js.code c)),
    (Nat.leb_spec 97 (Js.code c)), (Nat.leb_spec 48 (Js.code c)),
    (Nat.leb_spec (Js.code c) 57), (Nat.eqb_spec (Js.code c) 95);
    simpl in *; try done; lia.
Qed.

Lemma urlChar_dot s :
  Js.all CreatePR.urlChar s = true → Js.all dot s = true.
Proof.
  apply all_impl. intros c Hc. unfold CreatePR.urlChar, Js.is_space, dot in *.
  destruct (Nat.eqb_spec (Js.code c) 32), (Nat.leb_spec 9 (Js.code c)),
    (Nat.leb_spec (Js.code c) 13), (Nat.eqb_spec (Js.code c) 10),
    (Nat.eqb_spec (Js.code c) 13); simpl in *; try done; lia.
Qed.

Lemma noNewline_app (a b : string) :
  Js.noNewline (a +:+ b) = Js.noNewline a && Js.noNewline b.
Proof.
  induction a as [|c a IH]; simpl; [done|]. by rewrite IH, andb_assoc.
Qed.

Lemma urlChar_noNewline s :
  Js.all CreatePR.urlChar s = true → Js.noNewline s = true.
Proof.
  induction s as [|c s IH]; simpl; [done|].
  intros [Hc Hs]%andb_true_iff. rewrite IH by done.
  destruct (Ascii.eqb_spec c Js.newline) as [->|]; [done|done].
Qed.

Section Path.
Context {R : Type}.

(** On the separator the path part matches with the owner and the
    repository as its groups. *)
Lemma repoPath_at_separator (k : string → string → option R) sep owner repo
    dotGit v :
  colon_or_slash sep = true →
  Js.nonempty owner = true → Js.all CreatePR.nameChar owner = true →
  Js.nonempty repo = true → Js.all not_slash_space repo = true →
  CreatePR.endsWith repo ".git" = false →
  k owner repo = Some v →
  repoPath k (String sep (CreatePR.pathTail owner repo dotGit)) = Some v.
Proof.
  intros Hsep Hon Ho Hrn Hr Hgit Hk. unfold repoPath, CreatePR.pathTail. simpl.
  rewrite Hsep.
  destruct owner as [|o0 owner]; [done|]. destruct repo as [|r0 repo]; [done|].
  apply nameChar_not_slash in Ho. simpl in Ho, Hr.
  apply andb_true_iff in Ho as [Ho0 Ho]. apply andb_true_iff in Hr as [Hr0 Hr].
  apply plus_greedy_max; [done..|].
  change (String slash ?x) with ("/" +:+ x). rewrite lit_app.
  apply plus_lazy_first; [done..|by apply fetchTail_eval|].
  intros m1 m2 -> Hne.
  destruct (fetchTail _ _) as [v'|] eqn:Ht; [exfalso|done].
  apply fetchTail_sound in Ht as (_ & _ & g & w & t' & Heq & Hg & Hw).
  rewrite all_app in Hr. apply andb_true_iff in Hr as [_ Hm2].
  change (m2 +:+ (if dotGit then ".git" else "") +:+ " (fetch)")
    with (m2 +:+ (if dotGit then ".git" else "") +:+ String " " "(fetch)")
    in Heq.
  rewrite JsFacts.app_assoc in Heq.
  apply first_space_unique in Heq as [Heq _]; [| |by destruct Hg as [->| ->]|
    done|done].
  2:{ rewrite all_app. rewrite (not_slash_space_urlChar m2 Hm2).
      by destruct dotGit. }
  destruct Hg as [->| ->].
  - destruct m2; [done|]. by destruct dotGit.
  - destruct dotGit.
    + apply (f_equal String.length) in Heq.
      rewrite JsFacts.app_length in Heq. simpl in Heq.
      destruct m2; [done|]. simpl in Heq. lia.
    + rewrite JsFacts.app_nil_r in Heq. subst m2.
      simpl in Hgit. apply orb_false_iff in Hgit as [_ Hgit].
      by rewrite endsWith_app in Hgit.
Qed.

(** Behind the separator the path part matches nowhere. *)
Lemma repoPath_behind_separator (k : string → string → option R) owner v :
  Js.all CreatePR.nameChar owner = true → Js.all not_slash v = true →
  ∀ m rest, owner +:+ String slash v = m +:+ rest → repoPath k rest = None.
Proof.
  intros Ho Hv. induction owner as [|c owner IH]; intros m rest Heq.
  - destruct m as [|c m]; simpl in Heq.
    + subst rest. apply repoPath_impossible. by apply possible_no_slash.
    + injection Heq as _ ->. apply repoPath_impossible.
      destruct rest as [|c' rest]; [done|]. apply possible_no_slash.
      rewrite all_app in Hv. simpl in Hv.
      by apply andb_true_iff in Hv as [_ [_ ?]%andb_true_iff].
  - simpl in Ho. apply andb_true_iff in Ho as [Hc Ho].
    destruct m as [|c' m]; simpl in Heq.
    + subst rest. apply repoPath_impossible.
      unfold CreatePR.nameChar in Hc. apply andb_true_iff in Hc as [_ Hc].
      apply negb_true_iff in Hc. simpl.
      destruct (owner +:+ String slash v); simpl; by rewrite ?Hc.
    + injection Heq as _ Heq. by apply (IH Ho m).
Qed.

End Path.

Section Lines.
Import CreatePR.
Variable r : Remote.
Hypothesis Hwf : wellFormed r = true.

Lemma wellFormed_inv :
  Js.nonempty (remoteName r) = true ∧
  Js.all nameChar (remoteName r) = true ∧
  Js.all urlChar (urlBase r) = true ∧
  colon_or_slash (urlSep r) = true ∧
  (urlSep r = colon → Js.all nameChar (urlBase r) = true) ∧
  Js.nonempty (owner r) = true ∧ Js.all nameChar (owner r) = true ∧
  Js.nonempty (repo r) = true ∧ Js.all not_slash_space (repo r) = true ∧
  endsWith (repo r) ".git" = false.
Proof.
  unfold wellFormed in Hwf. rewrite !andb_true_iff in Hwf.
  destruct Hwf as [[[[[[[[[? ?] ?] ?] Hsep] ?] ?] ?] ?] Hgit].
  repeat split; try done.
  - intros Hc. rewrite Hc in Hsep. done.
  - by apply negb_true_iff.
Qed.

Lemma fetchLine_eq :
  fetchLine r =
  remoteName r +:+
  String Js.tab
    (urlBase r +:+ String (urlSep r) (pathTail (owner r) (repo r) (dotGit r))).
Proof.
  unfold fetchLine, url, pathTail. do 2 f_equal. by normalize_app.
Qed.

Lemma tail_not_slash :
  Js.all not_slash
    (repo r +:+ (if dotGit r then ".git" else "") +:+ " (fetch)") = true.
Proof.
  destruct wellFormed_inv as (_ & _ & _ & _ & _ & _ & _ & _ & Hr & _).
  rewrite all_app, (not_slash_space_not_slash _ Hr). by destruct (dotGit r).
Qed.

Lemma url_urlChar : Js.all urlChar (url r) = true.
Proof.
  destruct wellFormed_inv as (_ & _ & Hb & Hs & _ & _ & Ho & _ & Hr & _).
  unfold url. rewrite all_app, Hb. simpl.
  assert (urlChar (urlSep r) = true) as ->.
  { unfold colon_or_slash in Hs. apply orb_true_iff in Hs as [Hs|Hs];
      apply Ascii.eqb_eq in Hs; by rewrite Hs. }
  rewrite all_app, (nameChar_urlChar _ Ho). simpl.
  rewrite all_app, (not_slash_space_urlChar _ Hr).
  by destruct (dotGit r).
Qed.

Lemma separator_matches {R} (k : string → string → option R) v :
  k (owner r) (repo r) = Some v →
  repoPath k (String (urlSep r) (pathTail (owner r) (repo r) (dotGit r))) =
  Some v.
Proof.
  destruct wellFormed_inv as (_ & _ & _ & Hs & _ & ? & ? & ? & ? & ?).
  by apply repoPath_at_separator.
Qed.

(** The first pattern on the fetch line of a remote whose name is a
    word: the name and the owner are its first two groups. *)
Lemma remoteLine_fetch :
  Js.all Js.is_word (remoteName r) = true →
  remoteLine (fetchLine r) = Some (remoteName r, owner r, repo r).
Proof.
  intros Hword.
  destruct wellFormed_inv as (Hn & _ & Hb & Hs & _ & _ & Ho & _ & _ & _).
  rewrite fetchLine_eq. unfold remoteLine.
  destruct (remoteName r) as [|n0 n]; [done|].
  simpl in Hword. apply andb_true_iff in Hword as [Hn0 Hword].
  apply plus_greedy_max; [done..|].
  change (String Js.tab ?x) with (String Js.tab "" +:+ x).
  apply plus_greedy_max; [done|done| |].
  { destruct (urlBase r) as [|b0 b]; simpl.
    - unfold colon_or_slash in Hs. apply orb_true_iff in Hs as [Hs|Hs];
        apply Ascii.eqb_eq in Hs; by rewrite Hs.
    - simpl in Hb. by apply andb_true_iff in Hb as [? _]. }
  apply star_greedy_last; [by apply urlChar_dot|by apply separator_matches|].
  intros [|c m'] rest' Heq Hne _; [done|].
  simpl in Heq. injection Heq as _ Heq.
  apply (repoPath_behind_separator _ (owner r) _ Ho tail_not_slash m').
  exact Heq.
Qed.

(** Whatever the first pattern finds on a line, its first group is what
    stands before the first white space, and a fetch mark follows. *)
Lemma remoteLine_sound line n o p :
  remoteLine line = Some (n, o, p) →
  ∃ w rest, line = n +:+ String w rest ∧ Js.all Js.is_word n = true ∧
    Js.is_space w = true ∧ fetchMark rest = true.
Proof.
  unfold remoteLine.
  intros (c & m & rest & -> & Hc & Hm & Hk)%plus_greedy_sound.
  apply plus_greedy_sound in Hk as (w & ws & rest' & -> & Hw & Hws & Hk).
  apply star_greedy_sound in Hk as (d & rest'' & -> & Hd & Hk).
  apply repoPath_sound in Hk as (Hmark & _ & o' & p' & [= <- _ _]).
  exists w, (ws +:+ d +:+ rest''). split; [done|].
  split; [simpl; by rewrite Hc|]. split; [done|].
  by apply mark_app_r, mark_app_r.
Qed.

Lemma remoteLine_name suffix n o p :
  remoteLine (remoteName r +:+ String Js.tab suffix) = Some (n, o, p) →
  n = remoteName r ∧ fetchMark suffix = true.
Proof.
  destruct wellFormed_inv as (_ & Hn & _).
  intros (w & rest & Heq & Hword & Hw & Hmark)%remoteLine_sound.
  symmetry in Heq.
  apply first_space_unique in Heq as [-> ->];
    [done|by apply word_urlChar|by apply nameChar_urlChar|done..].
Qed.

(** The first pattern finds nothing on a push line. *)
Lemma remoteLine_push : remoteLine (pushLine r) = None.
Proof.
  destruct (remoteLine (pushLine r)) as [[[n o] p]|] eqn:Hm; [exfalso|done].
  apply remoteLine_name in Hm as [_ Hmark].
  rewrite mark_nospace in Hmark by apply url_urlChar. done.
Qed.

(** On a fetch line the first pattern finds the name of the remote, if
    it finds anything. *)
Lemma remoteLine_fetch_name n o p :
  remoteLine (fetchLine r) = Some (n, o, p) → n = remoteName r.
Proof. by intros [? _]%remoteLine_name. Qed.

(** Where a position before the separator can be: on something else
    than a colon or slash, or inside the part of the URL before it. *)
Lemma before_separator (name base : string) :
  Js.all nameChar name = true →
  ∀ u1 u2, name +:+ String Js.tab base = u1 +:+ u2 → u2 ≠ "" →
  (∃ c x, u2 = String c x ∧ colon_or_slash c = false) ∨
  (∃ b1, base = b1 +:+ u2).
Proof.
  intros Hn. induction name as [|c name IH]; intros u1 u2 Heq Hne.
  - destruct u1 as [|c u1]; simpl in Heq.
    + subst u2. left. by eexists _, _.
    + injection Heq as _ ->. right. by exists u1.
  - simpl in Hn. apply andb_true_iff in Hn as [Hc Hn].
    destruct u1 as [|c' u1]; simpl in Heq.
    + subst u2. left. eexists _, _. split; [done|].
      unfold nameChar in Hc. apply andb_true_iff in Hc as [_ Hc].
      by apply negb_true_iff.
    + injection Heq as _ Heq. by apply (IH Hn u1).
Qed.

Lemma possible_not_on_separator c (y : string) :
  colon_or_slash c = false → repoPathPossible (String c y) = false.
Proof. intros Hc. destruct y; simpl; by rewrite ?Hc. Qed.

(** The second pattern on the fetch line: the owner, a slash and the
    repository. *)
Lemma repoOfLine_fetch :
  repoOfLine (fetchLine r) = Some (owner r +:+ "/" +:+ repo r).
Proof.
  destruct wellFormed_inv as (_ & Hn & Hb & Hs & Hcolon & _ & Ho & _ & _ & _).
  rewrite fetchLine_eq. unfold repoOfLine.
  set (post := String (urlSep r) (pathTail (owner r) (repo r) (dotGit r))).
  assert (remoteName r +:+ String Js.tab (urlBase r +:+ post) =
          (remoteName r +:+ String Js.tab (urlBase r)) +:+ post) as ->.
  { by rewrite <- JsFacts.app_assoc. }
  apply search_first; [by apply separator_matches|].
  intros u1 u2 Heq Hne. apply repoPath_impossible. subst post.
  destruct (before_separator _ _ Hn u1 u2 Heq Hne)
    as [(c & x & -> & Hc)|[b1 Hbase]];
    [by apply (possible_not_on_separator c)|].
  destruct u2 as [|c u2]; [done|].
  destruct (colon_or_slash c) eqn:Hc;
    [|by apply (possible_not_on_separator c)].
  assert (Js.all urlChar u2 = true ∧ nameChar c = false) as [Hu2 Hnc].
  { rewrite Hbase, all_app in Hb. simpl in Hb.
    apply andb_true_iff in Hb as [_ [Hcu Hu2]%andb_true_iff].
    split; [done|]. unfold nameChar. rewrite Hc. by rewrite andb_false_r. }
  assert (urlSep r = slash) as Hsep.
  { unfold colon_or_slash in Hs. apply orb_true_iff in Hs as [Hs|Hs];
      apply Ascii.eqb_eq in Hs; [|done].
    specialize (Hcolon Hs). rewrite Hbase, all_app in Hcolon. simpl in Hcolon.
    rewrite Hnc in Hcolon. by rewrite andb_false_r in Hcolon. }
  rewrite Hsep. simpl.
  destruct u2 as [|d u2]; simpl; [by rewrite andb_false_r|].
  simpl in Hu2. apply andb_true_iff in Hu2 as [_ Hu2].
  destruct (afterFirstSlash_url u2
              (pathTail (owner r) (repo r) (dotGit r)) Hu2) as (a & -> & Ha).
  unfold pathTail. rewrite JsFacts.app_assoc.
  rewrite spaceBeforeSlash_url; [by rewrite andb_false_r|].
  rewrite all_app, Ha. by apply nameChar_urlChar.
Qed.

(** What the loop of the fork detection does on the two lines of a
    remote. *)
Lemma scanRemote_push acc : scanRemote acc (pushLine r) = acc.
Proof. unfold scanRemote. by rewrite remoteLine_push. Qed.

Lemma scanRemote_fetch acc : scanRemote acc (fetchLine r) = applyRemote acc r.
Proof.
  unfold scanRemote, applyRemote.
  destruct (String.eqb_spec (remoteName r) "upstream") as [Hup|Hup].
  - rewrite remoteLine_fetch by (by rewrite Hup). rewrite Hup. simpl.
    rewrite repoOfLine_fetch. unfold falsyToNull.
    destruct wellFormed_inv as (_ & _ & _ & _ & _ & Ho & _).
    by destruct (owner r).
  - destruct (String.eqb_spec (remoteName r) "origin") as [Hor|Hor].
    + rewrite remoteLine_fetch by (by rewrite Hor). rewrite Hor. done.
    + destruct (remoteLine (fetchLine r)) as [[[n o] p]|] eqn:Hm; [|done].
      apply remoteLine_fetch_name in Hm as ->.
      destruct (String.eqb_spec (remoteName r) "upstream"); [done|].
      by destruct (String.eqb_spec (remoteName r) "origin").
Qed.

Lemma lines_noNewline :
  Js.noNewline (fetchLine r) = true ∧ Js.noNewline (pushLine r) = true.
Proof.
  destruct wellFormed_inv as (_ & Hn & _).
  apply nameChar_urlChar, urlChar_noNewline in Hn.
  pose proof (urlChar_noNewline _ url_urlChar) as Hu.
  unfold fetchLine, pushLine.
  split; rewrite noNewline_app, Hn; simpl; by rewrite noNewline_app, Hu.
Qed.

End Lines.

End ReFacts.

(** ** Properties of the board projector *)

Module BoardFacts.
Import Board.

Lemma elem_of_textFilter q features f :
  f ∈ textFilter q features ↔ f ∈ features ∧ passesText q f = true.
Proof.
  unfold textFilter, passesText. cbv zeta.
  destruct (Js.nonempty (normalizedQuery q)).
  - rewrite !list_elem_of_In, filter_In. reflexivity.
  - intuition.
Qed.

Lemma elem_of_filteredFeatures features q cw f :
  f ∈ filteredFeatures features q cw ↔
  f ∈ features ∧ passesText q f = true ∧ inScope cw f = true.
Proof.
  unfold filteredFeatures.
  rewrite list_elem_of_In, filter_In, <- list_elem_of_In.
  rewrite elem_of_textFilter. tauto.
Qed.

Lemma fiveKeys_empty : fiveKeys emptyColumns.
Proof.
  intros c. split.
  - intros [arr H]. unfold emptyColumns in H.
    repeat (rewrite lookup_insert in H; case_decide;
            [subst; unfold columnIds; set_solver|]).
    by rewrite lookup_empty in H.
  - intros H. unfold columnIds in H.
    repeat (apply elem_of_cons in H as [->|H]; [by eexists|]).
    by apply elem_of_nil in H.
Qed.

Lemma lookup_emptyColumns c :
  c ∈ columnIds → emptyColumns !! c = Some [].
Proof.
  intros H. unfold columnIds in H.
  repeat (apply elem_of_cons in H as [->|H]; [done|]).
  by apply elem_of_nil in H.
Qed.

Lemma columnOf_in_ids running f : columnOf running f ∈ columnIds.
Proof.
  unfold columnOf. destruct (isRunning running f).
  - unfold columnIds. set_solver.
  - case_bool_decide; [done|]. unfold columnIds. set_solver.
Qed.

(** No column is named like an inherited property. *)
Lemma inherited_not_column k : k ∈ inheritedKeys → k ∉ columnIds.
Proof.
  intros Hk Hc. unfold inheritedKeys in Hk. unfold columnIds in Hc.
  repeat (apply elem_of_cons in Hk as [->|Hk];
    [repeat (apply elem_of_cons in Hc as [Hc|Hc]; [discriminate|]);
     by apply elem_of_nil in Hc|]).
  by apply elem_of_nil in Hk.
Qed.

(** The body of the loop throws on exactly the features that are not
    running and whose status names an inherited property. *)
Lemma place_None running m f :
  fiveKeys m →
  place running m f = None ↔
  isRunning running f = false ∧ status f ∈ inheritedKeys.
Proof.
  intros Hk. unfold place. destruct (isRunning running f).
  - split; [done|]. by intros [? _].
  - destruct (m !! status f) eqn:Hs.
    + split; [done|]. intros [_ Hin]. apply inherited_not_column in Hin.
      destruct Hin. apply Hk. by rewrite Hs.
    + case_bool_decide; [done|]. split; [done|]. by intros [_ ?].
Qed.

Lemma lookup_place running m f m' c :
  fiveKeys m →
  place running m f = Some m' →
  m' !! c =
  (λ arr, if decide (columnOf running f = c) then arr ++ [f] else arr)
    <$> m !! c.
Proof.
  intros Hk. unfold place, columnOf, push.
  assert (Hid : ∀ (k : string),
    alter (λ arr : list Feature, arr ++ [f]) k m !! c =
    (λ arr, if decide (k = c) then arr ++ [f] else arr) <$> m !! c).
  { intros k. rewrite lookup_alter. destruct (decide (k = c)) as [->|].
    - done.
    - by destruct (m !! c). }
  destruct (isRunning running f); [intros [= <-]; apply Hid|].
  destruct (m !! status f) eqn:Hs.
  - intros [= <-]. rewrite bool_decide_eq_true_2; [apply Hid|].
    apply Hk. by rewrite Hs.
  - case_bool_decide; [done|]. intros [= <-].
    rewrite bool_decide_eq_false_2; [apply Hid|].
    intros Hin. apply Hk in Hin. rewrite Hs in Hin. by destruct Hin.
Qed.

Lemma fiveKeys_place running m f m' :
  fiveKeys m → place running m f = Some m' → fiveKeys m'.
Proof.
  intros Hk Hp c. rewrite (lookup_place _ _ _ _ _ Hk Hp).
  rewrite fmap_is_Some. apply Hk.
Qed.

(** The loop ends without exception when no feature makes its body
    throw; each array then has grown by the features of its column. *)
Lemma forEach_place running l : ∀ m,
  fiveKeys m →
  (∀ f, f ∈ l → isRunning running f = false → status f ∉ inheritedKeys) →
  ∃ m', forEach (place running) m l = Some m' ∧ fiveKeys m' ∧
    ∀ c, m' !! c =
         (λ arr, arr ++ filter (λ f, columnOf running f = c) l) <$> m !! c.
Proof.
  induction l as [|f l IH]; intros m Hk Hok; simpl.
  - exists m. split; [done|]. split; [done|]. intros c.
    destruct (m !! c); simpl; [by rewrite app_nil_r|done].
  - destruct (place running m f) as [m1|] eqn:Hp.
    + pose proof (fiveKeys_place _ _ _ _ Hk Hp) as Hk1.
      destruct (IH m1 Hk1) as (m' & Hm' & Hk' & Hl).
      { intros g Hg. apply Hok. by right. }
      exists m'. split; [done|]. split; [done|]. intros c.
      rewrite Hl, (lookup_place _ _ _ _ c Hk Hp).
      destruct (m !! c) as [arr|]; simpl; [|done].
      f_equal. rewrite filter_cons.
      destruct (decide (columnOf running f = c)); [|done].
      by rewrite <- app_assoc.
    + apply place_None in Hp as [Hr Hs]; [|done].
      destruct (Hok f); [by left|done|done].
Qed.

Lemma forEach_place_None running l : ∀ m,
  fiveKeys m →
  forEach (place running) m l = None →
  ∃ f, f ∈ l ∧ isRunning running f = false ∧ status f ∈ inheritedKeys.
Proof.
  induction l as [|f l IH]; intros m Hk; simpl; [done|].
  destruct (place running m f) as [m1|] eqn:Hp.
  - intros Hn. destruct (IH m1) as (g & Hg & Hr); [|done|].
    + by eapply fiveKeys_place.
    + exists g. split; [by right|done].
  - intros _. apply place_None in Hp; [|done]. exists f. split; [by left|done].
Qed.

Lemma forEach_place_throws running f l : ∀ m,
  fiveKeys m → f ∈ l →
  isRunning running f = false → status f ∈ inheritedKeys →
  forEach (place running) m l = None.
Proof.
  intros m Hk Hin Hr Hs. revert m Hk.
  induction Hin as [f l|f g l _ IH]; intros m Hk; simpl.
  - by rewrite (proj2 (place_None running m f Hk)).
  - destruct (place running m g) eqn:Hp; [|done].
    apply IH; [done|done|]. by eapply fiveKeys_place.
Qed.

Lemma insertByKey_perm x l : insertByKey x l ≡ₚ x :: l.
Proof.
  induction l as [|y l IH]; simpl; [done|].
  destruct (sortKey x <=? sortKey y)%Z; [done|].
  rewrite IH. apply Permutation_swap.
Qed.

Lemma sortBacklog_perm l : sortBacklog l ≡ₚ l.
Proof.
  induction l as [|x l IH]; simpl; [done|].
  rewrite insertByKey_perm. by rewrite IH.
Qed.

Lemma filter_after_List_filter {A} (P : A → Prop) `{∀ x, Decision (P x)}
    (b : A → bool) l :
  filter P (List.filter b l) = filter (λ x, b x = true ∧ P x) l.
Proof.
  induction l as [|x l IH]; [done|]. cbn [List.filter].
  rewrite (filter_cons (λ x, b x = true ∧ P x)). destruct (b x) eqn:Hb.
  - rewrite filter_cons, IH. destruct (decide (P x)) as [Hp|Hp].
    + by rewrite decide_True.
    + rewrite decide_False; [done|]. by intros [_ ?].
  - rewrite IH. rewrite decide_False; [done|]. by intros [? _].
Qed.

(** The retained features of a column, read off the feature array. *)
Lemma filter_filteredFeatures running features q cw c :
  filter (λ f, columnOf running f = c) (filteredFeatures features q cw) =
  destined running q cw c features.
Proof.
  unfold filteredFeatures, destined.
  assert (textFilter q features = List.filter (passesText q) features) as ->.
  { unfold textFilter, passesText.
    destruct (Js.nonempty (normalizedQuery q)); [done|].
    induction features as [|f l IH]; simpl; [done|by rewrite <- IH]. }
  rewrite !filter_after_List_filter.
  apply list_filter_iff. intros f. tauto.
Qed.

Lemma elem_of_destined running q cw c features f :
  f ∈ destined running q cw c features ↔
  f ∈ features ∧ passesText q f = true ∧ inScope cw f = true ∧
  columnOf running f = c.
Proof. unfold destined. rewrite list_elem_of_filter. tauto. Qed.

Lemma destined_outside running q cw c features :
  c ∉ columnIds → destined running q cw c features = [].
Proof.
  intros Hc. unfold destined. induction features as [|f l IH]; [done|].
  rewrite filter_cons, IH. case_decide as Heq; [|done].
  destruct Hc. destruct Heq as (_ & _ & <-). apply columnOf_in_ids.
Qed.

(** When the statuses are plain the hook returns, and every column is the
    part of the feature array that belongs to it, the backlog sorted. *)
Lemma columns_returned features running q cw :
  plainStatuses features running →
  ∃ m, columnFeaturesMap features running q cw = Some m ∧
    fiveKeys m ∧
    ∀ c, getColumnFeatures m c =
         let col := destined running q cw c features in
         if decide ("backlog" = c) then sortBacklog col else col.
Proof.
  intros Hok. unfold columnFeaturesMap. cbv zeta.
  destruct (forEach_place running (filteredFeatures features q cw)
              emptyColumns fiveKeys_empty) as (m & -> & Hk & Hl).
  { intros f Hf. apply Hok. by apply elem_of_filteredFeatures in Hf as [? _]. }
  eexists. split; [done|]. split.
  - intros c. rewrite lookup_alter.
    destruct (decide ("backlog" = c)) as [<-|];
      [rewrite fmap_is_Some|]; apply Hk.
  - intros c. unfold getColumnFeatures. rewrite lookup_alter.
    destruct (decide (c ∈ columnIds)) as [Hc|Hc].
    + destruct (decide ("backlog" = c)) as [<-|Hne];
        rewrite Hl, (lookup_emptyColumns _ Hc); simpl;
        by rewrite filter_filteredFeatures.
    + rewrite destined_outside by done.
      assert (m !! c = None) as Hn.
      { destruct (m !! c) eqn:He; [|done]. destruct Hc. apply Hk.
        by rewrite He. }
      destruct (decide ("backlog" = c)) as [<-|]; rewrite Hn; done.
Qed.

(** The hook throws exactly when a feature that passes both filters and
    is not running has a status that names an inherited property. *)
Lemma columns_thrown features running q cw :
  columnFeaturesMap features running q cw = None ↔
  ∃ f, f ∈ features ∧ passesText q f = true ∧ inScope cw f = true ∧
       isRunning running f = false ∧ status f ∈ inheritedKeys.
Proof.
  unfold columnFeaturesMap. cbv zeta. split.
  - destruct (forEach _ _ _) eqn:Hf; [done|]. intros _.
    apply forEach_place_None in Hf as (f & Hin & Hr & Hs);
      [|apply fiveKeys_empty].
    apply elem_of_filteredFeatures in Hin. exists f. tauto.
  - intros (f & Hin & Ht & Hsc & Hr & Hs).
    rewrite (forEach_place_throws running f);
      [done|apply fiveKeys_empty| |done|done].
    by apply elem_of_filteredFeatures.
Qed.

Lemma elem_of_column features running q cw m c f :
  plainStatuses features running →
  columnFeaturesMap features running q cw = Some m →
  f ∈ getColumnFeatures m c ↔
  f ∈ features ∧ passesText q f = true ∧ inScope cw f = true ∧
  columnOf running f = c.
Proof.
  intros Hok Hm.
  destruct (columns_returned features running q cw Hok) as (m' & Hm' & _ & Hc).
  rewrite Hm in Hm'. injection Hm' as <-. rewrite Hc. cbv zeta.
  rewrite <- elem_of_destined.
  destruct (decide ("backlog" = c)); [by rewrite sortBacklog_perm|done].
Qed.

Lemma shown_iff features running q cw m f :
  plainStatuses features running →
  columnFeaturesMap features running q cw = Some m →
  shown m f ↔ f ∈ features ∧ passesText q f = true ∧ inScope cw f = true.
Proof.
  intros Hok Hm. unfold shown.
  setoid_rewrite (elem_of_column _ _ _ _ _ _ _ Hok Hm). split.
  - intros [c ?]. tauto.
  - intros Hf. exists (columnOf running f). tauto.
Qed.

(** Plain statuses, checked by evaluation. *)
Lemma plainStatuses_checked features running :
  forallb (λ f, isRunning running f
                || negb (bool_decide (status f ∈ inheritedKeys))) features
    = true →
  plainStatuses features running.
Proof.
  intros Hall f Hin Hr Hs.
  apply list_elem_of_In in Hin.
  pose proof (proj1 (forallb_forall _ _) Hall f Hin) as Hf. simpl in Hf.
  rewrite Hr in Hf. by rewrite bool_decide_eq_true_2 in Hf.
Qed.

(** Text in the modelled range, checked by evaluation. *)
Lemma plainFeatures_checked features :
  forallb (λ f, Js.all Js.is_ascii (description f)
                && match category f with
                   | Some c => Js.all Js.is_ascii c
                   | None => true
                   end) features = true →
  Forall plainFeature features.
Proof.
  intros Hall. apply Forall_forall. intros f Hin.
  apply list_elem_of_In in Hin.
  pose proof (proj1 (forallb_forall _ _) Hall f Hin) as Hf. simpl in Hf.
  apply andb_true_iff in Hf as [Hd Hc]. split; [done|].
  intros c Heq. by rewrite Heq in Hc.
Qed.




(** C4: the loop throws on a feature whose status names an inherited
    property before it reaches a later feature, so a running feature
    that passes both filters is then in no [in_progress] column: the
    hook returns no columns at all.  Alone, the same running feature is
    placed in [in_progress]. *)
Theorem running_feature_lost_with_inherited_status :
  let stray := mkFeature "f-1" "Login form" None "constructor" None None in
  let busy := mkFeature "f-2" "Export data" None "verified" None None in
  id busy ∈ ["f-2"] ∧ passesText "" busy = true ∧ inScope None busy = true ∧
  columnFeaturesMap [stray; busy] ["f-2"] "" None = None ∧
  columnFeaturesMap [busy; stray] ["f-2"] "" None = None ∧
  ∃ m, columnFeaturesMap [busy] ["f-2"] "" None = Some m ∧
       getColumnFeatures m "in_progress" = [busy].
Proof.
  cbv zeta. split; [apply list_elem_of_here|].
  split; [reflexivity|]. split; [reflexivity|].
  assert (∀ features,
            mkFeature "f-1" "Login form" None "constructor" None None
              ∈ features →
            columnFeaturesMap features ["f-2"] "" None = None) as Hthrown.
  { intros features Hin. apply columns_thrown. eexists.
    split; [exact Hin|]. repeat (split; [reflexivity|]).
    unfold inheritedKeys. apply list_elem_of_here. }
  split; [apply Hthrown; here|]. split; [apply Hthrown; here|].
  destruct (columns_returned
              [mkFeature "f-2" "Export data" None "verified" None None]
              ["f-2"] "" None) as (m & Hm & _ & Hc).
  { apply plainStatuses_checked. vm_compute. reflexivity. }
  exists m. split; [done|]. rewrite Hc. vm_compute. reflexivity.
Qed.

(** C10: a feature that is not running and whose status is none of the
    five columns but the name of an inherited property is not put in the
    backlog: the hook throws and there are no columns.  A status that is
    unknown in any other way is put in the backlog. *)
Theorem inherited_status_not_defaulted :
  let stray := mkFeature "f-1" "Login form" None "constructor" None None in
  let odd := mkFeature "f-1" "Login form" None "archived" None None in
  (status stray ∉ columnIds) ∧
  columnFeaturesMap [stray] [] "" None = None ∧
  (status odd ∉ columnIds) ∧
  ∃ m, columnFeaturesMap [odd] [] "" None = Some m ∧
       getColumnFeatures m "backlog" = [odd].
Proof.
  cbv zeta.
  assert (∀ s : string, bool_decide (s ∈ columnIds) = false →
            s ∉ columnIds) as Hno.
  { intros s Hs Hin. by rewrite bool_decide_eq_true_2 in Hs. }
  split; [apply Hno; vm_compute; reflexivity|].
  split.
  { apply columns_thrown. eexists. split; [apply list_elem_of_here|].
    repeat (split; [reflexivity|]).
    unfold inheritedKeys. apply list_elem_of_here. }
  split; [apply Hno; vm_compute; reflexivity|].
  destruct (columns_returned
              [mkFeature "f-1" "Login form" None "archived" None None]
              [] "" None) as (m & Hm & _ & Hc).
  { apply plainStatuses_checked. vm_compute. reflexivity. }
  exists m. split; [done|]. rewrite Hc. vm_compute. reflexivity.
Qed.

End BoardFacts.

(** ** Properties of the publication pipeline *)

Module CreatePRFacts.
Import Host CreatePR.

(** Unfolds the monad and splits on the outcome of the next call. *)
Ltac unfold_async :=
  unfold try_catch, bind, ret, execAsync, call in *.

Ltac next_call H :=
  match type of H with
  | context [perform ?c ?w] =>
      let r := fresh "r" in
      let w' := fresh "w" in
      let E := fresh "Ecall" in
      destruct (perform c w) as [r w'] eqn:E; destruct r; cbn [fst snd] in H
  end.

(** *** Telling the calls apart *)

Lemma commit_step_call c :
  isCommitStepCall c = true →
  isPRCall c = false ∧ isPushCall c = false ∧ c ≠ ghProbe ∧
  ∀ cwd, c ≠ listRemotes cwd.
Proof.
  destruct c as [command cwd' ext| | |]; simpl; try done.
  unfold Js.startsWith. rewrite !orb_true_iff.
  intros [[[Hp|Hp]|Hp]|Hp]; apply JsFacts.prefix_inv in Hp as [r ->];
    repeat split; try done; by intros ?.
Qed.

Lemma quiet_elem pre ev :
  Forall quiet pre → ev ∈ pre → isCommitStepCall ev.1 = true.
Proof. intros Hq Hin. by apply (proj1 (Forall_forall _ _) Hq). Qed.

(** The command line as one string. *)
Lemma prCommand_eq base fork b title body (draft : bool) :
  prCommand base fork b title body (if draft then "--draft" else "") =
  "gh pr create --base " +:+ Js.quoted base +:+
  match fork with
  | (Some (String a u), Some (String c o)) =>
      " --repo " +:+ Js.quoted (String a u) +:+ " --head " +:+
      Js.quoted (String c o +:+ ":" +:+ b)
  | _ => " --head " +:+ Js.quoted b
  end +:+
  " --title " +:+ Js.quoted (Js.escape_quotes title) +:+
  " --body " +:+ Js.quoted (Js.escape_quotes body) +:+
  (if draft then " --draft" else "").
Proof.
  unfold prCommand. cbv zeta.
  set (head := match fork with
               | (Some (String a u), Some (String c o)) => _
               | _ => _
               end).
  set (h := match fork with
            | (Some (String a u), Some (String c o)) =>
                " --repo " +:+ Js.quoted (String a u) +:+ " --head " +:+
                Js.quoted (String c o +:+ ":" +:+ b)
            | _ => " --head " +:+ Js.quoted b
            end).
  assert (head = "gh pr create --base " +:+ Js.quoted base +:+ h) as ->.
  { subst head h. destruct fork as [[[|a u]|] [[|c o]|]];
      by rewrite <- ?JsFacts.app_assoc. }
  clearbody h.
  set (m := "h pr create --base " +:+ Js.quoted base +:+ h +:+ " --title " +:+
            Js.quoted (Js.escape_quotes title) +:+ " --body " +:+
            String Js.dquote (Js.escape_quotes body)).
  transitivity
    (Js.trim (String "g" (m +:+ String Js.dquote "") +:+
              (" " +:+ if draft then "--draft" else ""))).
  { f_equal. subst m. unfold Js.quoted. by normalize_app. }
  rewrite JsFacts.trim_app_tail by done.
  subst m. unfold Js.quoted. destruct draft; by normalize_app.
Qed.

Lemma prCall_class cwd req b fork :
  isPRCall (prCall cwd req b fork) = true ∧
  isPushCall (prCall cwd req b fork) = false ∧
  isCommitStepCall (prCall cwd req b fork) = false ∧
  prCall cwd req b fork ≠ ghProbe ∧
  ∀ cwd', prCall cwd req b fork ≠ listRemotes cwd'.
Proof.
  unfold prCall. rewrite prCommand_eq. repeat split; try done; by intros ?.
Qed.

(** *** Fork detection on the output of [git remote -v] *)

Lemma detectFork_lines config : ∀ acc,
  Forall (λ r, wellFormed r = true) config →
  foldl scanRemote acc (Js.split Js.newline (remotesOutput config)) =
  foldl applyRemote acc config.
Proof.
  induction config as [|r config IH]; intros acc Hwf; [done|].
  apply Forall_cons in Hwf as [Hr Hwf].
  destruct (ReFacts.lines_noNewline r Hr) as [Hf Hp].
  cbn [remotesOutput]. rewrite !JsFacts.split_line by done.
  cbn [foldl]. rewrite ReFacts.scanRemote_fetch, ReFacts.scanRemote_push by done.
  by apply IH.
Qed.

(** Only a line that begins with [upstream] and white space sets
    [upstreamRepo]. *)
Lemma scanRemote_upstream acc line :
  namesUpstream line = false → (scanRemote acc line).1 = acc.1.
Proof.
  intros Hno. unfold scanRemote.
  destruct (Re.remoteLine line) as [[[n o] p]|] eqn:Hline; [|done].
  destruct (String.eqb_spec n "upstream") as [->|_].
  - apply ReFacts.remoteLine_sound in Hline as (w & rest & -> & _ & Hw & _).
    unfold namesUpstream in Hno. simpl in Hno. by rewrite Hw in Hno.
  - by destruct (String.eqb n "origin").
Qed.

Lemma detectFork_no_upstream lines : ∀ acc,
  (∀ line, line ∈ lines → namesUpstream line = false) →
  (foldl scanRemote acc lines).1 = acc.1.
Proof.
  induction lines as [|line lines IH]; intros acc Hno; [done|].
  cbn [foldl]. rewrite IH by (intros l Hl; apply Hno; by right).
  apply scanRemote_upstream, Hno. by left.
Qed.

Lemma detectFork_output config :
  Forall (λ r, wellFormed r = true) config →
  detectFork (remotesOutput config) = foldl applyRemote (None, None) config.
Proof. apply detectFork_lines. Qed.

Lemma applyRemote_upstream acc r :
  remoteName r = "upstream" →
  applyRemote acc r = (Some (owner r +:+ "/" +:+ repo r), acc.2).
Proof. intros Hr. unfold applyRemote. by rewrite Hr. Qed.

Lemma applyRemote_origin acc r :
  remoteName r = "origin" → applyRemote acc r = (acc.1, Some (owner r)).
Proof. intros Hr. unfold applyRemote. by rewrite Hr. Qed.

Lemma applyRemote_other acc r :
  remoteName r ≠ "upstream" → remoteName r ≠ "origin" →
  applyRemote acc r = acc.
Proof.
  intros Hu Ho. unfold applyRemote.
  destruct (String.eqb_spec (remoteName r) "upstream"); [done|].
  by destruct (String.eqb_spec (remoteName r) "origin").
Qed.

Lemma applyRemote_fork config :
  NoDup (remoteName <$> config) →
  ∀ acc u o, u ∈ config → o ∈ config →
  remoteName u = "upstream" → remoteName o = "origin" →
  foldl applyRemote acc config =
  (Some (owner u +:+ "/" +:+ repo u), Some (owner o)).
Proof.
  intros Hnd acc u o Hu Ho Hun Hon.
  assert (∀ x y, x ∈ config → y ∈ config → remoteName x = remoteName y →
            x = y) as Huniq.
  { clear -Hnd. induction config as [|r config IH]; intros x y Hx Hy Heq.
    - by apply elem_of_nil in Hx.
    - rewrite fmap_cons in Hnd. apply NoDup_cons in Hnd as [Hr Hnd].
      apply elem_of_cons in Hx as [->|Hx], Hy as [->|Hy]; [done| | |by apply IH].
      + destruct Hr. rewrite Heq. by apply list_elem_of_fmap_2.
      + destruct Hr. rewrite <- Heq. by apply list_elem_of_fmap_2. }
  assert (∀ l acc, (∀ x, x ∈ l → x ∈ config) →
            (foldl applyRemote acc l).1 =
              (if bool_decide (u ∈ l) then Some (owner u +:+ "/" +:+ repo u)
               else acc.1) ∧
            (foldl applyRemote acc l).2 =
              (if bool_decide (o ∈ l) then Some (owner o) else acc.2))
    as Hfold.
  { induction l as [|x l IH] using rev_ind; intros acc' Hl.
    - rewrite !bool_decide_eq_false_2 by (by intros ?%elem_of_nil). done.
    - rewrite foldl_app. cbn [foldl].
      destruct (IH acc') as [IH1 IH2];
        [intros y Hy; apply Hl, elem_of_app; by left|].
      assert (x ∈ config) as Hx
        by (apply Hl, elem_of_app; right; apply list_elem_of_here).
      destruct (decide (remoteName x = "upstream")) as [Hxu|Hxu].
      + assert (x = u) as -> by (apply Huniq; congruence).
        rewrite applyRemote_upstream by done.
        cbn [fst snd]. rewrite IH2.
        rewrite (bool_decide_eq_true_2 (u ∈ l ++ [u]))
          by (apply elem_of_app; right; apply list_elem_of_here).
        split; [done|].
        rewrite (bool_decide_ext (o ∈ l ++ [u]) (o ∈ l)); [done|].
        rewrite elem_of_app, list_elem_of_singleton.
        split; [|by left]. intros [?|Hou]; [done|congruence].
      + assert (u ≠ x) as Hux by congruence.
        assert (bool_decide (u ∈ l ++ [x]) = bool_decide (u ∈ l)) as ->.
        { apply bool_decide_ext. rewrite elem_of_app, list_elem_of_singleton.
          split; [intros [?|?]; [done|congruence]|by left]. }
        destruct (decide (remoteName x = "origin")) as [Hxo|Hxo].
        * assert (x = o) as -> by (apply Huniq; congruence).
          rewrite applyRemote_origin by done.
          cbn [fst snd]. rewrite IH1.
          rewrite (bool_decide_eq_true_2 (o ∈ l ++ [o]))
            by (apply elem_of_app; right; apply list_elem_of_here).
          done.
        * rewrite applyRemote_other by done.
          assert (bool_decide (o ∈ l ++ [x]) = bool_decide (o ∈ l)) as ->.
          { apply bool_decide_ext. rewrite elem_of_app, list_elem_of_singleton.
            split; [intros [?|?]; [done|congruence]|by left]. }
          done. }
  destruct (Hfold config acc) as [H1 H2]; [done|].
  rewrite !bool_decide_eq_true_2 in H1, H2 by done.
  destruct (foldl applyRemote acc config). simpl in *. by subst.
Qed.

Section Runs.
Context {World : Type} {env : Env World}.

(** The three ways the push step can go. *)
Lemma pushBranch_run cwd b w log r st' :
  pushBranch cwd b (w, log) = (r, st') →
  ∃ evs, st'.2 = log ++ evs ∧
    ((∃ out, r = Ok None ∧ evs = [(plainPush cwd b, Ok out)]) ∨
     (∃ e1 out, r = Ok None ∧
        evs = [(plainPush cwd b, Throw e1); (upstreamPush cwd b, Ok out)]) ∨
     (∃ e1 e2, r = Ok (Some (errorText e2 "Push failed")) ∧
        evs = [(plainPush cwd b, Throw e1);
               (upstreamPush cwd b, Throw e2)])).
Proof.
  unfold pushBranch. unfold_async. intros Hrun.
  next_call Hrun.
  - injection Hrun as <- <-. eexists; split; [done|]. left. by eexists.
  - next_call Hrun; injection Hrun as <- <-.
    + eexists; split; [by rewrite <- app_assoc|]. right; left.
      by do 2 eexists.
    + eexists; split; [by rewrite <- app_assoc|]. right; right.
      by do 2 eexists.
Qed.

(** The two ways the hosting-CLI step can go: the probe is rejected,
    or it resolves and the review-request command is run. *)
Lemma createPR_run cwd base b title body draftFlag w log r st' :
  createPR cwd base b title body draftFlag (w, log) = (r, st') →
  ∃ evs, st'.2 = log ++ evs ∧
    ((∃ e, r = Ok (None, Some (errorText e "PR creation failed")) ∧
        evs = [(ghProbe, Throw e)]) ∨
     (∃ out remotes pr,
        evs = [(ghProbe, Ok out); (listRemotes cwd, remotes);
               (Exec (prCommand base (forkOf remotes) b title body
                        draftFlag) cwd true, pr)] ∧
        r = Ok match pr with
               | Ok url => (Some (Js.trim url), None)
               | Throw e => (None, Some (errorText e "PR creation failed"))
               end)).
Proof.
  unfold createPR. unfold_async. intros Hrun.
  next_call Hrun.
  - next_call Hrun.
    + next_call Hrun; injection Hrun as <- <-;
        (eexists; split; [by rewrite <- !app_assoc|]); right;
        by eexists _, (Ok _), _.
    + next_call Hrun; injection Hrun as <- <-;
        (eexists; split; [by rewrite <- !app_assoc|]); right;
        by eexists _, (Throw _), _.
  - injection Hrun as <- <-. eexists; split; [done|]. left. by eexists.
Qed.

Lemma errorText_nonempty e d :
  d ≠ "" → ∃ c s, errorText e d = String c s.
Proof.
  intros Hd. unfold errorText, Js.or_else.
  destruct (stderr e) as [[|c s]|]; eauto;
    destruct (message e) as [[|c' s']|]; eauto;
    destruct d; eauto; done.
Qed.

Lemma commitChanges_run cwd req w log r st' :
  commitChanges cwd req (w, log) = (r, st') →
  ∃ evs, st'.2 = log ++ evs ∧ Forall quiet evs ∧
    match r with
    | Ok (b, hc, h) => committedBy cwd req b hc h evs
    | Throw _ => True
    end.
Proof.
  unfold commitChanges. unfold_async. intros Hrun.
  next_call Hrun;
    [|injection Hrun as <- <-; eexists; split; [done|];
      split; [by repeat constructor|done]].
  next_call Hrun;
    [|injection Hrun as <- <-; eexists;
      split; [by rewrite <- !app_assoc|];
      split; [by repeat constructor|done]].
  destruct (Js.nonempty (Js.trim a0)) eqn:Hhc.
  - next_call Hrun;
      [|injection Hrun as <- <-; eexists;
        split; [by rewrite <- !app_assoc|];
        split; [by repeat constructor|done]].
    next_call Hrun;
      [|injection Hrun as <- <-; eexists;
        split; [by rewrite <- !app_assoc|];
        split; [by repeat constructor|done]].
    next_call Hrun; injection Hrun as <- <-; eexists;
      (split; [by rewrite <- !app_assoc|]);
      (split; [by repeat constructor|]); [|done].
    exists a, a0. eexists. split; [reflexivity|].
    split; [done|]. split; [done|]. by eexists _, _, _.
  - injection Hrun as <- <-. eexists.
    split; [by rewrite <- !app_assoc|].
    split; [by repeat constructor|].
    by exists a, a0, [].
Qed.

(** Every way a request can go, with the answer and the log. *)
Lemma handler_run req w r evs :
  invoke (createCreatePRHandler req) w = (r, evs) →
  (Js.truthy (worktreePath req) = false ∧
   r = Ok (Failure 400 "worktreePath required") ∧ evs = []) ∨
  (∃ e, r = Ok (Failure 500 (getErrorMessage e)) ∧ Forall quiet evs) ∨
  (∃ b hc h pre,
     let cwd := worktreePath req in
     Forall quiet pre ∧ committedBy cwd req b hc h pre ∧
     ((∃ e1 e2,
         evs = pre ++ [(plainPush cwd b, Throw e1);
                       (upstreamPush cwd b, Throw e2)] ∧
         r = Ok (Failure 500 ("Failed to push branch: " +:+
                              errorText e2 "Push failed"))) ∨
      (∃ pushEvs, pushedBy cwd b pushEvs ∧
         ((∃ e,
             evs = pre ++ pushEvs ++ [(ghProbe, Throw e)] ∧
             r = Ok (Success
                       (mkResult b hc h true None false
                          (Some (errorText e "PR creation failed"))))) ∨
          (∃ out remotes pr,
             evs = pre ++ pushEvs ++
                   [(ghProbe, Ok out); (listRemotes cwd, remotes);
                    (prCall cwd req b (forkOf remotes), pr)] ∧
             r = Ok (Success
                       match pr with
                       | Ok url =>
                           mkResult b hc h true (Some (Js.trim url))
                             (Js.nonempty (Js.trim url)) None
                       | Throw e =>
                           mkResult b hc h true None false
                             (Some (errorText e "PR creation failed"))
                       end)))))).
Proof.
  unfold invoke, createCreatePRHandler, try_catch, bind. intros Hrun.
  destruct (worktreePath req) as [[|c p]|] eqn:Hwt;
    [left; by injection Hrun as <- <-| |left; by injection Hrun as <- <-].
  right.
  destruct (commitChanges _ req (w, [])) as [rc [w1 log1]] eqn:Hc.
  apply commitChanges_run in Hc as (pre & Hlog & Hq & Hpre).
  cbn in Hlog. subst log1.
  destruct rc as [[[b hc] h]|e];
    [|left; injection Hrun as <- <-; by exists e].
  right. exists b, hc, h, pre. cbv zeta. split; [done|]. split; [done|].
  destruct (pushBranch _ b (w1, pre)) as [rp [w2 log2]] eqn:Hp.
  apply pushBranch_run in Hp as (pushEvs & Hlog & Hp).
  cbn in Hlog. subst log2.
  assert ((pushedBy (Some (String c p)) b pushEvs ∧ rp = Ok None) ∨
          (∃ e1 e2, rp = Ok (Some (errorText e2 "Push failed")) ∧
             pushEvs = [(plainPush (Some (String c p)) b, Throw e1);
                        (upstreamPush (Some (String c p)) b, Throw e2)]))
    as [[Hpb ->]|(e1 & e2 & -> & ->)].
  { destruct Hp as [(out & -> & ->)|[(e1 & out & -> & ->)|Hp]].
    - left. split; [left; eauto|done].
    - left. split; [right; eauto|done].
    - by right. }
  2:{ left.
      destruct (errorText_nonempty e2 "Push failed") as (c' & s' & He);
        [done|].
      rewrite He in Hrun. unfold ret in Hrun. injection Hrun as <- <-.
      exists e1, e2. by rewrite He. }
  right. exists pushEvs. split; [done|].
  match type of Hrun with
  | context [createPR ?a ?b ?c ?d ?e ?f ?st] =>
      destruct (createPR a b c d e f st) as [rq [w3 log3]] eqn:Hq';
      apply createPR_run in Hq' as (prEvs & Hlog & Hq')
  end.
  cbn in Hlog. subst log3. unfold ret in Hrun.
  destruct Hq' as [(e & -> & ->)|(o & remotes & pr & -> & ->)].
  - left. exists e. injection Hrun as <- <-.
    destruct (errorText_nonempty e "PR creation failed")
      as (c' & s' & He); [done|].
    rewrite He. split; [by rewrite <- app_assoc|done].
  - right. exists o, remotes, pr.
    split; [destruct pr; injection Hrun as <- <-;
            by rewrite <- app_assoc|].
    destruct pr as [url|e]; injection Hrun as <- <-.
    + by destruct (Js.trim url).
    + destruct (errorText_nonempty e "PR creation failed")
        as (c' & s' & He); [done|]. by rewrite He.
Qed.

Lemma pushedBy_resolved cwd b pushEvs :
  pushedBy cwd b pushEvs →
  ∃ pev out, pev ∈ pushEvs ∧ isPushCall pev.1 = true ∧ pev.2 = Ok out.
Proof.
  intros [(out & ->)|(e1 & out & ->)].
  - exists (plainPush cwd b, Ok out), out.
    split; [apply list_elem_of_here|done].
  - exists (upstreamPush cwd b, Ok out), out.
    split; [apply list_elem_of_further, list_elem_of_here|done].
Qed.

(** What the events of a push step that went through look like. *)
Lemma pushedBy_elem cwd b pushEvs ev :
  pushedBy cwd b pushEvs → ev ∈ pushEvs →
  isPRCall ev.1 = false ∧ ev.1 ≠ ghProbe ∧
  (∀ cwd', ev.1 ≠ listRemotes cwd') ∧
  (∀ cwd' b' e, ev ≠ (upstreamPush cwd' b', Throw e)).
Proof.
  intros [(out & ->)|(e1 & out & ->)] Hin.
  - apply list_elem_of_singleton in Hin as ->.
    repeat split; try done; by intros.
  - apply elem_of_cons in Hin as [->|Hin];
      [|apply list_elem_of_singleton in Hin as ->];
      repeat split; try done; by intros.
Qed.

Lemma quiet_elem_class pre ev :
  Forall quiet pre → ev ∈ pre →
  isPRCall ev.1 = false ∧ isPushCall ev.1 = false ∧ ev.1 ≠ ghProbe ∧
  ∀ cwd, ev.1 ≠ listRemotes cwd.
Proof. intros Hq Hin. by apply commit_step_call, (quiet_elem pre). Qed.

(** C1, first half: both pushes rejected. *)
Lemma both_pushes_rejected req w r evs cwd b e2 :
  invoke (createCreatePRHandler req) w = (r, evs) →
  (upstreamPush cwd b, Throw e2) ∈ evs →
  r = Ok (Failure 500 ("Failed to push branch: " +:+
                       errorText e2 "Push failed")) ∧
  ∀ ev, ev ∈ evs → isPRCall ev.1 = false.
Proof.
  intros Hrun Hin. apply handler_run in Hrun.
  destruct Hrun as [(_ & -> & ->)|[(e & -> & Hq)|
    (b0 & hc & h & pre & Hq & Hpre & Hrun)]].
  - by apply elem_of_nil in Hin.
  - by apply (quiet_elem_class _ _ Hq) in Hin as (_ & ? & _).
  - cbv zeta in Hrun.
    destruct Hrun as [(e1 & e2' & -> & ->)|(pushEvs & Hpb & Hrun)].
    + apply elem_of_app in Hin as [Hin|Hin];
        [by apply (quiet_elem_class _ _ Hq) in Hin as (_ & ? & _)|].
      apply elem_of_cons in Hin as [Hin|Hin]; [done|].
      apply list_elem_of_singleton in Hin. injection Hin as _ _ <-.
      split; [done|]. intros ev Hev.
      apply elem_of_app in Hev as [Hev|Hev];
        [by apply (quiet_elem_class _ _ Hq) in Hev as (? & _)|].
      apply elem_of_cons in Hev as [->|Hev]; [done|].
      by apply list_elem_of_singleton in Hev as ->.
    + exfalso.
      assert (∃ prEvs, evs = pre ++ pushEvs ++ prEvs ∧
                ∀ ev, ev ∈ prEvs → isPushCall ev.1 = false)
        as (prEvs & -> & Hpr).
      { destruct Hrun as [(e & -> & _)|(out & remotes & pr & -> & _)];
          eexists; (split; [done|]); intros ev Hev.
        - by apply list_elem_of_singleton in Hev as ->.
        - pose proof (prCall_class (worktreePath req) req b0
                        (forkOf remotes)) as (_ & ? & _).
          repeat (apply elem_of_cons in Hev as [->|Hev]; [done|]).
          by apply elem_of_nil in Hev. }
      apply elem_of_app in Hin as [Hin|Hin];
        [by apply (quiet_elem_class _ _ Hq) in Hin as (_ & ? & _)|].
      apply elem_of_app in Hin as [Hin|Hin].
      * apply (pushedBy_elem _ _ _ _ Hpb) in Hin as (_ & _ & _ & Hne).
        by apply (Hne cwd b e2).
      * by apply Hpr in Hin.
Qed.

Lemma last_position {A} (P : A → bool) (l : list A) x p ev q :
  l ++ [x] = p ++ ev :: q → P ev = true →
  Forall (λ a, P a = false) l → p = l.
Proof.
  revert p. induction l as [|a l IH]; intros p Heq Hev Hl.
  - destruct p as [|a' p]; [done|].
    injection Heq as _ Heq. by destruct p.
  - apply Forall_cons in Hl as [Ha Hl].
    destruct p as [|a' p]; injection Heq as -> Heq; [congruence|].
    f_equal. by apply IH.
Qed.

(** C1, second half: a review request comes after a resolved push. *)
Lemma pr_after_push req w r evs pre' ev post :
  invoke (createCreatePRHandler req) w = (r, evs) →
  evs = pre' ++ ev :: post → isPRCall ev.1 = true →
  ∃ pev out, pev ∈ pre' ∧ isPushCall pev.1 = true ∧ pev.2 = Ok out.
Proof.
  intros Hrun Hevs Hpr. apply handler_run in Hrun.
  assert (ev ∈ evs) as Hin
    by (rewrite Hevs; apply elem_of_app; right; apply list_elem_of_here).
  destruct Hrun as [(_ & _ & ->)|[(e & _ & Hq)|
    (b0 & hc & h & pre & Hq & Hpre & Hrun)]].
  - by apply elem_of_nil in Hin.
  - apply (quiet_elem_class _ _ Hq) in Hin as (? & _). congruence.
  - cbv zeta in Hrun.
    destruct Hrun as [(e1 & e2' & -> & _)|(pushEvs & Hpb & Hrun)].
    + apply elem_of_app in Hin as [Hin|Hin];
        [apply (quiet_elem_class _ _ Hq) in Hin as (? & _); congruence|].
      apply elem_of_cons in Hin as [->|Hin]; [done|].
      by apply list_elem_of_singleton in Hin as ->.
    + assert (∀ ev, ev ∈ pre ++ pushEvs → isPRCall ev.1 = false) as Hno.
      { intros ev' [Hev|Hev]%elem_of_app.
        - by apply (quiet_elem_class _ _ Hq) in Hev as (? & _).
        - by apply (pushedBy_elem _ _ _ _ Hpb) in Hev as (? & _). }
      destruct Hrun as [(e & -> & _)|(out & remotes & pr & Hevs' & _)].
      * rewrite app_assoc in Hin.
        apply elem_of_app in Hin as [Hin|Hin];
          [apply Hno in Hin; congruence|].
        by apply list_elem_of_singleton in Hin as ->.
      * destruct (pushedBy_resolved _ _ _ Hpb)
          as (pev & pout & Hpev & Hpc & Hpo).
        exists pev, pout. split; [|done].
        set (l := (pre ++ pushEvs) ++
                  [(ghProbe, Ok out);
                   (listRemotes (worktreePath req), remotes)]).
        assert (pre' = l) as ->.
        { apply (last_position (λ ev, isPRCall ev.1) l
                   (prCall (worktreePath req) req b0 (forkOf remotes), pr)
                   pre' ev post).
          - etrans; [|exact Hevs]. rewrite Hevs'. subst l.
            by rewrite <- !app_assoc.
          - done.
          - subst l. apply Forall_app. split; [by apply Forall_forall|].
            by repeat constructor. }
        subst l. apply elem_of_app. left. apply elem_of_app. by right.
Qed.

(** C1: when the plain push and the retry are both rejected, the answer
    is the failure envelope with the text of the second error and no
    review-request command has been run; in every run a
    review-request command comes after a push that resolved, and an
    answer with [prCreated] set comes with such a command. *)
Theorem push_failure_is_fatal req w r evs :
  invoke (createCreatePRHandler req) w = (r, evs) →
  (∀ cwd b e1 e2,
     (plainPush cwd b, Throw e1) ∈ evs →
     (upstreamPush cwd b, Throw e2) ∈ evs →
     r = Ok (Failure 500 ("Failed to push branch: " +:+
                          errorText e2 "Push failed")) ∧
     ∀ ev, ev ∈ evs → isPRCall ev.1 = false) ∧
  (∀ pre ev post,
     evs = pre ++ ev :: post → isPRCall ev.1 = true →
     ∃ pev out, pev ∈ pre ∧ isPushCall pev.1 = true ∧ pev.2 = Ok out) ∧
  (∀ res,
     r = Ok (Success res) → prCreated res = true →
     ∃ pre ev url,
       evs = pre ++ [ev] ∧ isPRCall ev.1 = true ∧ ev.2 = Ok url).
Proof.
  intros Hrun. split; [|split].
  - intros cwd b e1 e2 _ Hin. by apply (both_pushes_rejected req w _ _ cwd b).
  - intros pre ev post. by apply (pr_after_push req w r).
  - intros res -> Hcreated. apply handler_run in Hrun.
    destruct Hrun as [(_ & [=] & _)|[(e & [=] & _)|
      (b0 & hc & h & pre & Hq & Hpre & Hrun)]].
    cbv zeta in Hrun.
    destruct Hrun as [(e1 & e2' & _ & [=])|(pushEvs & Hpb & Hrun)].
    destruct Hrun as [(e & _ & [= ->])|(out & remotes & pr & -> & Hres)];
      [done|].
    destruct pr as [url|e]; injection Hres as ->; [|done].
    eexists _, _, url. split; [|split].
    + rewrite !app_assoc.
      change [(ghProbe, Ok out); (listRemotes (worktreePath req), remotes);
              (?c, ?pr)]
        with ([(ghProbe, Ok out);
               (listRemotes (worktreePath req), remotes)] ++ [(c, pr)]).
      by rewrite app_assoc.
    + apply prCall_class.
    + done.
Qed.

(** C2 (amended): when the probe for the hosting CLI is rejected after
    a push that resolved, no review-request command is run and the
    answer is a success envelope with [pushed] set, [prCreated] unset,
    no [prUrl], and [prError] holding the text of the probe's error
    (its [stderr], else its [message], else "PR creation failed"): an
    absent tool is reported the way a failing one is. *)
Theorem absent_cli_reported_as_error req w r evs e :
  invoke (createCreatePRHandler req) w = (r, evs) →
  (ghProbe, Throw e) ∈ evs →
  (∃ b hc h,
     r = Ok (Success
               (mkResult b hc h true None false
                  (Some (errorText e "PR creation failed"))))) ∧
  (∃ c s, errorText e "PR creation failed" = String c s) ∧
  (∀ ev, ev ∈ evs → isPRCall ev.1 = false) ∧
  (∃ pev out, pev ∈ evs ∧ isPushCall pev.1 = true ∧ pev.2 = Ok out).
Proof.
  intros Hrun Hin. apply handler_run in Hrun.
  destruct Hrun as [(_ & _ & ->)|[(e' & _ & Hq)|
    (b0 & hc & h & pre & Hq & Hpre & Hrun)]].
  - by apply elem_of_nil in Hin.
  - by apply (quiet_elem_class _ _ Hq) in Hin as (_ & _ & ? & _).
  - cbv zeta in Hrun.
    destruct Hrun as [(e1 & e2' & -> & _)|(pushEvs & Hpb & Hrun)].
    { apply elem_of_app in Hin as [Hin|Hin];
        [by apply (quiet_elem_class _ _ Hq) in Hin as (_ & _ & ? & _)|].
      apply elem_of_cons in Hin as [Hin|Hin]; [done|].
      by apply list_elem_of_singleton in Hin. }
    assert (∀ ev, ev ∈ pre ++ pushEvs →
              isPRCall ev.1 = false ∧ ev.1 ≠ ghProbe) as Hno.
    { intros ev' [Hev|Hev]%elem_of_app.
      - by apply (quiet_elem_class _ _ Hq) in Hev as (? & _ & ? & _).
      - by apply (pushedBy_elem _ _ _ _ Hpb) in Hev as (? & ? & _). }
    destruct Hrun as [(e' & -> & ->)|(out & remotes & pr & -> & _)];
      rewrite app_assoc in Hin |- *.
    + apply elem_of_app in Hin as [Hin|Hin];
        [by apply Hno in Hin as [_ ?]|].
      apply list_elem_of_singleton in Hin. injection Hin as <-.
      split; [by eexists _, _, _|].
      split; [by apply errorText_nonempty|]. split.
      * intros ev [Hev|Hev]%elem_of_app; [by apply Hno in Hev as [? _]|].
        by apply list_elem_of_singleton in Hev as ->.
      * destruct (pushedBy_resolved _ _ _ Hpb) as (pev & pout & ? & ? & ?).
        exists pev, pout. split; [|done].
        apply elem_of_app. left. apply elem_of_app. by right.
    + exfalso. apply elem_of_app in Hin as [Hin|Hin];
        [by apply Hno in Hin as [_ ?]|].
      apply elem_of_cons in Hin as [Hin|Hin]; [done|].
      apply elem_of_cons in Hin as [Hin|Hin]; [done|].
      apply list_elem_of_singleton in Hin.
      destruct (prCall_class (worktreePath req) req b0 (forkOf remotes))
        as (_ & _ & _ & Hne & _).
      apply Hne. congruence.
Qed.

(** C7: when the review-request command is rejected, the answer is
    still a success envelope: it carries the branch, whether a commit
    was made and its hash as the commit step found them, [pushed] set,
    [prCreated] unset and the text of the error in [prError]; the
    rejected command is the last thing the handler ran, after a commit
    step and a push that went through. *)
Theorem pr_failure_is_partial_success req w r evs c e :
  invoke (createCreatePRHandler req) w = (r, evs) →
  (c, Throw e) ∈ evs → isPRCall c = true →
  ∃ b hc h pre pushEvs out remotes,
    r = Ok (Success
              (mkResult b hc h true None false
                 (Some (errorText e "PR creation failed")))) ∧
    committedBy (worktreePath req) req b hc h pre ∧
    pushedBy (worktreePath req) b pushEvs ∧
    evs = pre ++ pushEvs ++
          [(ghProbe, Ok out); (listRemotes (worktreePath req), remotes);
           (c, Throw e)].
Proof.
  intros Hrun Hin Hpr. apply handler_run in Hrun.
  destruct Hrun as [(_ & _ & ->)|[(e' & _ & Hq)|
    (b0 & hc & h & pre & Hq & Hpre & Hrun)]].
  - by apply elem_of_nil in Hin.
  - apply (quiet_elem_class _ _ Hq) in Hin as (? & _). simpl in *.
    congruence.
  - cbv zeta in Hrun.
    destruct Hrun as [(e1 & e2' & -> & _)|(pushEvs & Hpb & Hrun)].
    { apply elem_of_app in Hin as [Hin|Hin];
        [apply (quiet_elem_class _ _ Hq) in Hin as (? & _); simpl in *;
         congruence|].
      apply elem_of_cons in Hin as [Hin|Hin];
        [injection Hin as -> _; done|].
      apply list_elem_of_singleton in Hin. injection Hin as -> _. done. }
    assert (∀ ev, ev ∈ pre ++ pushEvs → isPRCall ev.1 = false) as Hno.
    { intros ev' [Hev|Hev]%elem_of_app.
      - by apply (quiet_elem_class _ _ Hq) in Hev as (? & _).
      - by apply (pushedBy_elem _ _ _ _ Hpb) in Hev as (? & _). }
    destruct Hrun as [(e' & -> & _)|(out & remotes & pr & -> & ->)];
      rewrite app_assoc in Hin.
    + exfalso. apply elem_of_app in Hin as [Hin|Hin];
        [apply Hno in Hin; simpl in *; congruence|].
      apply list_elem_of_singleton in Hin. injection Hin as -> _. done.
    + apply elem_of_app in Hin as [Hin|Hin];
        [apply Hno in Hin; simpl in *; congruence|].
      apply elem_of_cons in Hin as [Hin|Hin];
        [injection Hin as -> _; done|].
      apply elem_of_cons in Hin as [Hin|Hin];
        [injection Hin as -> _; done|].
      apply list_elem_of_singleton in Hin. injection Hin as -> <-.
      by exists b0, hc, h, pre, pushEvs, out, remotes.
Qed.


End Runs.

Lemma push_failure_is_fatal_witness :
  (invoke (createCreatePRHandler (env := scripted) Scenarios.request)
     Scenarios.pushRejected).1 =
  Ok (Failure 500 "Failed to push branch: remote: Permission denied").
Proof.
  destruct (invoke (createCreatePRHandler (env := scripted) Scenarios.request)
              Scenarios.pushRejected) as [r evs] eqn:Hrun.
  destruct (push_failure_is_fatal (env := scripted) _ _ _ _ Hrun) as [Hfatal _].
  vm_compute in Hrun. injection Hrun as <- <-.
  destruct (Hfatal (Some "/repo/.worktrees/feat") "feat"
              (mkError
                 (Some "fatal: 'origin' does not appear to be a git repository")
                 (Some "Command failed: git push -u origin feat"))
              (mkError (Some "remote: Permission denied")
                 (Some "Command failed: git push --set-upstream origin feat")))
    as [Hr _]; [here|here|].
  exact Hr.
Defined.

(** C2, as stated, fails: with no [gh] on the path the push goes through
    and the probe is rejected, and the answer carries a [prError]. *)
Lemma absent_cli_sets_prError :
  invoke (createCreatePRHandler (env := scripted) Scenarios.request)
    Scenarios.ghAbsent =
  (Ok (Success
         (mkResult "feat" false None true None false
            (Some "Command failed: command -v gh"))),
   [(Exec "git rev-parse --abbrev-ref HEAD" (Some "/repo/.worktrees/feat")
       true, Ok ("feat" +:+ Scenarios.nl));
    (Exec "git status --porcelain" (Some "/repo/.worktrees/feat") true,
     Ok "");
    (plainPush (Some "/repo/.worktrees/feat") "feat", Ok "");
    (ghProbe, Scenarios.rejected "" "Command failed: command -v gh")]).
Proof. vm_compute. reflexivity. Qed.

Lemma absent_cli_reported_as_error_witness :
  ∃ b hc h,
    (invoke (createCreatePRHandler (env := scripted) Scenarios.request)
       Scenarios.ghAbsent).1 =
    Ok (Success
          (mkResult b hc h true None false
             (Some "Command failed: command -v gh"))).
Proof.
  destruct (invoke (createCreatePRHandler (env := scripted) Scenarios.request)
              Scenarios.ghAbsent) as [r evs] eqn:Hrun.
  destruct (absent_cli_reported_as_error (env := scripted) _ _ r evs
              (mkError (Some "") (Some "Command failed: command -v gh"))
              Hrun) as [Hres _].
  - vm_compute in Hrun. injection Hrun as <- <-. here.
  - exact Hres.
Defined.

Lemma pr_failure_is_partial_success_witness :
  let run := invoke (createCreatePRHandler (env := scripted) Scenarios.request)
               Scenarios.prRejected in
  ∃ b hc h pre pushEvs out remotes c,
    run.1 =
    Ok (Success
          (mkResult b hc h true None false
             (Some "pull request create failed: No commits between main and feat"))) ∧
    run.2 = pre ++ pushEvs ++
            [(ghProbe, Ok out);
             (listRemotes (Some "/repo/.worktrees/feat"), remotes); c].
Proof.
  cbv zeta.
  destruct (invoke (createCreatePRHandler (env := scripted) Scenarios.request)
              Scenarios.prRejected) as [r evs] eqn:Hrun.
  pose proof Hrun as Hval. vm_compute in Hval. injection Hval as Hr Hevs.
  destruct (pr_failure_is_partial_success (env := scripted) _ _ r evs
              (prCall (Some "/repo/.worktrees/feat") Scenarios.request
                 "feat" (Some "org/repo", Some "alice"))
              (mkError (Some "pull request create failed: No commits between main and feat")
                 (Some "Command failed: gh pr create")) Hrun)
    as (b & hc & h & pre & pushEvs & out & remotes & Hres & _ & _ & Hlog).
  - rewrite <- Hevs. here.
  - reflexivity.
  - exists b, hc, h, pre, pushEvs, out, remotes. eexists.
    split; [exact Hres|exact Hlog].
Defined.



End CreatePRFacts.

(** ** Properties of the isolation registry *)

Module WorktreeFacts.
Import Host Worktree.

(** *** The loop over the lines *)

Lemma recordLine_inv line :
  recordLine line = true →
  Js.nonempty line = true ∧ Js.noNewline line = true ∧
  (isWorktreeLine line = true → Js.nonempty (Js.slice 9 line) = true) ∧
  (isBranchLine line = true →
   Js.nonempty (Js.replace_first "refs/heads/" "" (Js.slice 7 line)) = true).
Proof.
  unfold recordLine. rewrite !andb_true_iff.
  intros [[[? ?] Hw] Hb]. repeat split; try done.
  - intros Hi. by rewrite Hi in Hw.
  - intros Hi. by rewrite Hi in Hb.
Qed.

(** A record line pushes nothing; a worktree line sets the path and a
    branch line the branch. *)
Lemma parseLine_record st line :
  recordLine line = true →
  worktrees (parseLine st line) = worktrees st ∧
  isFirst (parseLine st line) = isFirst st ∧
  Js.truthy (currentPath (parseLine st line)) =
    isWorktreeLine line || Js.truthy (currentPath st) ∧
  Js.truthy (currentBranch (parseLine st line)) =
    isBranchLine line || Js.truthy (currentBranch st).
Proof.
  intros Hl. apply recordLine_inv in Hl as (Hne & _ & Hw & Hbr).
  unfold parseLine, isBranchLine, isWorktreeLine in *.
  destruct (Js.startsWith line "worktree ") eqn:Ew;
    cbn [worktrees isFirst currentPath currentBranch negb andb orb] in *.
  { specialize (Hw eq_refl). by destruct (Js.slice 9 line). }
  destruct (Js.startsWith line "branch ") eqn:Eb;
    cbn [worktrees isFirst currentPath currentBranch negb andb orb] in *.
  { specialize (Hbr eq_refl). by destruct (Js.replace_first _ _ _). }
  by destruct line.
Qed.

Lemma parse_block (block : list string) : ∀ st,
  forallb recordLine block = true →
  worktrees (foldl parseLine st block) = worktrees st ∧
  isFirst (foldl parseLine st block) = isFirst st ∧
  Js.truthy (currentPath (foldl parseLine st block)) =
    existsb isWorktreeLine block || Js.truthy (currentPath st) ∧
  Js.truthy (currentBranch (foldl parseLine st block)) =
    existsb isBranchLine block || Js.truthy (currentBranch st).
Proof.
  induction block as [|line block IH]; intros st Hb; [done|].
  simpl in Hb. apply andb_true_iff in Hb as [Hl Hb].
  destruct (parseLine_record st line Hl) as (H1 & H2 & H3 & H4).
  destruct (IH (parseLine st line) Hb) as (I1 & I2 & I3 & I4).
  cbn [foldl existsb].
  rewrite I1, I2, I3, I4, H1, H2, H3, H4.
  repeat split; try done.
  - by rewrite orb_assoc, (orb_comm (existsb _ _)).
  - by rewrite orb_assoc, (orb_comm (existsb _ _)).
Qed.

(** A blank line after a well-formed block pushes one entry. *)
Lemma parse_record (block : list string) st :
  recordBlock block = true →
  currentPath st = None → currentBranch st = None →
  ∃ p b,
    foldl parseLine st (block ++ [""]) =
    mkParseState
      (worktrees st ++ [mkWorktreeInfo p b (isFirst st) None None None])
      None None false.
Proof.
  unfold recordBlock. rewrite !andb_true_iff. intros [[Hb Hw] Hbr] Hp Hr.
  rewrite foldl_app. cbn [foldl].
  destruct (parse_block block st Hb) as (Hwt & Hf & Hpath & Hbranch).
  rewrite Hw in Hpath. rewrite Hbr in Hbranch. simpl in *.
  unfold parseLine at 1. simpl.
  destruct (currentPath (foldl parseLine st block)) as [[|a p]|]; try done.
  destruct (currentBranch (foldl parseLine st block)) as [[|b r]|]; try done.
  rewrite Hwt, Hf. by eexists _, _.
Qed.

Lemma parse_blocks (blocks : list (list string)) : ∀ st,
  Forall (λ block, recordBlock block = true) blocks →
  currentPath st = None → currentBranch st = None →
  ∃ entries,
    foldl parseLine st (listingLines blocks) =
    mkParseState (worktrees st ++ entries) None None
      (match blocks with [] => isFirst st | _ => false end) ∧
    isMain <$> entries = mainFlags (isFirst st) (List.length blocks).
Proof.
  induction blocks as [|block blocks IH]; intros st Hbs Hp Hr.
  - exists []. simpl. rewrite app_nil_r. split; [|done].
    destruct st; simpl in *; by subst.
  - apply Forall_cons in Hbs as [Hb Hbs].
    cbn [listingLines flat_map]. rewrite foldl_app.
    destruct (parse_record block st Hb Hp Hr) as (p & b & ->).
    destruct (IH (mkParseState
                    (worktrees st ++
                     [mkWorktreeInfo p b (isFirst st) None None None])
                    None None false) Hbs eq_refl eq_refl)
      as (entries & Hfold & Hflags).
    fold (listingLines blocks). rewrite Hfold. simpl.
    exists (mkWorktreeInfo p b (isFirst st) None None None :: entries).
    split.
    + rewrite <- app_assoc. simpl. by destruct blocks.
    + rewrite fmap_cons, Hflags. simpl. by destruct blocks.
Qed.

Lemma parse_blank_lines (k : nat) : ∀ st,
  currentPath st = None → currentBranch st = None →
  foldl parseLine st (replicate k "") = st.
Proof.
  induction k as [|k IH]; intros st Hp Hr; [done|].
  simpl. unfold parseLine at 2. simpl. rewrite Hp.
  rewrite IH; [|done..]. destruct st; simpl in *; by subst.
Qed.

Lemma recordBlock_lines blocks :
  Forall (λ block, recordBlock block = true) blocks →
  Forall (λ l, Js.noNewline l = true) (listingLines blocks).
Proof.
  induction 1 as [|block blocks Hb _ IH]; [done|].
  cbn [listingLines flat_map]. apply Forall_app. split; [|done].
  apply Forall_app. split; [|by repeat constructor].
  unfold recordBlock in Hb. rewrite !andb_true_iff in Hb.
  destruct Hb as [[Hb _] _]. apply Forall_forall. intros l Hl.
  rewrite forallb_forall in Hb. apply list_elem_of_In, Hb in Hl.
  by apply recordLine_inv in Hl as (_ & ? & _).
Qed.

(** The parser on a well-formed listing. *)
Lemma parse_listing blocks extra :
  Forall (λ block, recordBlock block = true) blocks →
  let entries := parseWorktreeList (listing blocks extra) in
  List.length entries = List.length blocks ∧
  isMain <$> entries = mainFlags true (List.length blocks).
Proof.
  intros Hbs. cbv zeta. unfold parseWorktreeList, listing.
  destruct (decide (listingLines blocks ++ replicate extra "" = [])) as [E|E].
  - apply app_eq_nil in E as [E1 E2]. destruct blocks as [|b bs]; [|
      by destruct b]. rewrite E2. done.
  - rewrite JsFacts.split_concat; [|done|].
    2:{ apply Forall_app. split; [by apply recordBlock_lines|].
        by apply Forall_replicate. }
    rewrite foldl_app.
    destruct (parse_blocks blocks initialParseState Hbs eq_refl eq_refl)
      as (entries & -> & Hflags).
    rewrite parse_blank_lines by done. simpl.
    split; [|done].
    apply (f_equal List.length) in Hflags.
    rewrite length_fmap in Hflags. rewrite Hflags.
    destruct blocks; simpl; [done|]. by rewrite length_replicate.
Qed.

(** The parser never fills in a detail. *)
Lemma parseLine_bare st line :
  Forall bare (worktrees st) → Forall bare (worktrees (parseLine st line)).
Proof.
  intros Hst. unfold parseLine.
  destruct (Js.startsWith line "worktree "); [done|].
  destruct (Js.startsWith line "branch "); [done|].
  destruct (String.eqb line ""); [|done].
  destruct (currentPath st) as [[|a p]|]; try done.
  destruct (currentBranch st) as [[|b r]|]; try done.
  simpl. apply Forall_app. split; [done|]. by repeat constructor.
Qed.

Lemma parseWorktreeList_bare stdout : Forall bare (parseWorktreeList stdout).
Proof.
  unfold parseWorktreeList.
  assert (∀ lines st, Forall bare (worktrees st) →
            Forall bare (worktrees (foldl parseLine st lines))) as Hinv.
  { induction lines as [|line lines IH]; intros st Hst; [done|].
    simpl. by apply IH, parseLine_bare. }
  by apply Hinv.
Qed.

(** *** The handlers, run *)

Section Runs.
Context {World : Type} {env : Env World}.

Lemma detailsOf_keeps wt evs wt' :
  detailsOf wt evs wt' →
  path wt' = path wt ∧ branch wt' = branch wt ∧ isMain wt' = isMain wt.
Proof. by destruct 1. Qed.

Lemma detailsOf_events wt evs wt' ev p :
  detailsOf wt evs wt' → ev ∈ evs → ev.1 ≠ listCall p.
Proof.
  destruct 1; intros Hin.
  - by apply list_elem_of_singleton in Hin as ->.
  - apply elem_of_cons in Hin as [->|Hin]; [done|].
    by apply list_elem_of_singleton in Hin as ->.
Qed.

Lemma addDetails_run wt w log r st' :
  addDetails wt (w, log) = (r, st') →
  ∃ evs wt', r = Ok wt' ∧ st'.2 = log ++ evs ∧ detailsOf wt evs wt'.
Proof.
  unfold addDetails, try_catch, bind, ret, call. intros Hrun.
  destruct (perform (statusCall wt) w) as [[status|e] w1] eqn:E1.
  - match type of Hrun with
    | context [perform ?c w1] =>
        destruct (perform c w1) as [[revList|e] w2] eqn:E2
    end; injection Hrun as <- <-.
    + eexists _, _. split; [done|]. split; [by rewrite <- app_assoc|].
      apply (details_added wt status (Ok revList)).
    + eexists _, _. split; [done|]. split; [by rewrite <- app_assoc|].
      apply (details_added wt status (Throw e)).
  - injection Hrun as <- <-. eexists _, _. split; [done|]. split; [done|].
    apply details_skipped.
Qed.

Lemma forEach_addDetails_run wts : ∀ w log r st',
  forEach addDetails wts (w, log) = (r, st') →
  ∃ segs wts', r = Ok wts' ∧ st'.2 = log ++ List.concat segs ∧
    Forall3 detailsOf wts segs wts'.
Proof.
  induction wts as [|wt wts IH]; intros w log r st' Hrun.
  - injection Hrun as <- <-. exists [], []. simpl. rewrite app_nil_r.
    repeat split. constructor.
  - cbn [forEach] in Hrun. unfold bind at 1 in Hrun.
    destruct (addDetails wt (w, log)) as [r1 [w1 log1]] eqn:E1.
    apply addDetails_run in E1 as (evs & wt' & -> & Hlog & Hd).
    cbn in Hlog. subst log1. unfold bind at 1 in Hrun.
    destruct (forEach addDetails wts (w1, log ++ evs)) as [r2 [w2 log2]] eqn:E2.
    apply IH in E2 as (segs & wts' & -> & Hlog & Hds).
    cbn in Hlog. subst log2. injection Hrun as <- <-.
    exists (evs :: segs), (wt' :: wts'). simpl.
    split; [done|]. split; [by rewrite app_assoc|]. by constructor.
Qed.

(** Every way a list request can go. *)
Lemma createListHandler_run body w r evs :
  invoke (createListHandler body) w = (r, evs) →
  (Js.truthy (list_projectPath body) = false ∧
   r = Ok (Failure 400 "projectPath required") ∧ evs = []) ∨
  (∃ e, r = Ok (Failure 500 (getErrorMessage e)) ∧
     (evs = [] ∨ ∃ p, evs = [(listCall p, Throw e)])) ∨
  (r = Ok (Success []) ∧ evs = []) ∨
  (∃ p stdout,
     list_projectPath body = Some p ∧
     ((default false (includeDetails body) = false ∧
       evs = [(listCall p, Ok stdout)] ∧
       r = Ok (Success (parseWorktreeList stdout))) ∨
      (∃ segs wts,
         default false (includeDetails body) = true ∧
         evs = (listCall p, Ok stdout) :: List.concat segs ∧
         Forall3 detailsOf (parseWorktreeList stdout) segs wts ∧
         r = Ok (Success wts)))).
Proof.
  unfold invoke, createListHandler, try_catch, bind, ret, isGitRepoM, call.
  intros Hrun.
  destruct (list_projectPath body) as [[|c p]|] eqn:Hp;
    [left; by injection Hrun as <- <-| |left; by injection Hrun as <- <-].
  right.
  destruct (isGitRepo (String c p) w) as [[[|]|e] w1] eqn:E1; simpl in Hrun.
  3:{ left. injection Hrun as <- <-. exists e. split; [done|by left]. }
  2:{ right; left. by injection Hrun as <- <-. }
  destruct (perform (listCall (String c p)) w1) as [[stdout|e] w2] eqn:E2.
  2:{ left. injection Hrun as <- <-. exists e. split; [done|]. right.
      by eexists. }
  right; right. exists (String c p), stdout. split; [done|].
  destruct (default false (includeDetails body)) eqn:Hd.
  - right.
    match type of Hrun with
    | context [forEach addDetails ?l ?st] =>
        destruct (forEach addDetails l st) as [r3 [w3 log3]] eqn:E3
    end.
    apply forEach_addDetails_run in E3 as (segs & wts & -> & Hlog & Hds).
    cbn in Hlog. subst log3. injection Hrun as <- <-.
    by exists segs, wts.
  - left. by injection Hrun as <- <-.
Qed.

Lemma Forall3_details_keeps parsed segs wts :
  Forall3 detailsOf parsed segs wts →
  List.length wts = List.length parsed ∧ isMain <$> wts = isMain <$> parsed.
Proof.
  induction 1 as [|wt seg wt' parsed segs wts Hd _ [IHl IHm]]; [done|].
  apply detailsOf_keeps in Hd as (_ & _ & Hm).
  split; [simpl; by rewrite IHl|]. by rewrite !fmap_cons, IHm, Hm.
Qed.

Lemma listCall_in_details parsed segs wts ev p :
  Forall3 detailsOf parsed segs wts → ev ∈ List.concat segs →
  ev.1 ≠ listCall p.
Proof.
  induction 1 as [|wt seg wt' parsed segs wts Hd _ IH]; simpl.
  - by intros ?%elem_of_nil.
  - intros [Hin|Hin]%elem_of_app; [|by apply IH].
    by apply (detailsOf_events _ _ _ _ _ Hd).
Qed.

(** C5: when the listing command prints [N] well-formed record blocks,
    the handler answers with exactly [N] entries; the first is flagged as
    the main copy and no other is. *)
Theorem list_counts_blocks body w r evs p blocks extra :
  invoke (createListHandler body) w = (r, evs) →
  (listCall p, Ok (listing blocks extra)) ∈ evs →
  Forall (λ block, recordBlock block = true) blocks →
  ∃ wts,
    r = Ok (Success wts) ∧
    List.length wts = List.length blocks ∧
    isMain <$> wts = mainFlags true (List.length blocks).
Proof.
  intros Hrun Hin Hbs.
  destruct (parse_listing blocks extra Hbs) as [Hlen Hflags].
  apply createListHandler_run in Hrun.
  destruct Hrun as [(_ & _ & ->)|[(e & _ & [->|(p' & ->)])|[(_ & ->)|
    (p' & stdout & _ & [(_ & -> & ->)|(segs & wts & _ & -> & Hds & ->)])]]].
  - by apply elem_of_nil in Hin.
  - by apply elem_of_nil in Hin.
  - by apply list_elem_of_singleton in Hin.
  - by apply elem_of_nil in Hin.
  - apply list_elem_of_singleton in Hin. injection Hin as _ <-.
    by eexists.
  - apply elem_of_cons in Hin as [Hin|Hin].
    + injection Hin as _ <-. exists wts. split; [done|].
      apply Forall3_details_keeps in Hds as [-> ->]. done.
    + by apply (listCall_in_details _ _ _ _ p Hds) in Hin.
Qed.

(** C9 (amended): with details asked for and the listing resolved, the
    answer is always a success envelope with one entry per parsed entry,
    in order, each with its path, branch and main flag.  An entry whose
    status query is rejected is returned as parsed, its three detail
    fields absent, and its divergence is not queried; an entry whose
    status query resolves gets its change count from the status and a
    divergence of 0 and 0 when the divergence query is rejected. *)
Theorem details_failure_keeps_listing body w r evs p stdout :
  invoke (createListHandler body) w = (r, evs) →
  includeDetails body = Some true →
  (listCall p, Ok stdout) ∈ evs →
  Forall bare (parseWorktreeList stdout) ∧
  ∃ segs wts,
    r = Ok (Success wts) ∧
    evs = (listCall p, Ok stdout) :: List.concat segs ∧
    Forall3 detailsOf (parseWorktreeList stdout) segs wts.
Proof.
  intros Hrun Hd Hin. split; [apply parseWorktreeList_bare|].
  apply createListHandler_run in Hrun. rewrite Hd in Hrun. simpl in Hrun.
  destruct Hrun as [(_ & _ & ->)|[(e & _ & [->|(p' & ->)])|[(_ & ->)|
    (p' & out & _ & [([=] & _)|(segs & wts & _ & -> & Hds & ->)])]]].
  - by apply elem_of_nil in Hin.
  - by apply elem_of_nil in Hin.
  - by apply list_elem_of_singleton in Hin.
  - by apply elem_of_nil in Hin.
  - apply elem_of_cons in Hin as [Hin|Hin].
    + injection Hin as <- <-. by exists segs, wts.
    + by apply (listCall_in_details _ _ _ _ p Hds) in Hin.
Qed.

(** The directory name, character by character. *)
Lemma sanitizedName_chars (bn : string) :
  String.length (sanitizedName bn) = String.length bn ∧
  ∀ i, String.get i (sanitizedName bn) =
       (λ c, if dirChar c then c else "-"%char) <$> String.get i bn.
Proof.
  unfold sanitizedName. induction bn as [|c bn [IHl IHg]]; [done|].
  simpl. destruct (dirChar c) eqn:Hc; simpl; rewrite IHl; (split; [done|]);
    intros [|i]; simpl; by rewrite ?IHg, ?Hc.
Qed.

(** C8: when create answers with a worktree descriptor, its path is the
    worktrees directory of the project joined with the branch name in
    which every character outside [[A-Za-z0-9_-]] has become a dash; the
    branch of the descriptor, the branch that was looked up and the
    branch of the [git worktree add] command that went through are the
    branch name as it was given. *)
Theorem create_sanitizes_directory body w evs created :
  invoke (createCreateHandler body) w = (Ok (Success created), evs) →
  ∃ pp bn,
    projectPath body = Some pp ∧ branchName body = Some bn ∧
    let dir := path_join (path_join pp ".worktrees") (sanitizedName bn) in
    created_path created = dir ∧
    created_branch created = bn ∧
    (∃ r, (Exec ("git rev-parse --verify " +:+ bn) (Some pp) false, r) ∈ evs) ∧
    (∃ out,
       (Exec (if isNew created
              then "git worktree add -b " +:+ bn +:+ " " +:+ Js.quoted dir +:+
                   " " +:+ Js.or_else (baseBranch body) "HEAD"
              else "git worktree add " +:+ Js.quoted dir +:+ " " +:+ bn)
          (Some pp) false, Ok out) ∈ evs) ∧
    String.length (sanitizedName bn) = String.length bn ∧
    ∀ i, String.get i (sanitizedName bn) =
         (λ c, if dirChar c then c else "-"%char) <$> String.get i bn.
Proof.
  unfold invoke, createCreateHandler, try_catch, bind, ret, isGitRepoM, call,
    execAsync.
  intros Hrun.
  destruct (projectPath body) as [[|c p]|] eqn:Hp; try done.
  destruct (branchName body) as [[|d b]|] eqn:Hb; try done.
  exists (String c p), (String d b). split; [done|]. split; [done|].
  cbv zeta.
  destruct (sanitizedName_chars (String d b)) as [Hlen Hget].
  set (bn := String d b) in *. set (pp := String c p) in *.
  set (dir := path_join (path_join pp ".worktrees") (sanitizedName bn)) in *.
  clearbody bn pp.
  destruct (isGitRepo pp w) as [[[|]|e] w1]; simpl in Hrun; try done.
  repeat match type of Hrun with
  | context [perform ?c ?w] =>
      let E := fresh "E" in
      destruct (perform c w) as [[?out|?e] ?w] eqn:E; simpl in Hrun;
      try discriminate
  end.
  all: injection Hrun as <- <-; simpl.
  all: repeat split; try done.
  all: eexists; here.
Qed.

End Runs.

Lemma list_counts_blocks_witness :
  ∃ wts,
    (invoke (createListHandler (env := scripted) (Scenarios.listRequest false))
       Scenarios.listed).1 = Ok (Success wts) ∧
    List.length wts = 2%nat ∧ isMain <$> wts = [true; false].
Proof.
  destruct (invoke (createListHandler (env := scripted) (Scenarios.listRequest false))
              Scenarios.listed) as [r evs] eqn:Hrun.
  apply (list_counts_blocks (env := scripted) _ _ r evs "/repo"
           Scenarios.twoBlocks 1 Hrun).
  - vm_compute in Hrun. injection Hrun as <- <-. here.
  - by repeat constructor.
Defined.

(** C9, as stated, fails: the status query of the first entry is rejected
    and its detail fields stay absent instead of becoming [false], 0 and
    0/0; the divergence query of the second entry is rejected and only its
    divergence becomes 0/0, next to one changed file. *)
Lemma status_failure_leaves_details_absent :
  (invoke (createListHandler (env := scripted) (Scenarios.listRequest true))
     Scenarios.detailsRejected).1 =
  Ok (Success
        [mkWorktreeInfo "/repo" "main" true None None None;
         mkWorktreeInfo "/repo/.worktrees/feat" "feat" false
           (Some true) (Some 1%nat) (Some (mkAheadBehind 0 0))]).
Proof. vm_compute. reflexivity. Qed.

Lemma details_failure_keeps_listing_witness :
  ∃ segs wts,
    (invoke (createListHandler (env := scripted) (Scenarios.listRequest true))
       Scenarios.detailsRejected).1 = Ok (Success wts) ∧
    Forall3 (detailsOf (env := scripted))
      (parseWorktreeList (listing Scenarios.twoBlocks 1)) segs wts.
Proof.
  destruct (invoke (createListHandler (env := scripted) (Scenarios.listRequest true))
              Scenarios.detailsRejected) as [r evs] eqn:Hrun.
  destruct (details_failure_keeps_listing (env := scripted) _ _ r evs "/repo"
              (listing Scenarios.twoBlocks 1) Hrun)
    as (_ & segs & wts & Hr & _ & Hds).
  - reflexivity.
  - vm_compute in Hrun. injection Hrun as <- <-. here.
  - by exists segs, wts.
Defined.

Lemma create_sanitizes_directory_witness :
  ∃ pp bn,
    projectPath Scenarios.createRequest = Some pp ∧
    branchName Scenarios.createRequest = Some bn ∧
    "/repo/.worktrees/feature-login-v2" =
      path_join (Env := scripted) (path_join (Env := scripted) pp ".worktrees")
        (sanitizedName bn) ∧
    "feature/login v2" = bn.
Proof.
  pose (run := invoke (createCreateHandler (env := scripted) Scenarios.createRequest)
                 Scenarios.created).
  assert (run = (Ok (Success
                       (mkCreated "/repo/.worktrees/feature-login-v2"
                          "feature/login v2" true)), run.2)) as Hrun.
  { vm_compute. reflexivity. }
  destruct (create_sanitizes_directory (env := scripted) _ _ _ _ Hrun)
    as (pp & bn & Hp & Hb & Hpath & Hbr & _).
  by exists pp, bn.
Defined.

End WorktreeFacts.

(** ** More about the board: order, search and archive *)

Module BoardViews.
Import Board.

(** *** The sort of the backlog *)

Lemma insertByKey_sorted x l :
  StronglySorted byPriority l → StronglySorted byPriority (insertByKey x l).
Proof.
  unfold byPriority.
  induction 1 as [|y l Hl IH Hy]; simpl; [repeat constructor|].
  destruct (Z.leb_spec (sortKey x) (sortKey y)) as [Hle|Hgt].
  - constructor; [by constructor|]. constructor; [done|].
    eapply Forall_impl; [exact Hy|]. intros z Hz. simpl in *. lia.
  - constructor; [done|].
    rewrite (BoardFacts.insertByKey_perm x l). constructor; [lia|done].
Qed.

Lemma sortBacklog_sorted l : StronglySorted byPriority (sortBacklog l).
Proof.
  induction l as [|x l IH]; simpl; [constructor|by apply insertByKey_sorted].
Qed.

(** Insertion goes in front of the features with the same key. *)
Lemma filter_key_insertByKey (k : Z) x l :
  filter (λ f, sortKey f = k) (insertByKey x l) =
  filter (λ f, sortKey f = k) (x :: l).
Proof.
  induction l as [|y l IH]; simpl; [done|].
  destruct (Z.leb_spec (sortKey x) (sortKey y)) as [Hle|Hgt]; [done|].
  rewrite (filter_cons _ y), IH, !filter_cons.
  repeat case_decide; try done; lia.
Qed.

Lemma filter_key_sortBacklog (k : Z) l :
  filter (λ f, sortKey f = k) (sortBacklog l) = filter (λ f, sortKey f = k) l.
Proof.
  induction l as [|x l IH]; simpl; [done|].
  by rewrite filter_key_insertByKey, !filter_cons, IH.
Qed.

(** In front of everything when nothing is smaller. *)
Lemma insertByKey_least x l :
  Forall (byPriority x) l → insertByKey x l = x :: l.
Proof.
  destruct 1 as [|y l Hy _]; simpl; [done|].
  unfold byPriority in Hy. by destruct (Z.leb_spec (sortKey x) (sortKey y)); [|lia].
Qed.

(** Sorting and hiding commute. *)
Lemma filter_insertByKey (P : Feature → bool) x l :
  StronglySorted byPriority l →
  List.filter P (insertByKey x l) =
  if P x then insertByKey x (List.filter P l) else List.filter P l.
Proof.
  induction 1 as [|y l Hl IH Hy]; simpl; [by destruct (P x)|].
  destruct (Z.leb_spec (sortKey x) (sortKey y)) as [Hle|Hgt]; simpl.
  - destruct (P x) eqn:Hx; [|done].
    destruct (P y) eqn:Hyp; simpl.
    + by destruct (Z.leb_spec (sortKey x) (sortKey y)); [|lia].
    + rewrite insertByKey_least; [done|].
      apply Forall_forall. intros z Hz.
      apply list_elem_of_In, filter_In in Hz as [Hz _].
      apply list_elem_of_In in Hz.
      pose proof (proj1 (Forall_forall _ _) Hy z Hz) as Hyz.
      unfold byPriority in *. lia.
  - rewrite IH. destruct (P y) eqn:Hyp, (P x) eqn:Hx; simpl; try done.
    by destruct (Z.leb_spec (sortKey x) (sortKey y)); [lia|].
Qed.

Lemma filter_sortBacklog (P : Feature → bool) l :
  sortBacklog (List.filter P l) = List.filter P (sortBacklog l).
Proof.
  induction l as [|x l IH]; simpl; [done|].
  rewrite filter_insertByKey by apply sortBacklog_sorted.
  destruct (P x); simpl; by rewrite IH.
Qed.

(** *** The retained features, filter by filter *)

Lemma filter_List_filter {A} (Q : A → Prop) `{∀ x, Decision (Q x)}
    (P : A → bool) l :
  filter Q (List.filter P l) = List.filter P (filter Q l).
Proof.
  induction l as [|x l IH]; simpl; [done|].
  rewrite filter_cons.
  destruct (P x) eqn:Hp; simpl; rewrite ?filter_cons;
    case_decide; simpl; rewrite ?Hp, IH; done.
Qed.

Lemma inScope_main cw f : inScope None f = true → inScope cw f = true.
Proof.
  unfold inScope. by destruct (negb (Js.truthy (worktreePath f))).
Qed.

(** *** What a column holds, in order *)

Lemma List_filter_after_filter {A} (P : A → Prop) `{∀ x, Decision (P x)}
    (b : A → bool) l :
  List.filter b (filter P l) = filter (λ x, b x = true ∧ P x) l.
Proof.
  rewrite <- filter_List_filter. apply BoardFacts.filter_after_List_filter.
Qed.

Lemma passesText_empty f : passesText "" f = true.
Proof. reflexivity. Qed.

Lemma destined_text running q cw c features :
  destined running q cw c features =
  List.filter (passesText q) (destined running "" cw c features).
Proof.
  unfold destined. rewrite List_filter_after_filter.
  apply list_filter_iff. intros f. rewrite passesText_empty. tauto.
Qed.

Lemma destined_main running q cw c features :
  destined running q None c features =
  List.filter (inScope None) (destined running q cw c features).
Proof.
  unfold destined. rewrite List_filter_after_filter.
  apply list_filter_iff. intros f.
  pose proof (inScope_main cw f). tauto.
Qed.

(** *** Text search *)

Lemma lower_char_space c : Js.is_space c = true → Js.lower_char c = c.
Proof.
  unfold Js.lower_char, Js.is_space, Js.is_upper. cbv zeta. intros Hc.
  destruct (andb _ _) eqn:Hu in |- *; [|done].
  apply andb_true_iff in Hu as [H1%Nat.leb_le H2%Nat.leb_le].
  apply orb_true_iff in Hc as [Hc%Nat.eqb_eq|[_ Hc%Nat.leb_le]%andb_true_iff];
    lia.
Qed.

Lemma normalizedQuery_blank q :
  Js.all Js.is_space q = true → normalizedQuery q = "".
Proof.
  unfold normalizedQuery, Js.trim.
  induction q as [|c q IH]; [done|]. cbn [Js.all Js.toLowerCase Js.trimStart].
  intros [Hc Hq]%andb_true_iff.
  rewrite (lower_char_space c Hc), Hc. by apply IH.
Qed.

Lemma toLowerCase_app a b :
  Js.toLowerCase (a +:+ b) = Js.toLowerCase a +:+ Js.toLowerCase b.
Proof. induction a as [|c a IH]; simpl; [done|by rewrite IH]. Qed.

Lemma toLowerCase_app_inv s x y :
  Js.toLowerCase s = x +:+ y →
  ∃ a b, s = a +:+ b ∧ Js.toLowerCase a = x ∧ Js.toLowerCase b = y.
Proof.
  revert s. induction x as [|c x IH]; intros s Hs.
  - by exists "", s.
  - destruct s as [|d s]; [done|]. simpl in Hs. injection Hs as Hc Hs.
    apply IH in Hs as (a & b & -> & Ha & Hb).
    exists (String d a), b. simpl. by rewrite Hc, Ha.
Qed.

Lemma includes_prefix hay needle :
  String.prefix needle hay = true → Js.includes hay needle = true.
Proof. intros Hp. destruct hay; cbn [Js.includes]; by rewrite Hp. Qed.

Lemma includes_iff hay needle :
  Js.includes hay needle = true ↔ ∃ a b, hay = a +:+ needle +:+ b.
Proof.
  split.
  - induction hay as [|c hay IH]; cbn [Js.includes];
      intros [Hp|Hin]%orb_true_iff; try done.
    + apply JsFacts.prefix_inv in Hp as [r Hr]. by exists "", r.
    + apply JsFacts.prefix_inv in Hp as [r Hr]. by exists "", r.
    + apply IH in Hin as (a & b & ->). by exists (String c a), b.
  - intros (a & b & ->). induction a as [|c a IH].
    + cbn [String.append]. apply includes_prefix, JsFacts.prefix_app.
    + cbn [String.append Js.includes]. rewrite IH. apply orb_true_r.
Qed.

Lemma columnOf_completed running f :
  columnOf running f = "completed" ↔
  isRunning running f = false ∧ status f = "completed".
Proof.
  unfold columnOf. destruct (isRunning running f); [by split; [|intros []]|].
  case_bool_decide as Hs; [by split; [|intros []]|].
  split; [done|]. intros [_ Hc]. destruct Hs. rewrite Hc. unfold columnIds. here.
Qed.


(** X2: when the statuses are plain, the hook returns and every column
    but the backlog lists, in the order of the feature array, the
    features of the array that pass both filters and belong to it. *)
Theorem columns_keep_input_order features running q cw c :
  plainText q → Forall plainFeature features →
  plainStatuses features running →
  c ∈ columnIds → c ≠ "backlog" →
  ∃ m, columnFeaturesMap features running q cw = Some m ∧
    getColumnFeatures m c =
    filter (λ f, passesText q f = true ∧ inScope cw f = true ∧
                 columnOf running f = c) features.
Proof.
  intros _ _ Hok _ Hne.
  destruct (BoardFacts.columns_returned features running q cw Hok)
    as (m & Hm & _ & Hc).
  exists m. split; [done|]. rewrite Hc. cbv zeta. by rewrite decide_False.
Qed.

(** X3: a search query of white space only filters nothing: the board
    is the one of the empty query. *)
Theorem blank_query_keeps_everything features running q cw :
  Js.all Js.is_space q = true →
  columnFeaturesMap features running q cw =
  columnFeaturesMap features running "" cw.
Proof.
  intros Hq. unfold columnFeaturesMap, filteredFeatures, textFilter.
  by rewrite (normalizedQuery_blank q Hq).
Qed.

(** X4: on text in the modelled range and with a query that is not
    blank, the text filter keeps exactly the features in whose
    description or category some stretch of text is, letter case apart,
    the trimmed query. *)
Theorem search_ignores_case q features f :
  plainText q → plainFeature f →
  normalizedQuery q ≠ "" →
  f ∈ textFilter q features ↔
  f ∈ features ∧
  ∃ field a s b,
    (field = description f ∨ category f = Some field) ∧
    field = a +:+ s +:+ b ∧ Js.toLowerCase s = normalizedQuery q.
Proof.
  intros _ _ Hq. rewrite BoardFacts.elem_of_textFilter. unfold passesText.
  cbv zeta. destruct (normalizedQuery q) as [|c n] eqn:Hn; [done|].
  cbn [Js.nonempty]. unfold matchesQuery.
  assert (∀ field, Js.includes (Js.toLowerCase field) (String c n) = true ↔
            ∃ a s b, field = a +:+ s +:+ b ∧ Js.toLowerCase s = String c n)
    as Hfield.
  { intros field. rewrite includes_iff. split.
    - intros (a' & b' & Heq).
      apply toLowerCase_app_inv in Heq as (a & sb & -> & _ & Hsb).
      apply toLowerCase_app_inv in Hsb as (s & b & -> & Hs & _).
      by exists a, s, b.
    - intros (a & s & b & -> & Hs).
      exists (Js.toLowerCase a), (Js.toLowerCase b).
      by rewrite !toLowerCase_app, Hs. }
  split; intros [Hin Hm]; (split; [done|]).
  - apply orb_true_iff in Hm as [Hm|Hm].
    + apply Hfield in Hm as (a & s & b & Heq & Hs).
      exists (description f), a, s, b. eauto.
    + destruct (category f) as [cat|] eqn:Hc; [|done].
      apply Hfield in Hm as (a & s & b & Heq & Hs).
      exists cat, a, s, b. eauto.
  - destruct Hm as (field & a & s & b & [->|Hc] & Heq & Hs).
    + apply orb_true_iff. left. apply Hfield. eauto.
    + apply orb_true_iff. right. rewrite Hc. apply Hfield. eauto.
Qed.




Lemma columns_keep_input_order_witness :
  ∃ m, columnFeaturesMap Scenarios.board [] "" None = Some m ∧
    getColumnFeatures m "verified" =
    filter (λ f, passesText "" f = true ∧ inScope None f = true ∧
                 columnOf [] f = "verified") Scenarios.board.
Proof.
  apply columns_keep_input_order.
  - reflexivity.
  - apply BoardFacts.plainFeatures_checked. vm_compute. reflexivity.
  - apply BoardFacts.plainStatuses_checked. vm_compute. reflexivity.
  - unfold columnIds. here.
  - discriminate.
Defined.

Lemma blank_query_keeps_everything_witness :
  columnFeaturesMap Scenarios.board ["f-2"] "  " None =
  columnFeaturesMap Scenarios.board ["f-2"] "" None.
Proof. apply blank_query_keeps_everything. reflexivity. Defined.

Lemma search_ignores_case_witness :
  let f := mkFeature "f-1" "Login form" (Some "UI") "verified" (Some 2%Z)
             None in
  f ∈ textFilter " LOGIN " Scenarios.board ↔
  f ∈ Scenarios.board ∧
  ∃ field a s b,
    (field = description f ∨ category f = Some field) ∧
    field = a +:+ s +:+ b ∧ Js.toLowerCase s = normalizedQuery " LOGIN ".
Proof.
  apply search_ignores_case.
  - reflexivity.
  - split; [reflexivity|]. intros c [= <-]. reflexivity.
  - vm_compute. discriminate.
Defined.



End BoardViews.

(** ** More about the list handler *)

Module ListingFacts.
Import Host Worktree.

Lemma parse_porcelainBlock e st :
  checkout e = true →
  foldl parseLine st (porcelainBlock e ++ [""]) =
  mkParseState (worktrees st ++ entriesOf (isFirst st) [e]) None None false.
Proof.
  destruct e as [[p sha] n]. unfold checkout, named.
  rewrite !andb_true_iff. intros [[[Hp _] _] [Hn _]].
  destruct p as [|a p]; [done|]. destruct n as [|b n]; [done|].
  reflexivity.
Qed.

Lemma porcelainBlock_record e :
  checkout e = true → recordBlock (porcelainBlock e) = true.
Proof.
  destruct e as [[p sha] n]. unfold checkout, named.
  rewrite !andb_true_iff. intros [[[Hp Hpn] Hsha] [Hn Hnn]].
  destruct p as [|a p]; [done|]. destruct n as [|b n]; [done|].
  unfold recordBlock, porcelainBlock, recordLine.
  cbn [forallb existsb]. rewrite !ReFacts.noNewline_app, Hpn, Hsha, Hnn.
  reflexivity.
Qed.

Lemma parse_checkouts (es : list Checkout) : ∀ st,
  Forall (λ e, checkout e = true) es →
  currentPath st = None → currentBranch st = None →
  foldl parseLine st (listingLines (porcelainBlock <$> es)) =
  mkParseState (worktrees st ++ entriesOf (isFirst st) es) None None
    (match es with [] => isFirst st | _ => false end).
Proof.
  induction es as [|e es IH]; intros st Hes Hp Hr.
  - simpl. rewrite app_nil_r. destruct st; simpl in *; by subst.
  - apply Forall_cons in Hes as [He Hes].
    rewrite fmap_cons. cbn [listingLines flat_map]. rewrite foldl_app.
    rewrite parse_porcelainBlock by done.
    fold (listingLines (porcelainBlock <$> es)).
    rewrite IH by done. cbn [worktrees isFirst].
    destruct e as [[p sha] n]. cbn [entriesOf].
    rewrite <- app_assoc. by destruct es.
Qed.

(** The lines of a listing are its blocks' and blank ones. *)
Lemma split_listing blocks extra :
  Forall (λ block, forallb recordLine block = true) blocks →
  Js.split Js.newline (listing blocks extra) =
  match listingLines blocks ++ replicate extra "" with
  | [] => [""]
  | lines => lines
  end.
Proof.
  intros Hbs. unfold listing.
  destruct (listingLines blocks ++ replicate extra "") as [|l ls] eqn:E;
    [done|].
  rewrite <- E. apply JsFacts.split_concat; [by rewrite E|].
  apply Forall_app. split; [|by apply Forall_replicate].
  clear E. induction Hbs as [|block blocks Hb _ IH]; [done|].
  cbn [listingLines flat_map]. apply Forall_app. split; [|done].
  apply Forall_app. split; [|by repeat constructor].
  apply Forall_forall. intros x Hx.
  rewrite forallb_forall in Hb. apply list_elem_of_In, Hb in Hx.
  by apply WorktreeFacts.recordLine_inv in Hx as (_ & ? & _).
Qed.

Lemma parse_lines_of_listing blocks extra :
  Forall (λ block, forallb recordLine block = true) blocks →
  parseWorktreeList (listing blocks extra) =
  worktrees (foldl parseLine initialParseState
               (listingLines blocks ++ replicate extra "")).
Proof.
  intros Hbs. unfold parseWorktreeList. rewrite split_listing by done.
  by destruct (listingLines blocks ++ replicate extra "").
Qed.

Lemma record_lines blocks :
  Forall (λ block, recordBlock block = true) blocks →
  Forall (λ block, forallb recordLine block = true) blocks.
Proof.
  intros H. eapply Forall_impl; [exact H|]. intros block. unfold recordBlock.
  rewrite !andb_true_iff. tauto.
Qed.

Lemma parse_of_checkouts es extra :
  Forall (λ e, checkout e = true) es →
  parseWorktreeList (listing (porcelainBlock <$> es) extra) =
  entriesOf true es.
Proof.
  intros Hes. rewrite parse_lines_of_listing.
  2:{ apply record_lines, Forall_fmap. eapply Forall_impl; [exact Hes|].
      intros e. apply porcelainBlock_record. }
  rewrite foldl_app, parse_checkouts by done.
  rewrite WorktreeFacts.parse_blank_lines by done. done.
Qed.

(** A block that lacks the worktree line or the branch line leaves
    nothing behind. *)
Lemma parse_incomplete (block : list string) st :
  forallb recordLine block = true → recordBlock block = false →
  currentPath st = None → currentBranch st = None →
  foldl parseLine st (block ++ [""]) = st.
Proof.
  intros Hb Hnot Hp Hr. rewrite foldl_app. cbn [foldl].
  destruct (WorktreeFacts.parse_block block st Hb)
    as (Hwt & Hf & Hpath & Hbranch).
  rewrite Hp in Hpath. rewrite Hr in Hbranch.
  unfold recordBlock in Hnot. rewrite Hb in Hnot. simpl in *.
  rewrite orb_false_r in Hpath, Hbranch.
  unfold parseLine at 1. simpl.
  destruct (currentPath (foldl parseLine st block)) as [[|a p]|];
    destruct (currentBranch (foldl parseLine st block)) as [[|b r]|];
    simpl in *;
    try (rewrite Hwt, Hf; destruct st; simpl in *; by subst).
  rewrite <- Hpath, <- Hbranch in Hnot. done.
Qed.

Lemma parse_skips_incomplete (blocks : list (list string)) : ∀ st,
  Forall (λ block, forallb recordLine block = true) blocks →
  currentPath st = None → currentBranch st = None →
  foldl parseLine st (listingLines blocks) =
  foldl parseLine st (listingLines (List.filter recordBlock blocks)).
Proof.
  induction blocks as [|block blocks IH]; intros st Hbs Hp Hr; [done|].
  apply Forall_cons in Hbs as [Hb Hbs].
  cbn [listingLines flat_map List.filter].
  rewrite (foldl_app _ (block ++ [""])).
  fold (listingLines blocks).
  destruct (recordBlock block) eqn:Hrec.
  - cbn [listingLines flat_map]. rewrite (foldl_app _ (block ++ [""])).
    fold (listingLines (List.filter recordBlock blocks)).
    destruct (WorktreeFacts.parse_record block st Hrec Hp Hr)
      as (p & b & ->).
    by apply IH.
  - rewrite parse_incomplete by done. by apply IH.
Qed.

Lemma filter_record_lines blocks :
  Forall (λ block, forallb recordLine block = true) blocks →
  Forall (λ block, forallb recordLine block = true)
    (List.filter recordBlock blocks).
Proof.
  induction 1 as [|block blocks Hb _ IH]; simpl; [done|].
  destruct (recordBlock block); [by constructor|done].
Qed.

(** *** What holds of the entries of every listing *)

Lemma mainFlags_snoc n :
  mainFlags true n ++ [bool_decide (n = 0%nat)] = mainFlags true (S n).
Proof.
  destruct n as [|n]; [done|]. simpl. f_equal.
  change [false] with (replicate 1 false). rewrite <- replicate_add.
  by rewrite Nat.add_1_r.
Qed.

Lemma parseLine_invariant st line :
  Forall complete (worktrees st) →
  isMain <$> worktrees st = mainFlags true (List.length (worktrees st)) →
  isFirst st = bool_decide (List.length (worktrees st) = 0%nat) →
  let st' := parseLine st line in
  Forall complete (worktrees st') ∧
  isMain <$> worktrees st' = mainFlags true (List.length (worktrees st')) ∧
  isFirst st' = bool_decide (List.length (worktrees st') = 0%nat).
Proof.
  intros Hc Hm Hf. cbv zeta. unfold parseLine.
  destruct (Js.startsWith line "worktree "); [done|].
  destruct (Js.startsWith line "branch "); [done|].
  destruct (String.eqb line ""); [|done].
  destruct (currentPath st) as [[|a p]|]; try done.
  destruct (currentBranch st) as [[|b r]|]; try done.
  cbn [worktrees isFirst]. split; [|split].
  - apply Forall_app. split; [done|]. by repeat constructor.
  - rewrite fmap_app, Hm, length_app, Nat.add_1_r. cbn [fmap list_fmap isMain].
    rewrite Hf. apply mainFlags_snoc.
  - rewrite length_app, Nat.add_1_r. done.
Qed.

Lemma parseWorktreeList_invariant stdout :
  Forall complete (parseWorktreeList stdout) ∧
  isMain <$> parseWorktreeList stdout =
  mainFlags true (List.length (parseWorktreeList stdout)).
Proof.
  unfold parseWorktreeList.
  assert (∀ lines st,
            Forall complete (worktrees st) →
            isMain <$> worktrees st =
              mainFlags true (List.length (worktrees st)) →
            isFirst st = bool_decide (List.length (worktrees st) = 0%nat) →
            let st' := foldl parseLine st lines in
            Forall complete (worktrees st') ∧
            isMain <$> worktrees st' =
              mainFlags true (List.length (worktrees st'))) as Hinv.
  { induction lines as [|l lines IH]; intros st Hc Hm Hf; [done|].
    cbn [foldl].
    destruct (parseLine_invariant st l Hc Hm Hf) as (Hc' & Hm' & Hf').
    by apply IH. }
  by apply Hinv.
Qed.

Section Runs.
Context {World : Type} {env : Env World}.

Lemma details_identity parsed segs wts :
  Forall3 detailsOf parsed segs wts → identity <$> wts = identity <$> parsed.
Proof.
  induction 1 as [|wt seg wt' parsed segs wts Hd _ IH]; [done|].
  apply WorktreeFacts.detailsOf_keeps in Hd as (Hp & Hb & Hm).
  rewrite !fmap_cons, IH. unfold identity. by rewrite Hp, Hb, Hm.
Qed.

(** The answer when the listing resolved. *)
Lemma listing_result body w r evs p stdout :
  invoke (createListHandler body) w = (r, evs) →
  (listCall p, Ok stdout) ∈ evs →
  ∃ wts, r = Ok (Success wts) ∧
    identity <$> wts = identity <$> parseWorktreeList stdout.
Proof.
  intros Hrun Hin. apply WorktreeFacts.createListHandler_run in Hrun.
  destruct Hrun as [(_ & _ & ->)|[(e & _ & [->|(p' & ->)])|[(_ & ->)|
    (p' & stdout' & _ & [(_ & -> & ->)|(segs & wts & _ & -> & Hds & ->)])]]].
  - by apply elem_of_nil in Hin.
  - by apply elem_of_nil in Hin.
  - by apply list_elem_of_singleton in Hin.
  - by apply elem_of_nil in Hin.
  - apply list_elem_of_singleton in Hin. injection Hin as _ <-. by eexists.
  - apply elem_of_cons in Hin as [Hin|Hin].
    + injection Hin as _ <-. exists wts. split; [done|].
      by apply details_identity in Hds.
    + by apply (WorktreeFacts.listCall_in_details _ _ _ _ p Hds) in Hin.
Qed.

(** An answer that lists something comes from a listing that resolved. *)
Lemma success_result body w wts evs :
  invoke (createListHandler body) w = (Ok (Success wts), evs) →
  wts = [] ∨
  ∃ p stdout, (listCall p, Ok stdout) ∈ evs ∧
    identity <$> wts = identity <$> parseWorktreeList stdout.
Proof.
  intros Hrun.
  destruct (WorktreeFacts.createListHandler_run _ _ _ _ Hrun)
    as [(_ & Hr & _)|[(e & Hr & _)|[(Hr & _)|
    (p & stdout & _ & [(_ & Hevs & _)|(segs & wts' & _ & Hevs & _ & _)])]]];
    try discriminate.
  - left. congruence.
  - right. exists p, stdout.
    assert ((listCall p, Ok stdout) ∈ evs) as Hin by (rewrite Hevs; here).
    split; [done|].
    destruct (listing_result _ _ _ _ _ _ Hrun Hin) as (? & Heq & ?).
    congruence.
  - right. exists p, stdout.
    assert ((listCall p, Ok stdout) ∈ evs) as Hin by (rewrite Hevs; here).
    split; [done|].
    destruct (listing_result _ _ _ _ _ _ Hrun Hin) as (? & Heq & ?).
    congruence.
Qed.

Lemma identity_complete (wts parsed : list WorktreeInfo) :
  identity <$> wts = identity <$> parsed →
  Forall complete parsed → Forall complete wts.
Proof.
  revert parsed. induction wts as [|wt wts IH]; intros [|pw parsed] Heq Hc;
    try done.
  rewrite !fmap_cons in Heq. unfold identity at 1 3 in Heq.
  injection Heq as Hp Hb _ Heq.
  apply Forall_cons in Hc as [Hpw Hc]. constructor; [|by eapply IH].
  unfold complete in *. by rewrite Hp, Hb.
Qed.

Lemma identity_flags (wts parsed : list WorktreeInfo) :
  identity <$> wts = identity <$> parsed →
  isMain <$> wts = isMain <$> parsed ∧ List.length wts = List.length parsed.
Proof.
  intros Heq. split.
  - apply (f_equal (fmap (λ t : string * string * bool, t.2))) in Heq.
    by rewrite <- !list_fmap_compose in Heq.
  - apply (f_equal List.length) in Heq. by rewrite !length_fmap in Heq.
Qed.

(** X7: whatever the listing command printed, every entry of the
    answer has a path and a branch that are not empty, and exactly the
    first entry is flagged as the main copy. *)
Theorem entries_complete_first_main body w wts evs :
  invoke (createListHandler body) w = (Ok (Success wts), evs) →
  Forall complete wts ∧ isMain <$> wts = mainFlags true (List.length wts).
Proof.
  intros [->|(p & stdout & _ & Hid)]%success_result; [done|].
  destruct (parseWorktreeList_invariant stdout) as [Hc Hm].
  destruct (identity_flags _ _ Hid) as [Hf Hl].
  split; [by eapply identity_complete|]. by rewrite Hf, Hl.
Qed.

(** X8: the listing of checkouts is read back as it was printed: one
    entry per checkout, in order, with its directory as path, its branch
    without the [refs/heads/] in front, and the first as the main copy. *)
Theorem porcelain_round_trip body w r evs p (es : list Checkout) extra :
  invoke (createListHandler body) w = (r, evs) →
  (listCall p, Ok (listing (porcelainBlock <$> es) extra)) ∈ evs →
  Forall (λ e, checkout e = true) es →
  ∃ wts, r = Ok (Success wts) ∧
    identity <$> wts = identity <$> entriesOf true es.
Proof.
  intros Hrun Hin Hes.
  destruct (listing_result _ _ _ _ _ _ Hrun Hin) as (wts & -> & Hid).
  exists wts. split; [done|]. by rewrite Hid, parse_of_checkouts.
Qed.

(** X9: a block without a worktree line or without a branch line, such
    as the one of a detached checkout, gives no entry and does not count
    as the first: the entries are those of the listing without it. *)
Theorem incomplete_blocks_skipped blocks extra :
  Forall (λ block, forallb recordLine block = true) blocks →
  parseWorktreeList (listing blocks extra) =
  parseWorktreeList (listing (List.filter recordBlock blocks) extra).
Proof.
  intros Hbs.
  rewrite !parse_lines_of_listing by (done || by apply filter_record_lines).
  rewrite !foldl_app. by rewrite <- parse_skips_incomplete.
Qed.

(** X10: an entry is only emitted at the blank line after its block:
    the lines of a last block that no newline ends give no entry. *)
Theorem unterminated_block_dropped blocks block :
  Forall (λ block, forallb recordLine block = true) blocks →
  forallb recordLine block = true →
  parseWorktreeList
    (String.concat (String Js.newline "") (listingLines blocks ++ block)) =
  parseWorktreeList (listing blocks 0).
Proof.
  intros Hbs Hb. rewrite parse_lines_of_listing by done.
  cbn [replicate]. rewrite app_nil_r. unfold parseWorktreeList.
  destruct (decide (listingLines blocks ++ block = [])) as [E|E].
  - rewrite E. apply app_eq_nil in E as [-> _]. done.
  - rewrite JsFacts.split_concat; [|done|].
    + rewrite foldl_app.
      by destruct (WorktreeFacts.parse_block block
                     (foldl parseLine initialParseState (listingLines blocks))
                     Hb) as (-> & _).
    + apply Forall_app. split.
      * clear -Hbs. induction Hbs as [|b bs Hb _ IH]; [done|].
        cbn [listingLines flat_map]. apply Forall_app. split; [|done].
        apply Forall_app. split; [|by repeat constructor].
        apply Forall_forall. intros x Hx.
        rewrite forallb_forall in Hb. apply list_elem_of_In, Hb in Hx.
        by apply WorktreeFacts.recordLine_inv in Hx as (_ & ? & _).
      * apply Forall_forall. intros x Hx.
        rewrite forallb_forall in Hb. apply list_elem_of_In, Hb in Hx.
        by apply WorktreeFacts.recordLine_inv in Hx as (_ & ? & _).
Qed.

(** X11: when details are not asked for, the handler runs nothing but
    the listing command, and the entries it answers with carry no
    details. *)
Theorem list_without_details body w r evs :
  invoke (createListHandler body) w = (r, evs) →
  default false (includeDetails body) = false →
  (evs = [] ∨ ∃ p res, evs = [(listCall p, res)]) ∧
  ∀ wts, r = Ok (Success wts) → Forall bare wts.
Proof.
  intros Hrun Hd. apply WorktreeFacts.createListHandler_run in Hrun.
  destruct Hrun as [(_ & -> & ->)|[(e & -> & [->|(p & ->)])|[(-> & ->)|
    (p & stdout & _ & [(_ & -> & ->)|(segs & wts & Hd' & _)])]]];
    try congruence.
  - split; [by left|done].
  - split; [by left|done].
  - split; [right; by eexists _, _|done].
  - split; [by left|]. by intros wts [= <-].
  - split; [right; by eexists _, _|]. intros wts [= <-].
    apply WorktreeFacts.parseWorktreeList_bare.
Qed.

(** X12: when the listing command is rejected, the answer is a 500 with
    the message of that error and nothing else has been run. *)
Theorem listing_failure_is_reported body w r evs p e :
  invoke (createListHandler body) w = (r, evs) →
  (listCall p, Throw e) ∈ evs →
  r = Ok (Failure 500 (getErrorMessage e)) ∧ evs = [(listCall p, Throw e)].
Proof.
  intros Hrun Hin. apply WorktreeFacts.createListHandler_run in Hrun.
  destruct Hrun as [(_ & _ & ->)|[(e' & -> & [->|(p' & ->)])|[(_ & ->)|
    (p' & stdout & _ & [(_ & -> & _)|(segs & wts & _ & -> & Hds & _)])]]].
  - by apply elem_of_nil in Hin.
  - by apply elem_of_nil in Hin.
  - apply list_elem_of_singleton in Hin. by injection Hin as -> ->.
  - by apply elem_of_nil in Hin.
  - by apply list_elem_of_singleton in Hin.
  - apply elem_of_cons in Hin as [Hin|Hin]; [done|].
    by apply (WorktreeFacts.listCall_in_details _ _ _ _ p Hds) in Hin.
Qed.

End Runs.

(** *** Reading the details *)

Lemma split_sep_line sep (l s : string) :
  Js.all (λ c, negb (Ascii.eqb c sep)) l = true →
  Js.split sep (l +:+ String sep s) = l :: Js.split sep s.
Proof.
  induction l as [|c l IH]; intros Hl.
  - cbn [String.append Js.split]. by rewrite Ascii.eqb_refl.
  - cbn [Js.all] in Hl. apply andb_true_iff in Hl as [Hc Hl].
    cbn [String.append Js.split]. rewrite IH by done.
    by destruct (Ascii.eqb c sep).
Qed.

Lemma split_sep_last sep (l : string) :
  Js.all (λ c, negb (Ascii.eqb c sep)) l = true → Js.split sep l = [l].
Proof.
  induction l as [|c l IH]; intros Hl; [done|].
  cbn [Js.all] in Hl. apply andb_true_iff in Hl as [Hc Hl].
  cbn [Js.split]. rewrite IH by done. by destruct (Ascii.eqb c sep).
Qed.

Lemma changedFiles_statusOutput entries :
  Forall (λ l, named l = true) entries →
  changedFiles (statusOutput entries) = List.length entries.
Proof.
  unfold changedFiles, statusOutput.
  induction 1 as [|l entries Hl _ IH]; [done|].
  apply andb_true_iff in Hl as [Hne Hnl].
  rewrite fmap_cons.
  assert (∀ x xs, String.concat "" (x :: xs) = x +:+ String.concat "" xs)
    as Hcat.
  { intros x [|y xs]; simpl; [by rewrite JsFacts.app_nil_r|done]. }
  rewrite Hcat, <- JsFacts.app_assoc. cbn [String.append].
  rewrite JsFacts.split_line by done.
  cbn [List.filter]. rewrite Hne. cbn [List.length]. by rewrite IH.
Qed.

Lemma digit_not_space c : Js.is_digit c = true → Js.is_space c = false.
Proof.
  unfold Js.is_digit, Js.is_space. cbv zeta.
  intros [H1%Nat.leb_le H2%Nat.leb_le]%andb_true_iff.
  apply orb_false_iff. split; [apply Nat.eqb_neq; lia|].
  apply andb_false_iff. right. apply Nat.leb_gt. lia.
Qed.

Lemma digit_not_tab c :
  Js.is_digit c = true → negb (Ascii.eqb c Js.tab) = true.
Proof.
  intros Hc. apply negb_true_iff, Ascii.eqb_neq. intros ->. done.
Qed.

Lemma trimEnd_nonspace s :
  Js.all (λ c, negb (Js.is_space c)) s = true → Js.trimEnd s = s.
Proof.
  induction s as [|c s IH]; [done|]. cbn [Js.all Js.trimEnd].
  intros [Hc Hs]%andb_true_iff. rewrite IH by done.
  destruct s; [|done]. apply negb_true_iff in Hc. by rewrite Hc.
Qed.

Section Details.
Context {World : Type} {env : Env World}.

Lemma parseAheadBehind_counts (a b : string) :
  Js.nonempty a = true → Js.all Js.is_digit a = true →
  Js.nonempty b = true → Js.all Js.is_digit b = true →
  parseAheadBehind (b +:+ String Js.tab (a +:+ String Js.newline "")) =
  mkAheadBehind (numberOrZero (Number a)) (numberOrZero (Number b)).
Proof.
  intros Ha Hda Hb Hdb. unfold parseAheadBehind.
  assert (Js.trim (b +:+ String Js.tab (a +:+ String Js.newline "")) =
          b +:+ String Js.tab a) as ->.
  { unfold Js.trim.
    assert (Js.trimStart (b +:+ String Js.tab (a +:+ String Js.newline "")) =
            b +:+ String Js.tab (a +:+ String Js.newline "")) as ->.
    { destruct b as [|c b]; [done|]. cbn [Js.all] in Hdb.
      apply andb_true_iff in Hdb as [Hc _].
      cbn [String.append Js.trimStart]. by rewrite (digit_not_space c Hc). }
    change (String Js.tab (a +:+ String Js.newline ""))
      with (String Js.tab "" +:+ (a +:+ String Js.newline "")).
    rewrite !JsFacts.app_assoc, JsFacts.trimEnd_app.
    cbn [Js.trimEnd Js.nonempty]. change (Js.is_space Js.newline) with true.
    cbn iota. rewrite JsFacts.trimEnd_app, trimEnd_nonspace.
    - cbn [Js.nonempty]. by rewrite Ha, <- JsFacts.app_assoc.
    - eapply ReFacts.all_impl; [|exact Hda]. intros c Hc.
      by rewrite (digit_not_space c Hc). }
  rewrite split_sep_line by (eapply ReFacts.all_impl; [|exact Hdb]; apply digit_not_tab).
  rewrite split_sep_last by (eapply ReFacts.all_impl; [|exact Hda]; apply digit_not_tab).
  done.
Qed.

(** X13: the details of an entry are read from the two outputs: the
    change count is the number of entries of the status output, and
    there are changes when there is at least one; of the two counts of
    the rev-list output, the first is how far the branch is behind and
    the second how far it is ahead. *)
Theorem details_read_from_outputs wt w r evs entries a b :
  invoke (addDetails wt) w = (r, evs) →
  evs = [(statusCall wt, Ok (statusOutput entries));
         (revListCall wt,
          Ok (b +:+ String Js.tab (a +:+ String Js.newline "")))] →
  Forall (λ l, named l = true) entries →
  Js.nonempty a = true → Js.all Js.is_digit a = true →
  Js.nonempty b = true → Js.all Js.is_digit b = true →
  r = Ok (mkWorktreeInfo (path wt) (branch wt) (isMain wt)
            (Some (bool_decide (entries ≠ [])))
            (Some (List.length entries))
            (Some (mkAheadBehind (numberOrZero (Number a))
                     (numberOrZero (Number b))))).
Proof.
  unfold invoke. intros Hrun Hevs Hes Ha Hda Hb Hdb.
  destruct (addDetails wt (w, [])) as [r' [w' log]] eqn:E.
  injection Hrun as -> ->.
  apply WorktreeFacts.addDetails_run in E as (evs' & wt' & -> & Hlog & Hd).
  cbn in Hlog. subst evs'. rewrite Hevs in Hd.
  inversion Hd as [|status revList Hs]; subst.
  rewrite changedFiles_statusOutput by done.
  rewrite parseAheadBehind_counts by done.
  do 2 f_equal. f_equal. destruct entries; [done|].
  by rewrite bool_decide_eq_true_2.
Qed.

End Details.

Lemma entries_complete_first_main_witness :
  let run := invoke (createListHandler (env := scripted)
                       (Scenarios.listRequest false)) Scenarios.listed in
  ∃ wts, run.1 = Ok (Success wts) ∧ Forall complete wts ∧
    isMain <$> wts = mainFlags true (List.length wts).
Proof.
  cbv zeta. exists (entriesOf true Scenarios.checkouts).
  split; [vm_compute; reflexivity|].
  apply (entries_complete_first_main (env := scripted)
           (Scenarios.listRequest false) Scenarios.listed _
           [(listCall "/repo", Ok (listing Scenarios.twoBlocks 1))]).
  vm_compute. reflexivity.
Defined.

Lemma porcelain_round_trip_witness :
  let run := invoke (createListHandler (env := scripted)
                       (Scenarios.listRequest false)) Scenarios.listed in
  ∃ wts, run.1 = Ok (Success wts) ∧
    identity <$> wts =
    [("/repo", "main", true); ("/repo/.worktrees/feat", "feat", false)].
Proof.
  cbv zeta.
  set (run := invoke (createListHandler (env := scripted)
                        (Scenarios.listRequest false)) Scenarios.listed).
  apply (porcelain_round_trip (env := scripted) (Scenarios.listRequest false)
           Scenarios.listed run.1 run.2 "/repo" Scenarios.checkouts 1).
  - apply surjective_pairing.
  - vm_compute. here.
  - by repeat constructor.
Defined.

Lemma incomplete_blocks_skipped_witness :
  parseWorktreeList (listing Scenarios.detachedMain 1) =
  parseWorktreeList
    (listing (List.filter recordBlock Scenarios.detachedMain) 1).
Proof. apply incomplete_blocks_skipped. by repeat constructor. Defined.

Lemma unterminated_block_dropped_witness :
  parseWorktreeList
    (String.concat (String Js.newline "")
       (listingLines [["worktree /repo"; "branch refs/heads/main"]] ++
        ["worktree /repo/.worktrees/feat"; "branch refs/heads/feat"])) =
  parseWorktreeList
    (listing [["worktree /repo"; "branch refs/heads/main"]] 0).
Proof.
  apply unterminated_block_dropped; [by repeat constructor|reflexivity].
Defined.

Lemma list_without_details_witness :
  let run := invoke (createListHandler (env := scripted)
                       (Scenarios.listRequest false)) Scenarios.listed in
  (run.2 = [] ∨ ∃ p res, run.2 = [(listCall p, res)]) ∧
  ∀ wts, run.1 = Ok (Success wts) → Forall bare wts.
Proof.
  cbv zeta.
  set (run := invoke (createListHandler (env := scripted)
                        (Scenarios.listRequest false)) Scenarios.listed).
  apply (list_without_details (env := scripted) (Scenarios.listRequest false)
           Scenarios.listed run.1 run.2);
    [apply surjective_pairing|reflexivity].
Defined.

Lemma listing_failure_is_reported_witness :
  let run := invoke (createListHandler (env := scripted)
                       (Scenarios.listRequest true))
               Scenarios.listRejected in
  run.1 = Ok (Failure 500 "Command failed: git worktree list") ∧
  run.2 = [(listCall "/repo",
            Scenarios.rejected "fatal: not a git repository"
              "Command failed: git worktree list")].
Proof.
  cbv zeta.
  set (run := invoke (createListHandler (env := scripted)
                        (Scenarios.listRequest true)) Scenarios.listRejected).
  apply (listing_failure_is_reported (env := scripted)
           (Scenarios.listRequest true) Scenarios.listRejected run.1 run.2
           "/repo"
           (mkError (Some "fatal: not a git repository")
              (Some "Command failed: git worktree list")));
    [apply surjective_pairing|vm_compute; here].
Defined.

Lemma details_read_from_outputs_witness :
  (invoke (addDetails (env := Scenarios.host true) Scenarios.featEntry)
     Scenarios.detailed).1 =
  Ok (mkWorktreeInfo "/repo/.worktrees/feat" "feat" false (Some true)
        (Some 2%nat) (Some (mkAheadBehind 3 2))).
Proof.
  set (run := invoke (addDetails (env := Scenarios.host true)
                        Scenarios.featEntry) Scenarios.detailed).
  apply (details_read_from_outputs (env := Scenarios.host true)
           Scenarios.featEntry Scenarios.detailed run.1 run.2
           [" M a.txt"; "?? b.txt"] "3" "2");
    [apply surjective_pairing|vm_compute; reflexivity|by repeat constructor|
     reflexivity..].
Defined.

End ListingFacts.

(** ** More about the create handler *)

Module CreateFacts.
Import Host Worktree.

Ltac step H :=
  match type of H with
  | context [perform ?c ?w] =>
      destruct (perform c w) as [[?o|?e] ?w]; cbn beta iota zeta delta [negb] in H
  end.

Section Runs.
Context {World : Type} {env : Env World}.

Lemma createCreateHandler_run body w r evs :
  invoke (createCreateHandler body) w = (r, evs) →
  ((Js.truthy (projectPath body) = false ∨
    Js.truthy (branchName body) = false) ∧
   r = Ok (Failure 400 "projectPath and branchName required") ∧ evs = []) ∨
  (∃ pp bn,
     projectPath body = Some pp ∧ branchName body = Some bn ∧
     Js.nonempty pp = true ∧ Js.nonempty bn = true ∧
     ((∃ e, r = Ok (Failure 500 (getErrorMessage e)) ∧ evs = []) ∨
      (r = Ok (Failure 400 "Not a git repository") ∧ evs = []) ∨
      (∃ e, r = Ok (Failure 500 (getErrorMessage e)) ∧
         evs = [(FsMkdir (path_join pp ".worktrees"), Throw e)]) ∨
      (∃ o1 o2,
         r = Ok (Failure 400 ("Worktree for branch '" +:+ bn +:+
                              "' already exists")) ∧
         evs = [(FsMkdir (path_join pp ".worktrees"), Ok o1);
                (FsAccess (worktreeDir pp bn), Ok o2)]) ∨
      (∃ o1 e2 verify,
         let pre := [(FsMkdir (path_join pp ".worktrees"), Ok o1);
                     (FsAccess (worktreeDir pp bn), Throw e2);
                     (verifyCall pp bn, verify)] in
         (∃ e, r = Ok (Failure 500 (getErrorMessage e)) ∧
            evs = pre ++ [(addCall body pp bn verify, Throw e)]) ∨
         (∃ out link,
            r = Ok (Success
                      (mkCreated (worktreeDir pp bn) bn
                         (match verify with Ok _ => false | Throw _ => true
                          end))) ∧
            linkOf pp bn link ∧
            evs = pre ++ (addCall body pp bn verify, Ok out) :: link)))).
Proof.
  unfold invoke, createCreateHandler, try_catch, bind, ret, isGitRepoM,
    execAsync, call.
  intros Hrun.
  destruct (projectPath body) as [[|c p]|] eqn:Hp;
    try (left; injection Hrun as <- <-; split; [by left|done]).
  destruct (branchName body) as [[|d b]|] eqn:Hb;
    try (left; injection Hrun as <- <-; split; [by right|done]).
  right. exists (String c p), (String d b).
  do 4 (split; [done|]).
  fold (worktreeDir (String c p) (String d b)) in Hrun.
  set (bn := String d b) in *. set (pp := String c p) in *.
  clearbody bn pp.
  destruct (isGitRepo pp w) as [[[|]|e] w1]; cbn beta iota zeta delta [negb] in Hrun.
  3:{ left. injection Hrun as <- <-. by exists e. }
  2:{ right; left. by injection Hrun as <- <-. }
  do 2 right.
  step Hrun.
  2:{ left. injection Hrun as <- <-. by eexists. }
  right. step Hrun.
  { left. injection Hrun as <- <-. by eexists _, _. }
  right. step Hrun.
  - eexists _, _, (Ok _). cbv zeta. step Hrun.
    2:{ left. injection Hrun as <- <-. by eexists. }
    right. step Hrun.
    + match type of Hrun with
      | context [perform ?c ?w] => destruct (perform c w) as [r6 w7]
      end.
      eexists _, [_; (_, r6)].
      destruct r6; cbn beta iota zeta delta [negb] in Hrun; injection Hrun as <- <-;
        (split; [done|split; [constructor|done]]).
    + eexists _, [_]. injection Hrun as <- <-.
      split; [done|split; [constructor|done]].
  - eexists _, _, (Throw _). cbv zeta. step Hrun.
    2:{ left. injection Hrun as <- <-. by eexists. }
    right. step Hrun.
    + match type of Hrun with
      | context [perform ?c ?w] => destruct (perform c w) as [r6 w7]
      end.
      eexists _, [_; (_, r6)].
      destruct r6; cbn beta iota zeta delta [negb] in Hrun; injection Hrun as <- <-;
        (split; [done|split; [constructor|done]]).
    + eexists _, [_]. injection Hrun as <- <-.
      split; [done|split; [constructor|done]].
Qed.

(** The calls of the handler, told apart. *)
Lemma verifyCall_class pp bn :
  isAddCall (verifyCall pp bn) = false ∧ isLinkCall (verifyCall pp bn) = false.
Proof. done. Qed.

Lemma addCall_class body pp bn verify :
  isAddCall (addCall body pp bn verify) = true ∧
  isLinkCall (addCall body pp bn verify) = false.
Proof. by destruct verify. Qed.

Lemma linkOf_class pp bn link ev :
  linkOf pp bn link → ev ∈ link → isAddCall ev.1 = false.
Proof.
  destruct 1; intros Hin.
  - by apply list_elem_of_singleton in Hin as ->.
  - apply elem_of_cons in Hin as [->|Hin]; [done|].
    by apply list_elem_of_singleton in Hin as ->.
Qed.

(** X15: create answers that the worktree already exists exactly when
    the directory of the branch could be accessed; it has then run no
    command at all, only made sure of the worktrees directory. *)
Theorem existing_directory_rejected body w r evs pp bn :
  invoke (createCreateHandler body) w = (r, evs) →
  projectPath body = Some pp → branchName body = Some bn →
  r = Ok (Failure 400
            ("Worktree for branch '" +:+ bn +:+ "' already exists")) ↔
  ∃ o1 o2, evs = [(FsMkdir (path_join pp ".worktrees"), Ok o1);
                  (FsAccess (worktreeDir pp bn), Ok o2)].
Proof.
  intros Hrun Hp Hb. apply createCreateHandler_run in Hrun.
  destruct Hrun as [(_ & -> & ->)|(pp' & bn' & Hp' & Hb' & _ & _ & Hrun)].
  { split; [done|]. by intros (? & ? & ?). }
  rewrite Hp in Hp'. rewrite Hb in Hb'.
  injection Hp' as <-. injection Hb' as <-.
  destruct Hrun as [(e & -> & ->)|[(-> & ->)|[(e & -> & ->)|
    [(o1 & o2 & -> & ->)|(o1 & e2 & verify & Hrun)]]]].
  - split; [done|]. by intros (? & ? & ?).
  - split; [done|]. by intros (? & ? & ?).
  - split; [done|]. by intros (? & ? & ?).
  - split; [by eexists _, _|done].
  - cbv zeta in Hrun.
    destruct Hrun as [(e & -> & ->)|(out & link & -> & _ & ->)];
      (split; [done|]); by intros (? & ? & ?).
Qed.

(** X16: once [git worktree add] has resolved the answer is the success
    envelope, whatever becomes of the link to the metadata directory:
    the link is only tried when that directory can be accessed, as a
    junction on Windows and a directory link elsewhere, and its failure
    is swallowed.  The worktree is reported as new exactly when the
    branch lookup was rejected. *)
Theorem link_is_best_effort body w r evs c out :
  invoke (createCreateHandler body) w = (r, evs) →
  (c, Ok out) ∈ evs → isAddCall c = true →
  ∃ pp bn o1 e2 verify link,
    projectPath body = Some pp ∧ branchName body = Some bn ∧
    c = addCall body pp bn verify ∧
    r = Ok (Success
              (mkCreated (worktreeDir pp bn) bn
                 (match verify with Ok _ => false | Throw _ => true end))) ∧
    linkOf pp bn link ∧
    evs = [(FsMkdir (path_join pp ".worktrees"), Ok o1);
           (FsAccess (worktreeDir pp bn), Throw e2);
           (verifyCall pp bn, verify); (c, Ok out)] ++ link.
Proof.
  intros Hrun Hin Hc. apply createCreateHandler_run in Hrun.
  destruct Hrun as [(_ & _ & ->)|(pp & bn & Hp & Hb & _ & _ & Hrun)];
    [by apply elem_of_nil in Hin|].
  destruct Hrun as [(e & _ & ->)|[(_ & ->)|[(e & _ & ->)|
    [(o1 & o2 & _ & ->)|(o1 & e2 & verify & Hrun)]]]].
  - by apply elem_of_nil in Hin.
  - by apply elem_of_nil in Hin.
  - apply list_elem_of_singleton in Hin. by injection Hin as ->.
  - apply elem_of_cons in Hin as [Hin|Hin]; [by injection Hin as ->|].
    apply list_elem_of_singleton in Hin. by injection Hin as ->.
  - cbv zeta in Hrun.
    destruct Hrun as [(e & _ & ->)|(out' & link & -> & Hlink & ->)].
    + apply elem_of_app in Hin as [Hin|Hin].
      * apply elem_of_cons in Hin as [Hin|Hin]; [by injection Hin as ->|].
        apply elem_of_cons in Hin as [Hin|Hin]; [by injection Hin as ->|].
        apply list_elem_of_singleton in Hin. injection Hin as -> _.
        by rewrite (proj1 (verifyCall_class pp bn)) in Hc.
      * apply list_elem_of_singleton in Hin. by injection Hin.
    + apply elem_of_app in Hin as [Hin|Hin].
      * apply elem_of_cons in Hin as [Hin|Hin]; [by injection Hin as ->|].
        apply elem_of_cons in Hin as [Hin|Hin]; [by injection Hin as ->|].
        apply list_elem_of_singleton in Hin. injection Hin as -> _.
        by rewrite (proj1 (verifyCall_class pp bn)) in Hc.
      * apply elem_of_cons in Hin as [Hin|Hin].
        -- injection Hin as -> ->. by exists pp, bn, o1, e2, verify, link.
        -- apply (linkOf_class _ _ _ _ Hlink) in Hin. simpl in Hin. congruence.
Qed.

(** X17: when the worktrees directory cannot be made or
    [git worktree add] is rejected, the answer is a 500 with the message
    of that error; it was the last thing the handler did, and no link
    has been made. *)
Theorem add_failure_is_fatal body w r evs c e :
  invoke (createCreateHandler body) w = (r, evs) →
  (c, Throw e) ∈ evs →
  isAddCall c = true ∨ (∃ p, c = FsMkdir p) →
  r = Ok (Failure 500 (getErrorMessage e)) ∧
  last evs = Some (c, Throw e) ∧
  ∀ ev, ev ∈ evs → isLinkCall ev.1 = false.
Proof.
  intros Hrun Hin Hc. apply createCreateHandler_run in Hrun.
  destruct Hrun as [(_ & _ & ->)|(pp & bn & Hp & Hb & _ & _ & Hrun)];
    [by apply elem_of_nil in Hin|].
  destruct Hrun as [(e' & _ & ->)|[(_ & ->)|[(e' & -> & ->)|
    [(o1 & o2 & _ & ->)|(o1 & e2 & verify & Hrun)]]]].
  - by apply elem_of_nil in Hin.
  - by apply elem_of_nil in Hin.
  - apply list_elem_of_singleton in Hin. injection Hin as -> ->.
    split; [done|]. split; [done|]. by intros ev ->%list_elem_of_singleton.
  - apply elem_of_cons in Hin as [Hin|Hin]; [done|].
    by apply list_elem_of_singleton in Hin.
  - cbv zeta in Hrun.
    assert (∀ o, ((c, Throw e) : Event) ≠
                 (FsMkdir (path_join pp ".worktrees"), Ok o)) as H1 by done.
    assert (((c, Throw e) : Event) ≠
            (FsAccess (worktreeDir pp bn), Throw e2)) as H2.
    { intros [= -> _]. by destruct Hc as [?|[? ?]]. }
    assert (((c, Throw e) : Event) ≠ (verifyCall pp bn, verify)) as H3.
    { intros [= -> _]. by destruct Hc as [?|[? ?]]. }
    destruct Hrun as [(e' & -> & ->)|(out & link & -> & Hlink & ->)].
    + apply elem_of_app in Hin as [Hin|Hin].
      { apply elem_of_cons in Hin as [Hin|Hin]; [by destruct (H1 o1)|].
        apply elem_of_cons in Hin as [Hin|Hin]; [done|].
        by apply list_elem_of_singleton in Hin. }
      apply list_elem_of_singleton in Hin. injection Hin as -> ->.
      split; [done|]. split; [done|].
      intros ev Hev. apply elem_of_app in Hev as [Hev|Hev].
      * apply elem_of_cons in Hev as [->|Hev]; [done|].
        apply elem_of_cons in Hev as [->|Hev]; [done|].
        by apply list_elem_of_singleton in Hev as ->.
      * apply list_elem_of_singleton in Hev as ->.
        apply addCall_class.
    + exfalso. apply elem_of_app in Hin as [Hin|Hin].
      { apply elem_of_cons in Hin as [Hin|Hin]; [by destruct (H1 o1)|].
        apply elem_of_cons in Hin as [Hin|Hin]; [done|].
        by apply list_elem_of_singleton in Hin. }
      apply elem_of_cons in Hin as [Hin|Hin]; [done|].
      destruct Hlink.
      * apply list_elem_of_singleton in Hin. injection Hin as -> _.
        by destruct Hc as [?|[? ?]].
      * apply elem_of_cons in Hin as [Hin|Hin]; [done|].
        apply list_elem_of_singleton in Hin. injection Hin as -> _.
        by destruct Hc as [?|[? ?]].
Qed.

End Runs.

(** *** The directory name *)

Lemma sanitizedName_app a b :
  sanitizedName (a +:+ b) = sanitizedName a +:+ sanitizedName b.
Proof.
  unfold sanitizedName. induction a as [|c a IH]; [done|].
  cbn [String.append Js.replace_class]. rewrite IH.
  by destruct (negb (dirChar c)).
Qed.

(** X14: the directory name is made of letters, digits, underscores and
    dashes only, so it has no path separator and no dot; sanitizing is
    idempotent and leaves alone a name that is already of that kind; and
    it is not injective: any character outside the class gives what a
    dash in its place gives. *)
Theorem sanitized_name_safe (bn : string) :
  Js.all dirChar (sanitizedName bn) = true ∧
  sanitizedName (sanitizedName bn) = sanitizedName bn ∧
  (Js.all dirChar bn = true → sanitizedName bn = bn) ∧
  ∀ a c b, bn = a +:+ String c b → dirChar c = false →
    sanitizedName bn = sanitizedName (a +:+ String "-" b).
Proof.
  assert (∀ s, Js.all dirChar s = true → sanitizedName s = s) as Hfix.
  { unfold sanitizedName. induction s as [|c s IH]; [done|].
    cbn [Js.all Js.replace_class]. intros [Hc Hs]%andb_true_iff.
    rewrite Hc. cbn [negb]. by rewrite IH. }
  assert (Js.all dirChar (sanitizedName bn) = true) as Hall.
  { unfold sanitizedName. induction bn as [|c s IH]; [done|].
    cbn [Js.replace_class]. destruct (dirChar c) eqn:Hc; cbn [negb].
    - cbn [Js.all]. by rewrite Hc, IH.
    - cbn [String.append Js.all]. by rewrite IH. }
  split; [done|]. split; [by apply Hfix|]. split; [apply Hfix|].
  intros a c b -> Hc. rewrite !sanitizedName_app. f_equal.
  unfold sanitizedName. cbn [Js.replace_class]. by rewrite Hc.
Qed.

Lemma existing_directory_rejected_witness :
  let run := invoke (createCreateHandler (env := scripted)
                       Scenarios.createRequest) Scenarios.occupied in
  run.1 = Ok (Failure 400
                "Worktree for branch 'feature/login v2' already exists") ↔
  ∃ o1 o2,
    run.2 = [(FsMkdir "/repo/.worktrees", Ok o1);
             (FsAccess "/repo/.worktrees/feature-login-v2", Ok o2)].
Proof.
  cbv zeta.
  set (run := invoke (createCreateHandler (env := scripted)
                        Scenarios.createRequest) Scenarios.occupied).
  apply (existing_directory_rejected (env := scripted)
           Scenarios.createRequest Scenarios.occupied run.1 run.2
           "/repo" "feature/login v2");
    [apply surjective_pairing|reflexivity..].
Defined.

Lemma link_is_best_effort_witness :
  let run := invoke (createCreateHandler (env := scripted)
                       Scenarios.createRequest) Scenarios.created in
  ∃ pp bn o1 e2 verify link,
    projectPath Scenarios.createRequest = Some pp ∧
    branchName Scenarios.createRequest = Some bn ∧
    run.1 = Ok (Success
                  (mkCreated (worktreeDir (env := scripted) pp bn) bn
                     (match verify with Ok _ => false | Throw _ => true
                      end))) ∧
    linkOf (env := scripted) pp bn link ∧
    run.2 = [(FsMkdir (path_join (Env := scripted) pp ".worktrees"), Ok o1);
             (FsAccess (worktreeDir (env := scripted) pp bn), Throw e2);
             (verifyCall pp bn, verify);
             (addCall (env := scripted) Scenarios.createRequest pp bn verify,
              Ok "Preparing worktree")] ++ link.
Proof.
  cbv zeta.
  set (run := invoke (createCreateHandler (env := scripted)
                        Scenarios.createRequest) Scenarios.created).
  destruct (link_is_best_effort (env := scripted) Scenarios.createRequest
              Scenarios.created run.1 run.2
              (Exec ("git worktree add -b feature/login v2 " +:+
                     Js.quoted "/repo/.worktrees/feature-login-v2" +:+
                     " HEAD") (Some "/repo") false)
              "Preparing worktree")
    as (pp & bn & o1 & e2 & verify & link & Hp & Hb & Hc & Hr & Hl & Hevs);
    [apply surjective_pairing|vm_compute; here|reflexivity|].
  exists pp, bn, o1, e2, verify, link.
  rewrite <- Hc. by repeat split.
Defined.

Lemma add_failure_is_fatal_witness :
  let run := invoke (createCreateHandler (env := scripted)
                       Scenarios.createRequest) Scenarios.addRejected in
  run.1 = Ok (Failure 500 "Command failed: git worktree add") ∧
  ∀ ev, ev ∈ run.2 → isLinkCall ev.1 = false.
Proof.
  cbv zeta.
  set (run := invoke (createCreateHandler (env := scripted)
                        Scenarios.createRequest) Scenarios.addRejected).
  destruct (add_failure_is_fatal (env := scripted) Scenarios.createRequest
              Scenarios.addRejected run.1 run.2
              (Exec ("git worktree add -b feature/login v2 " +:+
                     Js.quoted "/repo/.worktrees/feature-login-v2" +:+
                     " HEAD") (Some "/repo") false)
              (mkError (Some "fatal: invalid reference: base")
                 (Some "Command failed: git worktree add")))
    as (Hr & _ & Hlink);
    [apply surjective_pairing|vm_compute; here|by left|].
  by split.
Defined.

End CreateFacts.

(** ** More about the publication pipeline *)

Module PublicationFacts.
Import Host CreatePR.
Import CreatePRFacts.

Section Runs.
Context {World : Type} {env : Env World}.

Lemma commitChanges_steps cwd req w log r st' :
  commitChanges cwd req (w, log) = (r, st') →
  ∃ evs, st'.2 = log ++ evs ∧ commitStep cwd req evs r.
Proof.
  unfold commitChanges. unfold_async. intros Hrun.
  next_call Hrun;
    [|injection Hrun as <- <-; eexists; split; [done|constructor]].
  next_call Hrun;
    [|injection Hrun as <- <-; eexists;
      split; [by rewrite <- !app_assoc|constructor]].
  destruct (Js.nonempty (Js.trim a0)) eqn:Hhc.
  - next_call Hrun;
      [|injection Hrun as <- <-; eexists;
        split; [by rewrite <- !app_assoc|by constructor]].
    next_call Hrun;
      [|injection Hrun as <- <-; eexists;
        split; [by rewrite <- !app_assoc|by apply commit_rejected]].
    next_call Hrun; injection Hrun as <- <-; eexists;
      (split; [by rewrite <- !app_assoc|]).
    + by apply commit_made.
    + by apply commit_no_hash.
  - injection Hrun as <- <-. eexists.
    split; [by rewrite <- !app_assoc|]. by constructor.
Qed.

(** Every way a request can go, with the commit step spelled out. *)
Lemma handler_steps req w r evs :
  invoke (createCreatePRHandler req) w = (r, evs) →
  (Js.truthy (worktreePath req) = false ∧
   r = Ok (Failure 400 "worktreePath required") ∧ evs = []) ∨
  (∃ e, r = Ok (Failure 500 (getErrorMessage e)) ∧
     commitStep (worktreePath req) req evs (Throw e)) ∨
  (∃ b hc h pre,
     let cwd := worktreePath req in
     commitStep cwd req pre (Ok (b, hc, h)) ∧
     ((∃ e1 e2,
         evs = pre ++ [(plainPush cwd b, Throw e1);
                       (upstreamPush cwd b, Throw e2)] ∧
         r = Ok (Failure 500 ("Failed to push branch: " +:+
                              errorText e2 "Push failed"))) ∨
      (∃ pushEvs, pushedBy cwd b pushEvs ∧
         ((∃ e,
             evs = pre ++ pushEvs ++ [(ghProbe, Throw e)] ∧
             r = Ok (Success
                       (mkResult b hc h true None false
                          (Some (errorText e "PR creation failed"))))) ∨
          (∃ out remotes pr,
             evs = pre ++ pushEvs ++
                   [(ghProbe, Ok out); (listRemotes cwd, remotes);
                    (prCall cwd req b (forkOf remotes), pr)] ∧
             r = Ok (Success
                       match pr with
                       | Ok url =>
                           mkResult b hc h true (Some (Js.trim url))
                             (Js.nonempty (Js.trim url)) None
                       | Throw e =>
                           mkResult b hc h true None false
                             (Some (errorText e "PR creation failed"))
                       end)))))).
Proof.
  unfold invoke, createCreatePRHandler, try_catch, bind. intros Hrun.
  destruct (worktreePath req) as [[|c p]|] eqn:Hwt;
    [left; by injection Hrun as <- <-| |left; by injection Hrun as <- <-].
  right.
  destruct (commitChanges _ req (w, [])) as [rc [w1 log1]] eqn:Hc.
  apply commitChanges_steps in Hc as (pre & Hlog & Hpre).
  cbn in Hlog. subst log1.
  destruct rc as [[[b hc] h]|e];
    [|left; injection Hrun as <- <-; by exists e].
  right. exists b, hc, h, pre. cbv zeta. split; [done|].
  destruct (pushBranch _ b (w1, pre)) as [rp [w2 log2]] eqn:Hp.
  apply pushBranch_run in Hp as (pushEvs & Hlog & Hp).
  cbn in Hlog. subst log2.
  assert ((pushedBy (Some (String c p)) b pushEvs ∧ rp = Ok None) ∨
          (∃ e1 e2, rp = Ok (Some (errorText e2 "Push failed")) ∧
             pushEvs = [(plainPush (Some (String c p)) b, Throw e1);
                        (upstreamPush (Some (String c p)) b, Throw e2)]))
    as [[Hpb ->]|(e1 & e2 & -> & ->)].
  { destruct Hp as [(out & -> & ->)|[(e1 & out & -> & ->)|Hp]].
    - left. split; [left; eauto|done].
    - left. split; [right; eauto|done].
    - by right. }
  2:{ left.
      destruct (errorText_nonempty e2 "Push failed") as (c' & s' & He);
        [done|].
      rewrite He in Hrun. unfold ret in Hrun. injection Hrun as <- <-.
      exists e1, e2. by rewrite He. }
  right. exists pushEvs. split; [done|].
  match type of Hrun with
  | context [createPR ?a ?b ?c ?d ?e ?f ?st] =>
      destruct (createPR a b c d e f st) as [rq [w3 log3]] eqn:Hq';
      apply createPR_run in Hq' as (prEvs & Hlog & Hq')
  end.
  cbn in Hlog. subst log3. unfold ret in Hrun.
  destruct Hq' as [(e & -> & ->)|(o & remotes & pr & -> & ->)].
  - left. exists e. injection Hrun as <- <-.
    destruct (errorText_nonempty e "PR creation failed")
      as (c' & s' & He); [done|].
    rewrite He. split; [by rewrite <- app_assoc|done].
  - right. exists o, remotes, pr.
    split; [destruct pr; injection Hrun as <- <-;
            by rewrite <- app_assoc|].
    destruct pr as [url|e]; injection Hrun as <- <-.
    + by destruct (Js.trim url).
    + destruct (errorText_nonempty e "PR creation failed")
        as (c' & s' & He); [done|]. by rewrite He.
Qed.

Lemma afterCommit_push cwd b r : afterCommit cwd (plainPush cwd b, r).
Proof. split; [done|right; by eexists]. Qed.

Lemma afterCommit_retry cwd b r : afterCommit cwd (upstreamPush cwd b, r).
Proof. split; [done|right; by eexists]. Qed.

Lemma afterCommit_probe cwd r : afterCommit cwd (ghProbe, r).
Proof. split; [done|by left]. Qed.

Lemma afterCommit_remotes cwd r : afterCommit cwd (listRemotes cwd, r).
Proof. split; [done|right; by eexists]. Qed.

Lemma afterCommit_pr cwd req b fork r : afterCommit cwd (prCall cwd req b fork, r).
Proof.
  split; [apply prCall_class|right; by eexists].
Qed.

Ltac all_afterCommit :=
  repeat (apply Forall_cons_2;
          [first [apply afterCommit_push | apply afterCommit_retry | apply afterCommit_probe
                 | apply afterCommit_remotes | apply afterCommit_pr]|]);
  apply Forall_nil_2.

Lemma afterCommit_pushedBy cwd b pushEvs :
  pushedBy cwd b pushEvs → Forall (afterCommit cwd) pushEvs.
Proof. intros [(out & ->)|(e1 & out & ->)]; all_afterCommit. Qed.

Lemma handler_flat req w r evs :
  invoke (createCreatePRHandler req) w = (r, evs) →
  evs = [] ∨
  (∃ e, r = Ok (Failure 500 (getErrorMessage e)) ∧
     commitStep (worktreePath req) req evs (Throw e)) ∨
  (∃ b hc h pre rest,
     commitStep (worktreePath req) req pre (Ok (b, hc, h)) ∧
     evs = pre ++ rest ∧ Forall (afterCommit (worktreePath req)) rest ∧
     ∀ res, r = Ok (Success res) →
       branch res = b ∧ committed res = hc ∧ commitHash res = h).
Proof.
  intros Hrun. apply handler_steps in Hrun.
  destruct Hrun as [(_ & _ & ->)|[Hrun|(b & hc & h & pre & Hpre & Hrun)]];
    [by left|right; by left|].
  right; right. exists b, hc, h, pre. cbv zeta in Hrun.
  destruct Hrun as [(e1 & e2 & -> & ->)|(pushEvs & Hpb & Hrun)].
  { eexists. split; [done|]. split; [done|]. split; [all_afterCommit|done]. }
  apply afterCommit_pushedBy in Hpb.
  destruct Hrun as [(e & -> & ->)|(out & remotes & pr & -> & ->)].
  - eexists. split; [done|]. split; [done|]. split.
    + apply Forall_app. split; [done|]. all_afterCommit.
    + by intros res [= <-].
  - eexists. split; [done|]. split; [done|]. split.
    + apply Forall_app. split; [done|]. all_afterCommit.
    + intros res Hres. by destruct pr; injection Hres as <-.
Qed.

Lemma take_length n s : (String.length (Js.take n s) <= n)%nat.
Proof.
  revert s. induction n as [|n IH]; intros [|c s]; simpl; try lia.
  specialize (IH s). lia.
Qed.

Lemma commitStep_ok cwd req pre b hc h :
  commitStep cwd req pre (Ok (b, hc, h)) →
  (hc = false ∧ h = None) ∨
  (hc = true ∧ ∃ o, h = Some (Js.take 8 (Js.trim o))).
Proof.
  intros Hstep. remember (Ok (b, hc, h)) as r eqn:Hr.
  destruct Hstep; try discriminate; injection Hr as <- <- <-.
  - by left.
  - right. split; [done|]. by eexists.
Qed.

(** X18: every success envelope of the publication is consistent:
    [pushed] is set; [prCreated] is set exactly when [prUrl] is a
    non-empty string, and then there is no [prError]; a [prError] is
    never empty and comes without [prUrl]; there is a commit hash
    exactly when a commit was made, and it has at most eight
    characters. *)
Theorem publication_result_invariants req w res evs :
  invoke (createCreatePRHandler req) w = (Ok (Success res), evs) →
  pushed res = true ∧
  prCreated res = Js.truthy (prUrl res) ∧
  (prCreated res = true → prError res = None) ∧
  (∀ e, prError res = Some e → prUrl res = None ∧ Js.nonempty e = true) ∧
  (committed res = true ↔ is_Some (commitHash res)) ∧
  (∀ h, commitHash res = Some h → (String.length h <= 8)%nat).
Proof.
  intros Hrun. apply handler_steps in Hrun.
  destruct Hrun as [(_ & [=] & _)|[(e & [=] & _)|
    (b & hc & h & pre & Hpre & Hrun)]].
  cbv zeta in Hrun.
  assert ((hc = true ↔ is_Some h) ∧
          ∀ h', h = Some h' → (String.length h' <= 8)%nat) as [Hhc Hh].
  { destruct (commitStep_ok _ _ _ _ _ _ Hpre) as [[-> ->]|[-> [o ->]]].
    - split; [|done]. split; [done|]. by intros [? ?].
    - split; [by split|]. intros h' Heq.
      assert (h' = Js.take 8 (Js.trim o)) as -> by congruence.
      apply take_length. }
  destruct Hrun as [(e1 & e2 & _ & [=])|(pushEvs & _ & Hrun)].
  assert (∀ e : JsError,
            ∀ e', Some (errorText e "PR creation failed") = Some e' →
                  (None : option string) = None ∧ Js.nonempty e' = true)
    as Herr.
  { intros e e' [= <-].
    by destruct (errorText_nonempty e "PR creation failed")
      as (c' & s' & ->). }
  destruct Hrun as [(e & _ & Hres)|(out & remotes & pr & _ & Hres)];
    [|destruct pr as [url|e]]; injection Hres as ->;
    cbn [pushed prCreated prUrl prError committed commitHash Js.truthy];
    (split; [done|]); (split; [try done|]); try (by destruct (Js.trim url));
    (split; [done|]); (split; [try done; apply Herr|]); by split.
Qed.

Lemma commitStep_afterCommit cwd req pre rest r c e :
  commitStep cwd req pre (Ok r) → Forall (afterCommit cwd) rest →
  (c, Throw e) ∈ pre ++ rest → isCommitStepCall c = false.
Proof.
  intros Hpre Hrest [Hin|Hin]%elem_of_app.
  - exfalso. inversion Hpre; subst;
      repeat (apply elem_of_cons in Hin as [Hin|Hin]; [done|]);
      by apply elem_of_nil in Hin.
  - by apply (proj1 (Forall_forall _ _) Hrest) in Hin as [? _].
Qed.

(** The calls of the commit step are neither pushes nor calls of the
    hosting CLI, and they are made in the worktree. *)
Lemma commitStep_calls cwd req evs r ev :
  commitStep cwd req evs r → ev ∈ evs →
  isCommitStepCall ev.1 = true ∧ isPushCall ev.1 = false ∧
  isPRCall ev.1 = false ∧ ev.1 ≠ ghProbe ∧ ranIn cwd ev.1.
Proof.
  intros Hstep Hin.
  assert (isCommitStepCall ev.1 = true ∧ ranIn cwd ev.1) as [Hc Hr].
  { inversion Hstep; subst;
      repeat (apply elem_of_cons in Hin as [->|Hin];
              [split; [done|by eexists]|]);
      by apply elem_of_nil in Hin. }
  by destruct (commit_step_call _ Hc) as (? & ? & ? & _).
Qed.

(** X19: when a command of the commit step is rejected (reading the
    branch or the status, staging, committing, reading the hash), the
    answer is a 500 with the message of that error; the rejected command
    is the last that was run, so nothing has been pushed and the hosting
    CLI has not been called. *)
Theorem commit_failure_stops_before_push req w r evs c e :
  invoke (createCreatePRHandler req) w = (r, evs) →
  (c, Throw e) ∈ evs → isCommitStepCall c = true →
  r = Ok (Failure 500 (getErrorMessage e)) ∧
  last evs = Some (c, Throw e) ∧
  ∀ ev, ev ∈ evs →
    isPushCall ev.1 = false ∧ isPRCall ev.1 = false ∧ ev.1 ≠ ghProbe.
Proof.
  intros Hrun Hin Hc. apply handler_flat in Hrun.
  destruct Hrun as [->|[(e' & -> & Hstep)|
    (b & hc & h & pre & rest & Hpre & -> & Hrest & _)]].
  - by apply elem_of_nil in Hin.
  - assert (last evs = Some (c, Throw e) ∧ e' = e) as [Hlast ->].
    { inversion Hstep; subst;
        repeat (apply elem_of_cons in Hin as [Hin|Hin];
                [try done; by injection Hin as -> ->|]);
        by apply elem_of_nil in Hin. }
    split; [done|]. split; [done|]. intros ev Hev.
    by destruct (commitStep_calls _ _ _ _ _ Hstep Hev) as (_ & ? & ? & ? & _).
  - rewrite (commitStep_afterCommit _ _ _ _ _ _ _ Hpre Hrest Hin) in Hc. done.
Qed.

(** X20: every command of the publication is run in the worktree of the
    request and with the extended search path; the one exception is the
    probe for the hosting CLI, which has no working directory.  The
    handler touches nothing through the file system. *)
Theorem commands_run_in_worktree req w r evs ev :
  invoke (createCreatePRHandler req) w = (r, evs) →
  ev ∈ evs →
  ev.1 = ghProbe ∨ ranIn (worktreePath req) ev.1.
Proof.
  intros Hrun Hin. apply handler_flat in Hrun.
  destruct Hrun as [->|[(e' & -> & Hstep)|
    (b & hc & h & pre & rest & Hpre & -> & Hrest & _)]].
  - by apply elem_of_nil in Hin.
  - right. by destruct (commitStep_calls _ _ _ _ _ Hstep Hin)
      as (_ & _ & _ & _ & ?).
  - apply elem_of_app in Hin as [Hin|Hin].
    + right. by destruct (commitStep_calls _ _ _ _ _ Hpre Hin)
        as (_ & _ & _ & _ & ?).
    + by apply (proj1 (Forall_forall _ _) Hrest) in Hin as [_ ?].
Qed.

Lemma staging_is_commit_step c :
  isStagingCall c = true → isCommitStepCall c = true.
Proof.
  destruct c as [command ? ?| | |]; try done. cbn [isStagingCall isCommitStepCall].
  intros [H|H]%orb_true_iff; rewrite H; by rewrite ?orb_true_r.
Qed.

Lemma commitStep_status cwd req evs r cwd' status :
  commitStep cwd req evs r →
  (Exec "git status --porcelain" cwd' true, Ok status) ∈ evs →
  if Js.nonempty (Js.trim status)
  then (∃ res, (Exec "git add -A" cwd' true, res) ∈ evs) ∧
       ∀ b hc h, r = Ok (b, hc, h) → hc = true
  else (∀ ev, ev ∈ evs → isStagingCall ev.1 = false) ∧
       ∀ b hc h, r = Ok (b, hc, h) → hc = false ∧ h = None.
Proof.
  intros Hstep Hin.
  destruct Hstep as [e|o1 e|o1 o2 Hs|o1 o2 e Hs|o1 o2 o3 e Hs|
                     o1 o2 o3 o4 e Hs|o1 o2 o3 o4 o5 Hs];
    repeat (apply elem_of_cons in Hin as [Hin|Hin]; [try done|]);
    try (by apply elem_of_nil in Hin);
    injection Hin as <- <-; rewrite Hs.
  - split; [|by intros ? ? ? [= _ <- <-]].
    intros ev Hev.
    repeat (apply elem_of_cons in Hev as [->|Hev]; [done|]).
    by apply elem_of_nil in Hev.
  - split; [eexists; here|done].
  - split; [eexists; here|done].
  - split; [eexists; here|done].
  - split; [eexists; here|]. by intros ? ? ? [= _ <- _].
Qed.

(** X21: whether a commit is made is decided by the status output.
    When it is blank, nothing is staged or committed and the envelope
    reports no commit and no hash; when it is not, [git add -A] is run,
    and the envelope of a run that gets that far reports a commit. *)
Theorem clean_tree_skips_commit req w r evs cwd status :
  invoke (createCreatePRHandler req) w = (r, evs) →
  (Exec "git status --porcelain" cwd true, Ok status) ∈ evs →
  if Js.nonempty (Js.trim status)
  then (∃ res, (Exec "git add -A" cwd true, res) ∈ evs) ∧
       ∀ result, r = Ok (Success result) → committed result = true
  else (∀ ev, ev ∈ evs → isStagingCall ev.1 = false) ∧
       ∀ result, r = Ok (Success result) →
         committed result = false ∧ commitHash result = None.
Proof.
  intros Hrun Hin. apply handler_flat in Hrun.
  destruct Hrun as [->|[(e' & -> & Hstep)|
    (b & hc & h & pre & rest & Hpre & -> & Hrest & Hres)]].
  - by apply elem_of_nil in Hin.
  - pose proof (commitStep_status _ _ _ _ _ _ Hstep Hin) as Hs.
    destruct (Js.nonempty (Js.trim status)); destruct Hs as [Hs _];
      (split; [done|]); by intros result [=].
  - apply elem_of_app in Hin as [Hin|Hin].
    2:{ by apply (proj1 (Forall_forall _ _) Hrest) in Hin as [? _]. }
    pose proof (commitStep_status _ _ _ _ _ _ Hpre Hin) as Hs.
    destruct (Js.nonempty (Js.trim status)); destruct Hs as [Hs Hhc].
    + split.
      * destruct Hs as [res Hs]. exists res. apply elem_of_app. by left.
      * intros result Hr. destruct (Hres result Hr) as (_ & -> & _).
        by eapply Hhc.
    + split.
      * intros ev [Hev|Hev]%elem_of_app; [by apply Hs|].
        apply (proj1 (Forall_forall _ _) Hrest) in Hev as [Hev _].
        destruct (isStagingCall ev.1) eqn:Hst; [|done].
        apply staging_is_commit_step in Hst. congruence.
      * intros result Hr. destruct (Hres result Hr) as (_ & -> & ->).
        by eapply Hhc.
Qed.

(** Only a line that begins with [origin] and white space sets
    [originOwner]. *)
Lemma scanRemote_origin acc line :
  namesOrigin line = false → (scanRemote acc line).2 = acc.2.
Proof.
  intros Hno. unfold scanRemote.
  destruct (Re.remoteLine line) as [[[n o] p]|] eqn:Hline; [|done].
  destruct (String.eqb_spec n "upstream") as [->|_]; [done|].
  destruct (String.eqb_spec n "origin") as [->|_]; [|done].
  apply ReFacts.remoteLine_sound in Hline as (w' & rest & -> & _ & Hw & _).
  unfold namesOrigin in Hno. simpl in Hno. by rewrite Hw in Hno.
Qed.

Lemma detectFork_no_origin lines : ∀ acc,
  (∀ line, line ∈ lines → namesOrigin line = false) →
  (foldl scanRemote acc lines).2 = acc.2.
Proof.
  induction lines as [|line lines IH]; intros acc Hno; [done|].
  cbn [foldl]. rewrite IH by (intros l Hl; apply Hno; by right).
  apply scanRemote_origin, Hno. by left.
Qed.

Lemma prCall_no_origin cwd req b fork :
  fork.2 = None → prCall cwd req b fork = prCall cwd req b (None, None).
Proof.
  destruct fork as [[[|a u]|] o]; cbn [snd]; by intros ->.
Qed.

(** The remotes are listed once, after the probe and before the review
    request, which is the last call. *)
Lemma remotes_listed req w r evs cwd remotes :
  invoke (createCreatePRHandler req) w = (r, evs) →
  (listRemotes cwd, remotes) ∈ evs →
  ∃ o b pr,
    (Exec "git rev-parse --abbrev-ref HEAD" cwd true, Ok o) ∈ evs ∧
    b = Js.trim o ∧
    last evs = Some (prCall cwd req b (forkOf remotes), pr).
Proof.
  intros Hrun Hin. apply handler_steps in Hrun.
  destruct Hrun as [(_ & _ & ->)|[(e & _ & Hstep)|
    (b & hc & h & pre & Hpre & Hrun)]].
  - by apply elem_of_nil in Hin.
  - destruct (commitStep_calls _ _ _ _ _ Hstep Hin) as (Hc & _).
    done.
  - cbv zeta in Hrun.
    assert ((listRemotes cwd, remotes) ∉ pre) as Hnpre.
    { intros Hp. by destruct (commitStep_calls _ _ _ _ _ Hpre Hp) as (? & _). }
    assert (∀ pushEvs, pushedBy (worktreePath req) b pushEvs →
              (listRemotes cwd, remotes) ∉ pushEvs) as Hnpush.
    { intros pushEvs Hpb Hp.
      destruct (pushedBy_elem _ _ _ _ Hpb Hp) as (_ & _ & Hne & _).
      by destruct (Hne cwd). }
    assert (∃ o, (Exec "git rev-parse --abbrev-ref HEAD" (worktreePath req)
                    true, Ok o) ∈ pre ∧ b = Js.trim o) as (o & Ho & Hb).
    { remember (Ok (b, hc, h)) as rc eqn:Hr.
      destruct Hpre; try discriminate; injection Hr as <- _ _;
        exists o1; (split; [here|done]). }
    destruct Hrun as [(e1 & e2 & -> & _)|(pushEvs & Hpb & Hrun)].
    { apply elem_of_app in Hin as [Hin|Hin]; [done|].
      apply elem_of_cons in Hin as [Hin|Hin]; [done|].
      by apply list_elem_of_singleton in Hin. }
    destruct Hrun as [(e & -> & _)|(out & remotes' & pr & -> & _)].
    { apply elem_of_app in Hin as [Hin|Hin]; [done|].
      apply elem_of_app in Hin as [Hin|Hin]; [by apply Hnpush in Hin|].
      by apply list_elem_of_singleton in Hin. }
    apply elem_of_app in Hin as [Hin|Hin]; [done|].
    apply elem_of_app in Hin as [Hin|Hin]; [by apply Hnpush in Hin|].
    apply elem_of_cons in Hin as [Hin|Hin]; [done|].
    apply elem_of_cons in Hin as [Hin|Hin].
    2:{ apply list_elem_of_singleton in Hin.
        destruct (prCall_class (worktreePath req) req b (forkOf remotes'))
          as (_ & _ & _ & _ & Hne).
        destruct (Hne cwd). congruence. }
    injection Hin as -> <-.
    exists o, b, pr. split; [apply elem_of_app; by left|]. split; [done|].
    rewrite !app_assoc.
    change [(ghProbe, Ok out); (listRemotes (worktreePath req), remotes);
            (?c, pr)]
      with ([(ghProbe, Ok out);
             (listRemotes (worktreePath req), remotes)] ++ [(c, pr)]).
    by rewrite !app_assoc, last_snoc.
Qed.

(** X22: the review request is only made across repositories when an
    upstream and an origin were both found.  When listing the remotes
    is rejected, or when no line of the listing begins with [origin] and
    white space, the request is the one of a single repository, without
    [--repo] and with the branch as head. *)
Theorem fork_needs_both_remotes req w r evs cwd remotes :
  invoke (createCreatePRHandler req) w = (r, evs) →
  (listRemotes cwd, remotes) ∈ evs →
  match remotes with
  | Throw _ => True
  | Ok out =>
      ∀ line, line ∈ Js.split Js.newline out → namesOrigin line = false
  end →
  ∃ o pr,
    (Exec "git rev-parse --abbrev-ref HEAD" cwd true, Ok o) ∈ evs ∧
    last evs = Some (prCall cwd req (Js.trim o) (None, None), pr).
Proof.
  intros Hrun Hin Hno.
  destruct (remotes_listed _ _ _ _ _ _ Hrun Hin) as (o & b & pr & Ho & -> & Hl).
  exists o, pr. split; [done|]. rewrite Hl. do 2 f_equal.
  apply prCall_no_origin. destruct remotes as [out|e]; [|done].
  apply (detectFork_no_origin _ (None, None) Hno).
Qed.

(** X23: the push with [--set-upstream] is a retry: it is run once,
    right after a plain push of the same branch was rejected, and not
    otherwise.  When it resolves, the handler goes on to the hosting
    CLI and answers with a success envelope. *)
Theorem retry_follows_rejected_push req w r evs cwd b res :
  invoke (createCreatePRHandler req) w = (r, evs) →
  (upstreamPush cwd b, res) ∈ evs →
  ∃ pre e1 post,
    evs = pre ++ (plainPush cwd b, Throw e1) :: (upstreamPush cwd b, res) ::
          post ∧
    (∀ ev, ev ∈ pre ++ post → isPushCall ev.1 = false) ∧
    match res with
    | Ok _ => post ≠ [] ∧ ∃ result, r = Ok (Success result)
    | Throw _ => post = []
    end.
Proof.
  intros Hrun Hin. apply handler_steps in Hrun.
  destruct Hrun as [(_ & _ & ->)|[(e & _ & Hstep)|
    (b' & hc & h & pre & Hpre & Hrun)]].
  - by apply elem_of_nil in Hin.
  - by destruct (commitStep_calls _ _ _ _ _ Hstep Hin) as (_ & ? & _).
  - cbv zeta in Hrun.
    assert (∀ ev, ev ∈ pre → isPushCall ev.1 = false) as Hpre'.
    { intros ev Hev.
      by destruct (commitStep_calls _ _ _ _ _ Hpre Hev) as (_ & ? & _). }
    assert ((upstreamPush cwd b, res) ∉ pre) as Hnpre.
    { intros Hp. by apply Hpre' in Hp. }
    destruct Hrun as [(e1 & e2 & -> & _)|(pushEvs & Hpb & Hrun)].
    { apply elem_of_app in Hin as [Hin|Hin]; [done|].
      apply elem_of_cons in Hin as [Hin|Hin]; [done|].
      apply list_elem_of_singleton in Hin. injection Hin as -> -> ->.
      exists pre, e1, []. split; [done|]. split; [|done].
      intros ev Hev. rewrite app_nil_r in Hev. by apply Hpre'. }
    assert (∀ tail, Forall (λ ev : Event, isPushCall ev.1 = false) tail →
              (upstreamPush cwd b, res) ∈ pre ++ pushEvs ++ tail →
              ∃ e1 out, pushEvs = [(plainPush cwd b, Throw e1);
                                   (upstreamPush cwd b, Ok out)] ∧
                res = Ok out) as Hfind.
    { intros tail Htail Hin'.
      apply elem_of_app in Hin' as [Hin'|Hin']; [done|].
      apply elem_of_app in Hin' as [Hin'|Hin'].
      2:{ by apply (proj1 (Forall_forall _ _) Htail) in Hin'. }
      destruct Hpb as [(out & ->)|(e1 & out & ->)].
      - by apply list_elem_of_singleton in Hin'.
      - apply elem_of_cons in Hin' as [Hin'|Hin']; [done|].
        apply list_elem_of_singleton in Hin'. injection Hin' as -> -> ->.
        by exists e1, out. }
    destruct Hrun as [(e & -> & ->)|(out & remotes & pr & -> & ->)].
    + destruct (Hfind [(ghProbe, Throw e)]) as (e1 & o & -> & ->);
        [by repeat constructor|done|].
      exists pre, e1, [(ghProbe, Throw e)]. split; [done|]. split.
      * intros ev [Hev|Hev]%elem_of_app; [by apply Hpre'|].
        by apply list_elem_of_singleton in Hev as ->.
      * split; [done|by eexists].
    + destruct (Hfind [(ghProbe, Ok out);
                       (listRemotes (worktreePath req), remotes);
                       (prCall (worktreePath req) req b' (forkOf remotes), pr)])
        as (e1 & o & -> & ->); [|done|].
      { repeat (apply Forall_cons_2; [try done|]); [|done].
        apply prCall_class. }
      eexists pre, e1, _. split; [done|]. split.
      * intros ev [Hev|Hev]%elem_of_app; [by apply Hpre'|].
        apply elem_of_cons in Hev as [->|Hev]; [done|].
        apply elem_of_cons in Hev as [->|Hev]; [done|].
        apply list_elem_of_singleton in Hev as ->. apply prCall_class.
      * split; [done|by eexists].
Qed.

End Runs.
Lemma publication_result_invariants_witness :
  let res := mkResult "feat" true (Some "01234567") true
               (Some "https://github.com/org/repo/pull/7") true None in
  (invoke (createCreatePRHandler (env := scripted) Scenarios.request)
     Scenarios.published).1 = Ok (Success res) ∧
  pushed res = true ∧ prCreated res = Js.truthy (prUrl res) ∧
  (committed res = true ↔ is_Some (commitHash res)).
Proof.
  cbv zeta. split; [vm_compute; reflexivity|].
  set (run := invoke (createCreatePRHandler (env := scripted)
                        Scenarios.request) Scenarios.published).
  destruct (publication_result_invariants (env := scripted) Scenarios.request
              Scenarios.published
              (mkResult "feat" true (Some "01234567") true
                 (Some "https://github.com/org/repo/pull/7") true None)
              run.2) as (Hp & Hc & _ & _ & Hh & _);
    [vm_compute; reflexivity|].
  by repeat split; try apply Hh.
Defined.

Lemma commit_failure_stops_before_push_witness :
  let run := invoke (createCreatePRHandler (env := scripted)
                       Scenarios.request) Scenarios.statusRejected in
  run.1 = Ok (Failure 500 "Command failed: git status") ∧
  ∀ ev, ev ∈ run.2 →
    isPushCall ev.1 = false ∧ isPRCall ev.1 = false ∧ ev.1 ≠ ghProbe.
Proof.
  cbv zeta.
  set (run := invoke (createCreatePRHandler (env := scripted)
                        Scenarios.request) Scenarios.statusRejected).
  destruct (commit_failure_stops_before_push (env := scripted)
              Scenarios.request Scenarios.statusRejected run.1 run.2
              (Exec "git status --porcelain" (Some "/repo/.worktrees/feat")
                 true)
              (mkError (Some "fatal: not a git repository")
                 (Some "Command failed: git status")))
    as (Hr & _ & Hno);
    [apply surjective_pairing|vm_compute; here|reflexivity|].
  by split.
Defined.

Lemma commands_run_in_worktree_witness :
  let run := invoke (createCreatePRHandler (env := scripted)
                       Scenarios.request) Scenarios.published in
  let ev : Event :=
    (plainPush (Some "/repo/.worktrees/feat") "feat", Ok "") in
  ev.1 = ghProbe ∨ ranIn (worktreePath Scenarios.request) ev.1.
Proof.
  cbv zeta.
  set (run := invoke (createCreatePRHandler (env := scripted)
                        Scenarios.request) Scenarios.published).
  apply (commands_run_in_worktree (env := scripted) Scenarios.request
           Scenarios.published run.1 run.2);
    [apply surjective_pairing|vm_compute; here].
Defined.

Lemma clean_tree_skips_commit_witness :
  let run := invoke (createCreatePRHandler (env := scripted)
                       Scenarios.request) Scenarios.ghAbsent in
  (∀ ev, ev ∈ run.2 → isStagingCall ev.1 = false) ∧
  ∀ result, run.1 = Ok (Success result) →
    committed result = false ∧ commitHash result = None.
Proof.
  cbv zeta.
  set (run := invoke (createCreatePRHandler (env := scripted)
                        Scenarios.request) Scenarios.ghAbsent).
  apply (clean_tree_skips_commit (env := scripted) Scenarios.request
           Scenarios.ghAbsent run.1 run.2 (Some "/repo/.worktrees/feat") "");
    [apply surjective_pairing|vm_compute; here].
Defined.

Lemma fork_needs_both_remotes_witness :
  let run := invoke (createCreatePRHandler (env := scripted)
                       Scenarios.request) Scenarios.remotesRejected in
  ∃ o pr,
    (Exec "git rev-parse --abbrev-ref HEAD" (Some "/repo/.worktrees/feat")
       true, Ok o) ∈ run.2 ∧
    last run.2 =
    Some (prCall (Some "/repo/.worktrees/feat") Scenarios.request
            (Js.trim o) (None, None), pr).
Proof.
  cbv zeta.
  set (run := invoke (createCreatePRHandler (env := scripted)
                        Scenarios.request) Scenarios.remotesRejected).
  apply (fork_needs_both_remotes (env := scripted) Scenarios.request
           Scenarios.remotesRejected run.1 run.2
           (Some "/repo/.worktrees/feat")
           (Scenarios.rejected "fatal: not a git repository"
              "Command failed: git remote -v"));
    [apply surjective_pairing|vm_compute; here|exact I].
Defined.

Lemma retry_follows_rejected_push_witness :
  let run := invoke (createCreatePRHandler (env := scripted)
                       Scenarios.request) Scenarios.retried in
  ∃ pre e1 post,
    run.2 = pre ++
      (plainPush (Some "/repo/.worktrees/feat") "feat", Throw e1) ::
      (upstreamPush (Some "/repo/.worktrees/feat") "feat", Ok "") :: post ∧
    post ≠ [] ∧ ∃ result, run.1 = Ok (Success result).
Proof.
  cbv zeta.
  set (run := invoke (createCreatePRHandler (env := scripted)
                        Scenarios.request) Scenarios.retried).
  destruct (retry_follows_rejected_push (env := scripted) Scenarios.request
              Scenarios.retried run.1 run.2 (Some "/repo/.worktrees/feat")
              "feat" (Ok ""))
    as (pre & e1 & post & Hevs & _ & Hpost & Hres);
    [apply surjective_pairing|vm_compute; here|].
  by exists pre, e1, post.
Defined.

End PublicationFacts.

(** ** The clients of the routes: status, dialog and selector *)

Module ClientFacts.
Import Host Worktree CreatePR.
Import CreatePRFacts.

(** *** The status route *)

Section Gh.
Context {World : Type} {env : Env World}.
Import GhStatus.

(** X24: the status route never fails: it runs [gh --version] and
    nothing else, and always answers with [success]; [installed] tells
    whether the command resolved, and a rejected command leaves the
    version out. *)
Theorem gh_status_never_fails (w : World) :
  ∃ res,
    invoke createGhStatusHandler w =
    (Ok (mkStatus true
           (match res with Ok _ => true | Throw _ => false end)
           (match res with
            | Ok stdout => versionMatch stdout
            | Throw _ => None
            end)),
     [(versionCall, res)]).
Proof.
  unfold invoke, createGhStatusHandler, try_catch, bind, ret, call.
  destruct (perform versionCall w) as [[stdout|e] w'] eqn:E;
    [by exists (Ok stdout)|by exists (Throw e)].
Qed.

End Gh.

Lemma search_sound {R} (M : string → option R) s v :
  Re.search M s = Some v → ∃ pre post, s = pre +:+ post ∧ M post = Some v.
Proof.
  induction s as [|c s IH]; cbn [Re.search].
  - destruct (M "") eqn:E; [|done]. intros [= <-]. by exists "", "".
  - destruct (M (String c s)) eqn:E.
    + intros [= <-]. by exists "", (String c s).
    + intros (pre & post & -> & Hm)%IH. by exists (String c pre), post.
Qed.

(** X25: the version is what follows [gh version ] up to the next white
    space: never empty, never with white space in it; and when the
    output begins with [gh version ], it is the word that comes next. *)
Theorem gh_version_is_next_word (stdout : string) :
  (∀ v, GhStatus.versionMatch stdout = Some v →
     Js.nonempty v = true ∧ Js.all GhStatus.not_space v = true ∧
     ∃ pre rest, stdout = pre +:+ "gh version " +:+ v +:+ rest) ∧
  (∀ v rest, stdout = "gh version " +:+ v +:+ rest →
     Js.nonempty v = true → Js.all GhStatus.not_space v = true →
     Re.stops GhStatus.not_space rest = true →
     GhStatus.versionMatch stdout = Some v).
Proof.
  unfold GhStatus.versionMatch. split.
  - intros v (pre & post & -> & Hm)%search_sound.
    apply ReFacts.lit_Some in Hm as (s' & -> & Hm).
    apply ReFacts.plus_greedy_sound in Hm
      as (c & m & rest & -> & Hc & Hall & [= <-]).
    split; [done|]. split; [cbn [Js.all]; by rewrite Hc|]. by exists pre, rest.
  - intros v rest -> Hv Hall Hstop. destruct v as [|c m]; [done|].
    cbn [Js.all] in Hall. apply andb_true_iff in Hall as [Hc Hm].
    change ("gh version " +:+ String c m +:+ rest)
      with ("gh version " +:+ (String c m +:+ rest)).
    assert (Re.lit "gh version "
              (Re.plus_greedy GhStatus.not_space (λ v _, Some v))
              ("gh version " +:+ (String c m +:+ rest)) = Some (String c m))
      as Hlit.
    { rewrite ReFacts.lit_app. by apply ReFacts.plus_greedy_max. }
    cbn [String.append] in *. cbn [Re.search]. by rewrite Hlit.
Qed.

(** *** The dialog on the answers of the publication *)

Section Dialog.
Context {World : Type} {env : Env World}.
Import PRDialog PublicationFacts.

Lemma probe_rejected req w r evs e :
  invoke (createCreatePRHandler req) w = (r, evs) →
  (ghProbe, Throw e) ∈ evs →
  ∃ b hc h,
    r = Ok (Success (mkResult b hc h true None false
                       (Some (errorText e "PR creation failed")))).
Proof.
  intros Hrun Hin. apply handler_steps in Hrun.
  destruct Hrun as [(_ & _ & ->)|[(e' & _ & Hstep)|
    (b & hc & h & pre & Hpre & Hrun)]].
  - by apply elem_of_nil in Hin.
  - by destruct (commitStep_calls _ _ _ _ _ Hstep Hin) as (_ & _ & _ & ? & _).
  - cbv zeta in Hrun.
    assert ((ghProbe, Throw e) ∉ pre) as Hnpre.
    { intros Hp.
      by destruct (commitStep_calls _ _ _ _ _ Hpre Hp) as (_ & _ & _ & ? & _). }
    destruct Hrun as [(e1 & e2 & -> & _)|(pushEvs & Hpb & Hrun)].
    { apply elem_of_app in Hin as [Hin|Hin]; [done|].
      apply elem_of_cons in Hin as [Hin|Hin]; [done|].
      by apply list_elem_of_singleton in Hin. }
    assert ((ghProbe, Throw e) ∉ pushEvs) as Hnpush.
    { intros Hp. by destruct (pushedBy_elem _ _ _ _ Hpb Hp) as (_ & ? & _). }
    destruct Hrun as [(e' & -> & ->)|(out & remotes & pr & -> & _)].
    + apply elem_of_app in Hin as [Hin|Hin]; [done|].
      apply elem_of_app in Hin as [Hin|Hin]; [done|].
      apply list_elem_of_singleton in Hin. injection Hin as <-.
      by exists b, hc, h.
    + apply elem_of_app in Hin as [Hin|Hin]; [done|].
      apply elem_of_app in Hin as [Hin|Hin]; [done|].
      apply elem_of_cons in Hin as [Hin|Hin]; [done|].
      apply elem_of_cons in Hin as [Hin|Hin]; [done|].
      apply list_elem_of_singleton in Hin.
      destruct (prCall_class (worktreePath req) req b (forkOf remotes))
        as (_ & _ & _ & Hne & _).
      destruct Hne. congruence.
Qed.

(** An answer without error and without a created request comes from a
    review-request command that printed nothing. *)
Lemma silent_result req w res evs :
  invoke (createCreatePRHandler req) w = (Ok (Success res), evs) →
  prCreated res = false → Js.truthy (prError res) = false →
  ∃ pre c out, evs = pre ++ [(c, Ok out)] ∧ isPRCall c = true ∧
    Js.trim out = "".
Proof.
  intros Hrun Hpc Herr. apply handler_steps in Hrun.
  destruct Hrun as [(_ & [=] & _)|[(e & [=] & _)|
    (b & hc & h & pre & Hpre & Hrun)]].
  cbv zeta in Hrun.
  destruct Hrun as [(e1 & e2 & _ & [=])|(pushEvs & _ & Hrun)].
  destruct Hrun as [(e & _ & Hres)|(out & remotes & pr & -> & Hres)].
  - injection Hres as ->. cbn [prError] in Herr.
    destruct (errorText_nonempty e "PR creation failed")
      as (c' & s' & He); [done|]. by rewrite He in Herr.
  - destruct pr as [url|e]; injection Hres as ->.
    + cbn [prCreated] in Hpc.
      eexists (pre ++ pushEvs ++ [_; _]), _, url.
      split; [by rewrite <- !app_assoc|]. split; [apply prCall_class|].
      by destruct (Js.trim url).
    + cbn [prError] in Herr.
      destruct (errorText_nonempty e "PR creation failed")
        as (c' & s' & He); [done|]. by rewrite He in Herr.
Qed.

(** X26: what the dialog shows for the answers of the publication.  The
    note that the hosting CLI may be missing is only shown when the
    review-request command itself resolved and printed nothing; when the
    probe for the CLI is rejected, the dialog shows the failure toast
    with the text made from the probe's error, and closes.  A link is
    shown only for the non-empty output of a review-request command
    that resolved, and the dialog then stays open. *)
Theorem dialog_on_publication req w resp evs :
  invoke (createCreatePRHandler req) w = (Ok resp, evs) →
  (∀ t, t ∈ toasts (handleCreate resp) → isInfo t = true →
     ∃ pre c out, evs = pre ++ [(c, Ok out)] ∧ isPRCall c = true ∧
       Js.trim out = "") ∧
  (∀ e, (ghProbe, Throw e) ∈ evs →
     ToastError "PR creation failed"
       (errorMessage (errorText e "PR creation failed"))
       ∈ toasts (handleCreate resp) ∧
     Forall (λ t, isInfo t = false) (toasts (handleCreate resp)) ∧
     closed (handleCreate resp) = true) ∧
  (∀ url, shownUrl (handleCreate resp) = Some url →
     Js.nonempty url = true ∧ closed (handleCreate resp) = false ∧
     ∃ pre c out, evs = pre ++ [(c, Ok out)] ∧ isPRCall c = true ∧
       url = Js.trim out).
Proof.
  intros Hrun. split; [|split].
  - intros t Ht Hinfo.
    destruct resp as [res|code err]; [|by apply elem_of_nil in Ht].
    cbn [handleCreate] in Ht.
    destruct (prCreated res && Js.truthy (prUrl res)) eqn:Hc.
    { apply list_elem_of_singleton in Ht as ->. done. }
    cbn [toasts] in Ht. apply elem_of_cons in Ht as [->|Ht]; [done|].
    destruct (prCreated res) eqn:Hpc; cbn [negb] in Ht;
      [by apply elem_of_nil in Ht|].
    apply (silent_result _ _ _ _ Hrun Hpc).
    destruct (prError res) as [[|c e]|]; try done.
    by apply list_elem_of_singleton in Ht as ->.
  - intros e He.
    destruct (probe_rejected _ _ _ _ _ Hrun He) as (b & hc & h & [= ->]).
    destruct (errorText_nonempty e "PR creation failed")
      as (c' & s' & Htext); [done|].
    cbn [handleCreate prCreated prUrl prError committed commitHash branch
         andb negb toasts closed Js.truthy].
    rewrite Htext. split; [here|]. split; [|done].
    by repeat constructor.
  - intros url Hurl. destruct resp as [res|code err]; [|done].
    cbn [handleCreate] in *.
    destruct (prCreated res && Js.truthy (prUrl res)) eqn:Hc; [|done].
    cbn in Hurl. apply andb_true_iff in Hc as [Hpc Hu].
    rewrite Hurl in Hu. split; [by destruct url|]. split; [done|].
    apply handler_steps in Hrun.
    destruct Hrun as [(_ & [=] & _)|[(e & [=] & _)|
      (b & hc & h & pre & Hpre & Hrun)]].
    cbv zeta in Hrun.
    destruct Hrun as [(e1 & e2 & _ & [=])|(pushEvs & _ & Hrun)].
    destruct Hrun as [(e & _ & Hres)|(out & remotes & pr & -> & Hres)].
    + injection Hres as ->. done.
    + destruct pr as [out'|e]; injection Hres as ->; [|done].
      cbn in Hurl. injection Hurl as <-.
      eexists (pre ++ pushEvs ++ [_; _]), _, out'.
      split; [by rewrite <- !app_assoc|]. split; [apply prCall_class|done].
Qed.

End Dialog.

(** *** The selector on the answers of the list route *)

Section Select.
Import Selector ListingFacts.

Lemma find_main_head (wts : list WorktreeInfo) :
  isMain <$> wts = mainFlags true (List.length wts) →
  find isMain wts = head wts ∧
  ∀ w, w ∈ wts → isMain w = true → head wts = Some w.
Proof.
  destruct wts as [|m wts]; [by split; [|intros ? ?%elem_of_nil]|].
  rewrite fmap_cons. cbn [List.length mainFlags]. intros [= Hm Hrest].
  cbn [find head]. rewrite Hm. split; [done|].
  intros w [->|Hin]%elem_of_cons Hw; [done|].
  apply (list_elem_of_fmap_2 isMain) in Hin. rewrite Hrest, Hw in Hin.
  by apply elem_of_replicate in Hin as [? _].
Qed.

Lemma find_by_path (wts : list WorktreeInfo) w :
  NoDup (path <$> wts) → w ∈ wts →
  find (λ x, bool_decide (Some (path x) = Some (path w))) wts = Some w.
Proof.
  induction wts as [|x wts IH]; intros Hnd Hin; [by apply elem_of_nil in Hin|].
  rewrite fmap_cons in Hnd. apply NoDup_cons in Hnd as [Hx Hnd].
  cbn [find]. case_bool_decide as Hp.
  - apply elem_of_cons in Hin as [->|Hin]; [done|].
    destruct Hx. injection Hp as ->. by apply list_elem_of_fmap_2.
  - apply elem_of_cons in Hin as [->|Hin]; [done|]. by apply IH.
Qed.

Lemma find_no_path (wts : list WorktreeInfo) p :
  p ∉ path <$> wts →
  find (λ x, bool_decide (Some (path x) = Some p)) wts = None.
Proof.
  induction wts as [|x wts IH]; intros Hp; [done|].
  rewrite fmap_cons in Hp. apply not_elem_of_cons in Hp as [Hx Hp].
  cbn [find]. rewrite bool_decide_eq_false_2 by congruence. by apply IH.
Qed.

Context {World : Type} {env : Env World}.

(** X27: selecting an entry of the listing and looking the selection up
    again gives that entry, provided no two entries have the same path;
    a selection that is not among the paths, and no selection at all,
    fall back to the first entry, the main copy. *)
Theorem selection_round_trip body w0 wts evs :
  invoke (createListHandler body) w0 = (Ok (Success wts), evs) →
  NoDup (path <$> wts) →
  (∀ w, w ∈ wts →
     selectedWorktree wts (handleSelectWorktree w) = Some w) ∧
  (∀ p, p ∉ path <$> wts → selectedWorktree wts (Some p) = head wts) ∧
  selectedWorktree wts None = head wts.
Proof.
  intros Hrun Hnd.
  assert (Forall complete wts ∧
          isMain <$> wts = mainFlags true (List.length wts)) as [Hc Hf].
  { apply success_result in Hrun as [->|(p & stdout & _ & Hid)]; [done|].
    destruct (parseWorktreeList_invariant stdout) as [Hc Hm].
    destruct (identity_flags _ _ Hid) as [Hf Hl].
    split; [by eapply identity_complete|]. by rewrite Hf, Hl. }
  destruct (find_main_head wts Hf) as [Hfind Hhead].
  assert (selectedWorktree wts None = head wts) as Hnone.
  { unfold selectedWorktree. cbn [Js.truthy].
    change (find (λ w, isMain w) wts) with (find isMain wts).
    rewrite Hfind. by destruct (head wts). }
  split; [|split; [|done]].
  - intros w Hw. unfold handleSelectWorktree.
    destruct (isMain w) eqn:Hm; [rewrite Hnone; by apply Hhead|].
    unfold selectedWorktree.
    apply (proj1 (Forall_forall _ _) Hc) in Hw as Hcw.
    destruct Hcw as [Hp _]. destruct (path w) as [|c p] eqn:Hpath; [done|].
    cbn [Js.truthy]. rewrite <- Hpath. by rewrite find_by_path.
  - intros p Hp. unfold selectedWorktree.
    destruct p as [|c p]; cbn [Js.truthy].
    + change (find (λ w, isMain w) wts) with (find isMain wts).
      rewrite Hfind. by destruct (head wts).
    + by rewrite find_no_path.
Qed.

End Select.

Lemma dialog_on_publication_witness :
  let resp :=
    Success (mkResult "feat" false None true None false
               (Some "Command failed: command -v gh")) in
  (invoke (createCreatePRHandler (env := scripted) Scenarios.request)
     Scenarios.ghAbsent).1 = Ok resp ∧
  PRDialog.ToastError "PR creation failed" "Command failed: command -v gh"
    ∈ PRDialog.toasts (PRDialog.handleCreate resp) ∧
  Forall (λ t, PRDialog.isInfo t = false)
    (PRDialog.toasts (PRDialog.handleCreate resp)) ∧
  PRDialog.closed (PRDialog.handleCreate resp) = true.
Proof.
  cbv zeta. split; [vm_compute; reflexivity|].
  set (run := invoke (createCreatePRHandler (env := scripted)
                        Scenarios.request) Scenarios.ghAbsent).
  destruct (dialog_on_publication (env := scripted) Scenarios.request
              Scenarios.ghAbsent
              (Success (mkResult "feat" false None true None false
                          (Some "Command failed: command -v gh")))
              run.2) as (_ & Hprobe & _); [vm_compute; reflexivity|].
  apply (Hprobe (mkError (Some "") (Some "Command failed: command -v gh"))).
  vm_compute. here.
Defined.

Lemma selection_round_trip_witness :
  let wts := entriesOf true Scenarios.checkouts in
  (invoke (createListHandler (env := scripted) (Scenarios.listRequest false))
     Scenarios.listed).1 = Ok (Success wts) ∧
  (∀ w, w ∈ wts →
     Selector.selectedWorktree wts (Selector.handleSelectWorktree w) =
     Some w) ∧
  (∀ p, p ∉ path <$> wts →
     Selector.selectedWorktree wts (Some p) = head wts) ∧
  Selector.selectedWorktree wts None = head wts.
Proof.
  cbv zeta. split; [vm_compute; reflexivity|].
  set (run := invoke (createListHandler (env := scripted)
                        (Scenarios.listRequest false)) Scenarios.listed).
  apply (selection_round_trip (env := scripted) (Scenarios.listRequest false)
           Scenarios.listed (entriesOf true Scenarios.checkouts) run.2).
  - vm_compute. reflexivity.
  - apply NoDup_cons. split; [|apply NoDup_singleton].
    intros Hin. apply list_elem_of_singleton in Hin. discriminate.
Defined.

End ClientFacts.

(** ** Envelopes and early exits *)

Module EnvelopeFacts.
Import Host Worktree CreatePR.
Import CreateFacts.

Section Runs.
Context {World : Type} {env : Env World}.

(** X28: the three worktree routes always answer: whatever a command or
    a file operation throws ends up in an envelope, never in a rejected
    handler. *)
Theorem handlers_always_answer :
  (∀ body (w : World),
     ∃ resp, (invoke (createListHandler body) w).1 = Ok resp) ∧
  (∀ body (w : World),
     ∃ resp, (invoke (createCreateHandler body) w).1 = Ok resp) ∧
  (∀ req (w : World),
     ∃ resp, (invoke (createCreatePRHandler req) w).1 = Ok resp).
Proof.
  split; [|split].
  - intros body w.
    destruct (invoke (createListHandler body) w) as [r evs] eqn:Hrun.
    apply WorktreeFacts.createListHandler_run in Hrun.
    destruct Hrun as [(_ & -> & _)|[(e & -> & _)|[(-> & _)|
      (p & stdout & _ & [(_ & _ & ->)|(segs & wts & _ & _ & _ & ->)])]]];
      by eexists.
  - intros body w.
    destruct (invoke (createCreateHandler body) w) as [r evs] eqn:Hrun.
    apply createCreateHandler_run in Hrun.
    destruct Hrun as [(_ & -> & _)|(pp & bn & _ & _ & _ & _ & Hrun)];
      [by eexists|].
    destruct Hrun as [(e & -> & _)|[(-> & _)|[(e & -> & _)|
      [(o1 & o2 & -> & _)|(o1 & e2 & verify & Hrun)]]]]; try by eexists.
    cbv zeta in Hrun.
    destruct Hrun as [(e & -> & _)|(out & link & -> & _)]; by eexists.
  - intros req w.
    destruct (invoke (createCreatePRHandler req) w) as [r evs] eqn:Hrun.
    apply CreatePRFacts.handler_run in Hrun.
    destruct Hrun as [(_ & -> & _)|[(e & -> & _)|
      (b & hc & h & pre & _ & _ & Hrun)]]; try by eexists.
    cbv zeta in Hrun.
    destruct Hrun as [(e1 & e2 & _ & ->)|(pushEvs & _ & Hrun)];
      [by eexists|].
    destruct Hrun as [(e & _ & ->)|(out & remotes & pr & _ & ->)];
      by eexists.
Qed.

(** X29: a request without its required fields, an empty string
    counting as none, is answered with a 400 that names them, and with
    that answer only; no command has been run for it. *)
Theorem missing_fields_rejected :
  (∀ body (w : World),
     let run := invoke (createListHandler body) w in
     (Js.truthy (list_projectPath body) = false ↔
      run.1 = Ok (Failure 400 "projectPath required")) ∧
     (Js.truthy (list_projectPath body) = false → run.2 = [])) ∧
  (∀ body (w : World),
     let run := invoke (createCreateHandler body) w in
     (Js.truthy (projectPath body) = false ∨
      Js.truthy (branchName body) = false ↔
      run.1 = Ok (Failure 400 "projectPath and branchName required")) ∧
     (Js.truthy (projectPath body) = false ∨
      Js.truthy (branchName body) = false → run.2 = [])) ∧
  (∀ req (w : World),
     let run := invoke (createCreatePRHandler req) w in
     (Js.truthy (worktreePath req) = false ↔
      run.1 = Ok (Failure 400 "worktreePath required")) ∧
     (Js.truthy (worktreePath req) = false → run.2 = [])).
Proof.
  split; [|split].
  - intros body w. cbv zeta.
    destruct (Js.truthy (list_projectPath body)) eqn:Hp.
    + destruct (invoke (createListHandler body) w) as [r evs] eqn:Hrun.
      apply WorktreeFacts.createListHandler_run in Hrun. cbn [fst snd].
      split; [|done]. split; [done|]. intros ->.
      destruct Hrun as [(Hp' & _)|[(e & [=] & _)|[([=] & _)|
        (p & stdout & _ & [(_ & _ & [=])|(segs & wts & _ & _ & _ & [=])])]]].
      congruence.
    + assert (invoke (createListHandler body) w =
              (Ok (Failure 400 "projectPath required"), [])) as ->; [|done].
      unfold invoke, createListHandler, try_catch, ret.
      by destruct (list_projectPath body) as [[|c p]|].
  - intros body w. cbv zeta.
    destruct (invoke (createCreateHandler body) w) as [r evs] eqn:Hrun.
    apply createCreateHandler_run in Hrun. cbn [fst snd].
    destruct Hrun as [(Hp & -> & ->)|
      (pp & bn & Hp & Hb & Hpp & Hbn & Hrun)]; [done|].
    assert (¬ (Js.truthy (projectPath body) = false ∨
               Js.truthy (branchName body) = false)) as Hno.
    { rewrite Hp, Hb. destruct pp, bn; try done. by intros [?|?]. }
    split; [|done]. split; [done|]. intros ->. exfalso.
    destruct Hrun as [(e & [=] & _)|[([=] & _)|[(e & [=] & _)|
      [(o1 & o2 & Hr & _)|(o1 & e2 & verify & Hrun)]]]].
    + simpl in Hr. discriminate.
    + cbv zeta in Hrun.
      by destruct Hrun as [(e & [=] & _)|(out & link & [=] & _)].
  - intros req w. cbv zeta.
    destruct (Js.truthy (worktreePath req)) eqn:Hp.
    + destruct (invoke (createCreatePRHandler req) w) as [r evs] eqn:Hrun.
      apply CreatePRFacts.handler_run in Hrun. cbn [fst snd].
      split; [|done]. split; [done|]. intros ->.
      destruct Hrun as [(Hp' & _)|[(e & [=] & _)|
        (b & hc & h & pre & _ & _ & Hrun)]]; [congruence|].
      cbv zeta in Hrun.
      destruct Hrun as [(e1 & e2 & _ & [=])|(pushEvs & _ & Hrun)].
      by destruct Hrun as [(e & _ & [=])|(out & remotes & pr & _ & [=])].
    + assert (invoke (createCreatePRHandler req) w =
              (Ok (Failure 400 "worktreePath required"), [])) as ->; [|done].
      unfold invoke, createCreatePRHandler, try_catch, ret.
      by destruct (worktreePath req) as [[|c p]|].
Qed.

(** X30: outside a git repository neither route runs a command: the
    list route answers with a success that lists nothing, the create
    route with a 400. *)
Theorem outside_repository (w w' : World) pp :
  Js.nonempty pp = true →
  isGitRepo pp w = (Ok false, w') →
  (∀ details,
     invoke (createListHandler (mkListBody (Some pp) details)) w =
     (Ok (Success []), [])) ∧
  (∀ bn base, Js.nonempty bn = true →
     invoke (createCreateHandler (mkCreateBody (Some pp) (Some bn) base)) w =
     (Ok (Failure 400 "Not a git repository"), [])).
Proof.
  intros Hpp Hrepo. destruct pp as [|c p]; [done|]. split.
  - intros details.
    unfold invoke, createListHandler, try_catch, bind, ret, isGitRepoM.
    cbn [list_projectPath]. by rewrite Hrepo.
  - intros bn base Hbn. destruct bn as [|d b]; [done|].
    unfold invoke, createCreateHandler, try_catch, bind, ret, isGitRepoM.
    cbn [projectPath branchName]. by rewrite Hrepo.
Qed.

End Runs.
Lemma outside_repository_witness :
  invoke (createListHandler (env := Scenarios.host false)
            (Scenarios.listRequest true)) [] = (Ok (Success []), []) ∧
  invoke (createCreateHandler (env := Scenarios.host false)
            Scenarios.createRequest) [] =
  (Ok (Failure 400 "Not a git repository"), []).
Proof.
  destruct (outside_repository (env := Scenarios.host false) [] [] "/repo")
    as [Hlist Hcreate]; [reflexivity..|].
  split; [apply Hlist|by apply Hcreate].
Defined.

End EnvelopeFacts.
